(** * jason_fixer: a shallow embedding of the tolerant JSON repair engine

    The development follows [src/jason_fixer.py].  Python text is a sequence
    of code points, the parser's cursor and the error tracker live in the
    [JsonFixer] object and are threaded through a small state and exception
    monad, and the built-ins of the Python runtime the program calls
    ([str.isspace], [int], [float], [json.loads], ...) are gathered in the
    interface [PyLib]; a reference instance for ASCII text is given so that
    every definition can be run on concrete inputs. *)

From Stdlib Require Import List ZArith NArith Bool Lia String Ascii Arith.
Import ListNotations.

Set Implicit Arguments.

(** ** Text *)

(** A Python character is a Unicode code point; a [str] is a sequence of
    them, indexed from zero. *)
Definition char := N.
Definition pystr := list char.

Definition chr (a : ascii) : char := N_of_ascii a.

(** [py "..."] is the Python string with the same (ASCII) characters. *)
Definition py (s : string) : pystr := map chr (list_ascii_of_string s).

(** The double quote, the single quote and the backslash. *)
Definition dquote : char := 34%N.
Definition squote : char := 39%N.
Definition backslash : char := 92%N.

(** [c == 'x'] for a one-character constant. *)
Definition is_chr (c : char) (a : ascii) : bool := N.eqb c (chr a).

(** [c in "..."] for a one-character [c]. *)
Definition char_in (c : char) (s : string) : bool := existsb (N.eqb c) (py s).

Fixpoint str_eqb (s t : pystr) : bool :=
  match s, t with
  | [], [] => true
  | a :: s', b :: t' => N.eqb a b && str_eqb s' t'
  | _, _ => false
  end.

(** [text.count(c)] *)
Definition count (c : char) (s : pystr) : nat :=
  List.length (filter (N.eqb c) s).

(** [text.find(c)]: the lowest index of [c], or -1. *)
Fixpoint find_from (c : char) (s : pystr) (i : Z) : Z :=
  match s with
  | [] => (-1)%Z
  | x :: s' => if N.eqb x c then i else find_from c s' (i + 1)%Z
  end.
Definition find (c : char) (s : pystr) : Z := find_from c s 0%Z.

(** [text.rfind(c)]: the highest index of [c], or -1. *)
Fixpoint rfind_from (c : char) (s : pystr) (i : Z) (last : Z) : Z :=
  match s with
  | [] => last
  | x :: s' => rfind_from c s' (i + 1)%Z (if N.eqb x c then i else last)
  end.
Definition rfind (c : char) (s : pystr) : Z := rfind_from c s 0%Z (-1)%Z.

(** [text[start:stop]] with Python's treatment of negative and
    out-of-range bounds. *)
Definition clamp_index (len i : Z) : Z :=
  if (i <? 0)%Z then Z.max 0 (i + len) else Z.min i len.

Definition py_slice (s : pystr) (start stop : Z) : pystr :=
  let n := Z.of_nat (List.length s) in
  skipn (Z.to_nat (clamp_index n start)) (firstn (Z.to_nat (clamp_index n stop)) s).

Fixpoint dropwhile (p : char -> bool) (s : pystr) : pystr :=
  match s with
  | [] => []
  | x :: s' => if p x then dropwhile p s' else s
  end.

(** [s.strip(chars)] for a predicate on characters. *)
Definition strip_with (p : char -> bool) (s : pystr) : pystr :=
  rev (dropwhile p (rev (dropwhile p s))).

(** [s.replace(c, '')] *)
Definition remove_char (c : char) (s : pystr) : pystr :=
  filter (fun x => negb (N.eqb x c)) s.

(** [str.lower] on the characters [parse_number] collects (digits, [.],
    [-], [e], [E]): only [A]-[Z] are folded. *)
Definition lower_char (c : char) : char :=
  if (N.leb 65 c && N.leb c 90)%bool then (c + 32)%N else c.
Definition lower (s : pystr) : pystr := map lower_char s.

(** Decimal rendering of integers, [int.__repr__]. *)
Definition digit_char (d : N) : char := (48 + d)%N.

Fixpoint digits_fuel (fuel : nat) (n : N) : pystr :=
  match fuel with
  | O => []
  | S fuel' =>
      if (n <? 10)%N then [digit_char n]
      else digits_fuel fuel' (n / 10)%N ++ [digit_char (n mod 10)%N]
  end.

Definition nat_digits (n : N) : pystr := digits_fuel (S (N.to_nat (N.log2 n))) n.

Definition int_repr (z : Z) : pystr :=
  if (z <? 0)%Z then chr "-" :: nat_digits (Z.to_N (- z)) else nat_digits (Z.to_N z).

(** ** Values *)

(** Keys of a Python [dict]: the hashable scalars. *)
Inductive Key (F : Type) : Type :=
| KStr (s : pystr)
| KInt (z : Z)
| KFloat (f : F)
| KBool (b : bool)
| KNone.

Arguments KStr {F} s.
Arguments KInt {F} z.
Arguments KFloat {F} f.
Arguments KBool {F} b.
Arguments KNone {F}.

(** What [json.loads] and the tolerant parser produce.  A [dict] keeps its
    insertion order, so an object is an association list. *)
#[local] Unset Elimination Schemes.
Inductive Value (F : Type) : Type :=
| VNull
| VBool (b : bool)
| VInt (z : Z)
| VFloat (f : F)
| VStr (s : pystr)
| VArr (xs : list (Value F))
| VObj (kvs : list (Key F * Value F)).

#[local] Set Elimination Schemes.

Arguments VNull {F}.
Arguments VBool {F} b.
Arguments VInt {F} z.
Arguments VFloat {F} f.
Arguments VStr {F} s.
Arguments VArr {F} xs.
Arguments VObj {F} kvs.

Inductive float_class := FFinite | FNaN | FPosInf | FNegInf.

(** ** Exceptions *)

Inductive exn : Type :=
| AttributeError (msg : pystr)
| IndexError (msg : pystr)
| TypeError (msg : pystr)
| ValueError (msg : pystr)
| RecursionError (msg : pystr).

(** [str(ex)] *)
Definition exn_str (e : exn) : pystr :=
  match e with
  | AttributeError m | IndexError m | TypeError m | ValueError m | RecursionError m => m
  end.

(** What [json.loads] makes of a text: a value; a [JSONDecodeError],
    with its position [e.pos]; or an exception of another class, which
    [except json.JSONDecodeError] does not catch: the [ValueError] of an
    integer literal beyond the interpreter's digit limit, the
    [RecursionError] of nesting beyond its stack. *)
Inductive Loads (F : Type) : Type :=
| Decoded (v : Value F)
| DecodeError (pos : nat)
| LoadsError (e : exn).

Arguments Decoded {F} v.
Arguments DecodeError {F} pos.
Arguments LoadsError {F} e.

(** ** The Python runtime

    The built-ins whose behaviour is fixed by the interpreter and its
    Unicode tables, not by this repository. *)
Class PyLib : Type := {
  pyfloat : Type;
  (** [str.isspace], [str.isalpha], [str.isdigit] on one character *)
  isspace : char -> bool;
  isalpha : char -> bool;
  isdigit : char -> bool;
  (** [int(s)] and [float(s)]; [None] stands for [ValueError] *)
  int_of_str : pystr -> option Z;
  float_of_str : pystr -> option pyfloat;
  (** [float.__repr__], truth value, class and comparisons of a float *)
  float_repr : pyfloat -> pystr;
  float_is_zero : pyfloat -> bool;
  float_classify : pyfloat -> float_class;
  float_eqb : pyfloat -> pyfloat -> bool;
  float_eq_int : pyfloat -> Z -> bool;
  (** [json.loads(s)] *)
  json_loads : pystr -> Loads pyfloat
}.

(** ** JsonResults *)

Record JsonResults : Type := mkResults {
  original : pystr;
  fixed : pystr;
  errors : list (pystr * list Z)      (* {char: [positions]}, in insertion order *)
}.

(** [JsonResults.add_error] on the [errors] dictionary. *)
Fixpoint errors_add (errs : list (pystr * list Z)) (c : pystr) (index : Z)
  : list (pystr * list Z) :=
  match errs with
  | [] => [(c, [index])]
  | (k, ps) :: rest =>
      if str_eqb k c then (k, ps ++ [index]) :: rest
      else (k, ps) :: errors_add rest c index
  end.

Definition add_error (r : JsonResults) (c : pystr) (index : Z) : JsonResults :=
  mkResults (original r) (fixed r) (errors_add (errors r) c index).

(** How many observations an error map holds. *)
Definition positions (errs : list (pystr * list Z)) : nat :=
  fold_right (fun kv n => List.length (snd kv) + n) 0 errs.

Definition set_fixed (r : JsonResults) (s : pystr) : JsonResults :=
  mkResults (original r) s (errors r).

Definition get_errors (r : JsonResults) : list (pystr * list Z) := errors r.

Record LogEntry : Type := mkLog { log_error : pystr; log_context : pystr }.

Section Fixer.

Context {L : PyLib}.

#[local] Abbreviation value := (Value pyfloat).
#[local] Abbreviation key := (Key pyfloat).

(** ** The canonical serializer: [json.dumps(obj, separators=(',', ':'))] *)

Definition hex_char (d : N) : char :=
  if (d <? 10)%N then (48 + d)%N else (87 + d)%N.

(** ['\\u{0:04x}'.format(n)] for [n < 0x10000] *)
Definition u_escape (n : N) : pystr :=
  [backslash; chr "u"; hex_char ((n / 4096) mod 16); hex_char ((n / 256) mod 16);
   hex_char ((n / 16) mod 16); hex_char (n mod 16)]%N.

(** One character under [ensure_ascii=True]. *)
Definition escape_char (c : char) : pystr :=
  if (c =? dquote)%N then [backslash; dquote]
  else if (c =? backslash)%N then [backslash; backslash]
  else if (c =? 10)%N then py "\n"
  else if (c =? 13)%N then py "\r"
  else if (c =? 9)%N then py "\t"
  else if (c =? 12)%N then py "\f"
  else if (c =? 8)%N then py "\b"
  else if ((32 <=? c) && (c <=? 126))%N then [c]
  else if (c <? 65536)%N then u_escape c
  else
    let n := (c - 65536)%N in
    u_escape (N.lor 55296 (N.land (N.shiftr n 10) 1023))
      ++ u_escape (N.lor 56320 (N.land n 1023)).

Definition encode_string (s : pystr) : pystr :=
  dquote :: flat_map escape_char s ++ [dquote].

Definition floatstr (f : pyfloat) : pystr :=
  match float_classify f with
  | FNaN => py "NaN"
  | FPosInf => py "Infinity"
  | FNegInf => py "-Infinity"
  | FFinite => float_repr f
  end.

(** The text a [dict] key is written as before it is quoted. *)
Definition key_text (k : key) : pystr :=
  match k with
  | KStr s => s
  | KInt z => int_repr z
  | KFloat f => floatstr f
  | KBool true => py "true"
  | KBool false => py "false"
  | KNone => py "null"
  end.

Fixpoint join (sep : pystr) (parts : list pystr) : pystr :=
  match parts with
  | [] => []
  | [p] => p
  | p :: rest => p ++ sep ++ join sep rest
  end.

Fixpoint json_dumps (v : value) : pystr :=
  match v with
  | VNull => py "null"
  | VBool true => py "true"
  | VBool false => py "false"
  | VInt z => int_repr z
  | VFloat f => floatstr f
  | VStr s => encode_string s
  | VArr xs => chr "[" :: join [chr ","] (map json_dumps xs) ++ [chr "]"]
  | VObj kvs =>
      chr "{" :: join [chr ","]
        (map (fun kv => encode_string (key_text (fst kv)) ++ chr ":" :: json_dumps (snd kv)) kvs)
        ++ [chr "}"]
  end.

(** [str(obj)] for the scalars the tolerant parser returns. *)
Definition py_str (v : value) : pystr :=
  match v with
  | VNull => py "None"
  | VBool true => py "True"
  | VBool false => py "False"
  | VInt z => int_repr z
  | VFloat f => float_repr f
  | VStr s => s
  | VArr _ | VObj _ => json_dumps v    (* not reached: containers are serialized *)
  end.

(** ** Dictionaries *)

Definition bool_int (b : bool) : Z := if b then 1%Z else 0%Z.

(** Python's key equality: strings by content, numbers by value. *)
Definition key_eqb (a b : key) : bool :=
  match a, b with
  | KStr s, KStr t => str_eqb s t
  | KInt x, KInt y => Z.eqb x y
  | KInt x, KBool c | KBool c, KInt x => Z.eqb x (bool_int c)
  | KBool c, KBool d => Bool.eqb c d
  | KFloat f, KFloat g => float_eqb f g
  | KFloat f, KInt x | KInt x, KFloat f => float_eq_int f x
  | KFloat f, KBool c | KBool c, KFloat f => float_eq_int f (bool_int c)
  | KNone, KNone => true
  | _, _ => false
  end.

(** [d[k] = v]: an existing key keeps its place (and its first spelling),
    a new key goes to the end. *)
Fixpoint dict_set (d : list (key * value)) (k : key) (v : value) : list (key * value) :=
  match d with
  | [] => [(k, v)]
  | (k', v') :: rest =>
      if key_eqb k' k then (k', v) :: rest else (k', v') :: dict_set rest k v
  end.

(** The hashable values; lists and dicts are not. *)
Definition to_key (v : value) : option key :=
  match v with
  | VNull => Some KNone
  | VBool b => Some (KBool b)
  | VInt z => Some (KInt z)
  | VFloat f => Some (KFloat f)
  | VStr s => Some (KStr s)
  | VArr _ | VObj _ => None
  end.

Definition of_key (k : key) : value :=
  match k with
  | KStr s => VStr s
  | KInt z => VInt z
  | KFloat f => VFloat f
  | KBool b => VBool b
  | KNone => VNull
  end.

(** Truth value of an object, [bool(v)]. *)
Definition truthy (v : value) : bool :=
  match v with
  | VNull => false
  | VBool b => b
  | VInt z => negb (Z.eqb z 0)
  | VFloat f => negb (float_is_zero f)
  | VStr s => match s with [] => false | _ => true end
  | VArr xs => match xs with [] => false | _ => true end
  | VObj kvs => match kvs with [] => false | _ => true end
  end.

(** [not s] / [value is None] *)
Definition is_none (v : value) : bool :=
  match v with VNull => true | _ => false end.

(** [type(v).__name__] *)
Definition type_name (v : value) : pystr :=
  match v with
  | VNull => py "NoneType"
  | VBool _ => py "bool"
  | VInt _ => py "int"
  | VFloat _ => py "float"
  | VStr _ => py "str"
  | VArr _ => py "list"
  | VObj _ => py "dict"
  end.

(** [len(elem)] of an iterable element. *)
Definition seq_len (elem : value) : Z :=
  match elem with
  | VArr xs => Z.of_nat (List.length xs)
  | VStr s => Z.of_nat (List.length s)
  | VObj kvs => Z.of_nat (List.length kvs)
  | _ => 0%Z
  end.

(** One element of a sequence given to [dict.update]: it must be
    iterable and of length 2 (a dict is iterated by its keys). *)
Definition update_pair (i : nat) (elem : value) : exn + (value * value) :=
  match elem with
  | VArr [k; v] => inr (k, v)
  | VStr [a; b] => inr (VStr [a], VStr [b])
  | VObj [(k1, _); (k2, _)] => inr (of_key k1, of_key k2)
  | VArr _ | VStr _ | VObj _ =>
      inl (ValueError (py "dictionary update sequence element #" ++ int_repr (Z.of_nat i)
                         ++ py " has length " ++ int_repr (seq_len elem)
                         ++ py "; 2 is required"))
  | _ =>
      inl (TypeError (py "cannot convert dictionary update sequence element #"
                        ++ int_repr (Z.of_nat i) ++ py " to a sequence"))
  end.

Definition unhashable (v : value) : exn :=
  TypeError (py "unhashable type: '" ++ type_name v ++ py "'").

Fixpoint update_from_pairs (d : list (key * value)) (i : nat) (elems : list value)
  : exn + list (key * value) :=
  match elems with
  | [] => inr d
  | e :: rest =>
      match update_pair i e with
      | inl ex => inl ex
      | inr (k, v) =>
          match to_key k with
          | None => inl (unhashable k)
          | Some k' => update_from_pairs (dict_set d k' v) (S i) rest
          end
      end
  end.

(** [merged.update(chunk)]: a mapping contributes its items; any other
    iterable must yield pairs; anything else is a [TypeError]. *)
Definition dict_update (d : list (key * value)) (other : value) : exn + list (key * value) :=
  match other with
  | VObj kvs => inr (fold_left (fun acc kv => dict_set acc (fst kv) (snd kv)) kvs d)
  | VArr xs => update_from_pairs d 0 xs
  | VStr s => update_from_pairs d 0 (map (fun c => VStr [c]) s)
  | _ => inl (TypeError (py "'" ++ type_name other ++ py "' object is not iterable"))
  end.

(** ** The fixer object *)

Record JsonFixer : Type := mkFixer {
  index : nat;
  json_str : pystr;
  logging : bool;
  logger : list LogEntry;            (* read only when [logging] *)
  result : option JsonResults;
  parse_cache : list (pystr * value);  (* [_cached_parse]'s entries for this
                                          instance, most recently used first *)
  failed_json : option pystr         (* debug/failed_json.txt, as last written *)
}.

(** [JsonFixer(logging)] *)
Definition new_fixer (logging : bool) : JsonFixer :=
  mkFixer 0 [] logging [] None [] None.

Definition set_index (self : JsonFixer) (i : nat) : JsonFixer :=
  mkFixer i (json_str self) (logging self) (logger self) (result self)
          (parse_cache self) (failed_json self).

Definition set_json_str (self : JsonFixer) (s : pystr) : JsonFixer :=
  mkFixer (index self) s (logging self) (logger self) (result self)
          (parse_cache self) (failed_json self).

Definition set_logger (self : JsonFixer) (l : list LogEntry) : JsonFixer :=
  mkFixer (index self) (json_str self) (logging self) l (result self)
          (parse_cache self) (failed_json self).

Definition set_result (self : JsonFixer) (r : option JsonResults) : JsonFixer :=
  mkFixer (index self) (json_str self) (logging self) (logger self) r
          (parse_cache self) (failed_json self).

Definition set_parse_cache (self : JsonFixer) (c : list (pystr * value)) : JsonFixer :=
  mkFixer (index self) (json_str self) (logging self) (logger self) (result self)
          c (failed_json self).

(** [_save_failure(failed)] *)
Definition _save_failure (self : JsonFixer) (failed : pystr) : JsonFixer :=
  mkFixer (index self) (json_str self) (logging self) (logger self) (result self)
          (parse_cache self) (Some failed).

(** [self.index += 1] *)
Definition advance (self : JsonFixer) : JsonFixer := set_index self (index self + 1).

(** Outcome of a method call: a value and the object's new state, an
    exception and the state it left, or an exhausted recursion budget. *)
Inductive res (A : Type) : Type :=
| Ok (a : A) (self : JsonFixer)
| Raised (e : exn) (self : JsonFixer)
| NoFuel.

Arguments Ok {A} a self.
Arguments Raised {A} e self.
Arguments NoFuel {A}.

Definition M (A : Type) : Type := JsonFixer -> res A.

Definition ret {A} (a : A) : M A := fun self => Ok a self.

Definition bind {A B} (m : M A) (k : A -> M B) : M B :=
  fun self =>
    match m self with
    | Ok a self' => k a self'
    | Raised e self' => Raised e self'
    | NoFuel => NoFuel
    end.

Definition raise {A} (e : exn) : M A := fun self => Raised e self.

(** [try: m except Exception as ex: h ex] *)
Definition catch {A} (m : M A) (h : exn -> M A) : M A :=
  fun self =>
    match m self with
    | Raised e self' => h e self'
    | r => r
    end.

Definition modify (f : JsonFixer -> JsonFixer) : M unit := fun self => Ok tt (f self).

Notation "x <- m ;; k" := (bind m (fun x => k))
  (at level 61, m at next level, right associativity).
Notation "m ;;; k" := (bind m (fun _ => k))
  (at level 61, right associativity).

(** ** The error tracker *)

Definition _track_error (c : pystr) (pos : Z) (self : JsonFixer) : JsonFixer :=
  match result self with
  | None => self
  | Some r =>
      let self1 := set_result self (Some (add_error r c pos)) in
      if logging self then
        let context_start := Z.max 0 (pos - 10) in
        let context_end := Z.min (Z.of_nat (List.length (json_str self))) (pos + 10) in
        set_logger self1
          (logger self1 ++
           [mkLog (py "Invalid character '" ++ c ++ py "' at position " ++ int_repr pos)
                  (if (0 <=? pos)%Z
                   then py_slice (json_str self) context_start context_end
                   else py "Unknown context")])
      else self1
  end.

(** ** The tolerant value parser *)

(** [STRING_DELIMITERS], as the source spells the list: the third literal
    is the two-character string [", "], which no single character equals. *)
Definition STRING_DELIMITERS : list pystr := [[dquote]; [squote]; py ", "].

(** [char in self.STRING_DELIMITERS] *)
Definition in_delimiters (c : char) : bool :=
  existsb (str_eqb [c]) STRING_DELIMITERS.

(** [s.strip()] *)
Definition strip (s : pystr) : pystr := strip_with isspace s.

Definition nonempty (s : pystr) : bool :=
  match s with [] => false | _ => true end.

Definition nonempty_stack (st : list (char * nat)) : bool :=
  match st with [] => false | _ => true end.

Definition quote_or_backslash (c : char) : bool :=
  (N.eqb c dquote || N.eqb c squote || N.eqb c backslash)%bool.

Definition _cleanup_string (s : value) (is_key : bool) : M value :=
  if negb (truthy s) then ret s
  else
    match s with
    | VStr str =>
        let result := strip str in
        ret (VStr (if is_key
                   then remove_char (chr ";") (remove_char (chr ":") result)
                   else strip_with quote_or_backslash result))
    | _ =>
        raise (AttributeError
                 (py "'" ++ type_name s ++ py "' object has no attribute 'strip'"))
    end.

(** The [while] loop of [parse_string], run over the characters from
    [self.index] on; it yields [string], the new index and [found_end]. *)
Fixpoint string_loop (is_quoted : bool) (quote : char) (rest : pystr) (index : nat)
         (escaped : bool) (string : pystr) : pystr * nat * bool :=
  match rest with
  | [] => (string, index, false)
  | c :: rest' =>
      if escaped then
        string_loop is_quoted quote rest' (index + 1) false (string ++ [c])
      else if N.eqb c backslash then
        string_loop is_quoted quote rest' (index + 1) true string
      else if (is_quoted && N.eqb c quote)%bool then
        (string, index + 1, true)
      else if (negb is_quoted && char_in c ",:]}")%bool then
        (string, index, false)
      else if (negb is_quoted && isspace c && nonempty (strip string))%bool then
        (string, index, false)
      else
        string_loop is_quoted quote rest' (index + 1) false (string ++ [c])
  end.

Definition parse_string : M value :=
  fun self =>
    match nth_error (json_str self) (index self) with
    | None => Ok (VStr []) self
    | Some c0 =>
        let start_pos := index self in
        let is_quoted := in_delimiters c0 in
        let quote := c0 in
        let first := if is_quoted then start_pos + 1 else start_pos in
        let '(string, stop, found_end) :=
          string_loop is_quoted quote (skipn first (json_str self)) first false [] in
        let self1 := set_index self stop in
        (* Track unmatched quotes *)
        let self2 :=
          if (is_quoted && negb found_end)%bool
          then _track_error [quote] (Z.of_nat start_pos) self1 else self1 in
        let result := strip string in
        let number :=
          if is_quoted then None
          else if existsb (N.eqb (chr ".")) result
               then option_map (fun f => VFloat f) (float_of_str result)
               else option_map (fun z => VInt z) (int_of_str result) in
        match number with
        | Some v => Ok v self2
        | None => _cleanup_string (VStr result) false self2
        end
    end.

Fixpoint take_while (p : char -> bool) (s : pystr) : pystr :=
  match s with
  | [] => []
  | c :: s' => if p c then c :: take_while p s' else []
  end.

(** A loop [while self.index < len(...) and p(self.json_str[self.index]):
    self.index += 1]. *)
Definition skip_while (p : char -> bool) (self : JsonFixer) : JsonFixer :=
  set_index self
    (index self + List.length (take_while p (skipn (index self) (json_str self)))).

Definition number_char (c : char) : bool := (isdigit c || char_in c ".-eE")%bool.

Definition parse_number : M value :=
  fun self =>
    let number := take_while number_char (skipn (index self) (json_str self)) in
    let self1 := set_index self (index self + List.length number) in
    let converted :=
      if (negb (existsb (N.eqb (chr ".")) number)
          && negb (existsb (N.eqb (chr "e")) (lower number)))%bool
      then option_map (fun z => VInt z) (int_of_str number)
      else option_map (fun f => VFloat f) (float_of_str number) in
    match converted with
    | Some v => Ok v self1
    | None => Ok (VInt 0) self1
    end.

(** [parse], [parse_object] and [parse_array] call one another; every call
    and every loop iteration takes one unit of [fuel].  The local variables
    of the two loops are arguments.  (The interpreter's own recursion limit
    is not modelled.) *)
Fixpoint parse (fuel : nat) : M value :=
  fun self =>
    match fuel with
    | O => NoFuel
    | S fuel' =>
        match nth_error (json_str self) (index self) with
        | None => Ok VNull self
        | Some c =>
            if isspace c then parse fuel' (advance self)
            else if is_chr c "{" then parse_object_loop fuel' [] true None (advance self)
            else if is_chr c "[" then parse_array_loop fuel' [] (advance self)
            else if (in_delimiters c || isalpha c)%bool then parse_string self
            else if (isdigit c || char_in c ".-")%bool then parse_number self
            else parse fuel' (advance self)
        end
    end
with parse_object_loop (fuel : nat) (obj : list (key * value)) (expect_key : bool)
       (current_key : option value) : M value :=
  fun self =>
    match fuel with
    | O => NoFuel
    | S fuel' =>
        match nth_error (json_str self) (index self) with
        | None => Ok (VObj obj) self
        | Some c =>
            if (isspace c || is_chr c ",")%bool then
              parse_object_loop fuel' obj expect_key current_key (advance self)
            else if is_chr c "}" then Ok (VObj obj) (advance self)
            else if expect_key then
              match (s <- parse_string ;; _cleanup_string s true) self with
              | Ok k self1 => parse_object_loop fuel' obj false (Some k) self1
              | Raised e self1 => Raised e self1
              | NoFuel => NoFuel
              end
            else if is_chr c ":" then
              parse_object_loop fuel' obj expect_key current_key (advance self)
            else
              match parse fuel' self with
              | Ok v self1 =>
                  match current_key with
                  | Some k =>
                      if is_none v then parse_object_loop fuel' obj true None self1
                      else
                        match to_key k with
                        | Some k' => parse_object_loop fuel' (dict_set obj k' v) true None self1
                        | None => Raised (unhashable k) self1
                        end
                  | None => parse_object_loop fuel' obj true None self1
                  end
              | Raised e self1 => Raised e self1
              | NoFuel => NoFuel
              end
        end
    end
with parse_array_loop (fuel : nat) (arr : list value) : M value :=
  fun self =>
    match fuel with
    | O => NoFuel
    | S fuel' =>
        match nth_error (json_str self) (index self) with
        | None => Ok (VArr arr) self
        | Some _ =>
            let self1 := skip_while isspace self in
            match nth_error (json_str self1) (index self1) with
            | None => Ok (VArr arr) (advance self1)
            | Some c =>
                if is_chr c "]" then Ok (VArr arr) (advance self1)
                else
                  match parse fuel' self1 with
                  | Ok v self2 =>
                      let arr' := if is_none v then arr else arr ++ [v] in
                      let self3 :=
                        skip_while (fun c => (isspace c || is_chr c ",")%bool) self2 in
                      parse_array_loop fuel' arr' self3
                  | Raised e self2 => Raised e self2
                  | NoFuel => NoFuel
                  end
            end
        end
    end.

Definition parse_object (fuel : nat) : M value := parse_object_loop fuel [] true None.
Definition parse_array (fuel : nat) : M value := parse_array_loop fuel [].

(** Recursion budget that [parse] never exhausts on a text of this length
    (see [parse_total]). *)
Definition parse_fuel (s : pystr) : nat := 3 * List.length s + 1.

(** ** The repair cache: [@lru_cache(maxsize=1024)] around [_cached_parse] *)

Definition cache_maxsize : nat := 1024.

Fixpoint cache_lookup (c : list (pystr * value)) (k : pystr) : option value :=
  match c with
  | [] => None
  | (k', v) :: rest => if str_eqb k' k then Some v else cache_lookup rest k
  end.

Definition cache_remove (c : list (pystr * value)) (k : pystr) : list (pystr * value) :=
  filter (fun kv => negb (str_eqb (fst kv) k)) c.

(** A hit moves the entry to the front; a miss stores the new entry and
    drops the least recently used one when the cache is full. *)
Definition cache_touch (c : list (pystr * value)) (k : pystr) (v : value) :=
  (k, v) :: cache_remove c k.

Definition cache_store (c : list (pystr * value)) (k : pystr) (v : value) :=
  firstn cache_maxsize ((k, v) :: c).

Definition _cached_parse (text : pystr) : M value :=
  fun self =>
    match cache_lookup (parse_cache self) text with
    | Some v => Ok v (set_parse_cache self (cache_touch (parse_cache self) text v))
    | None =>
        let self1 := set_index (set_json_str self text) 0 in
        match parse (parse_fuel text) self1 with
        | Ok v self2 => Ok v (set_parse_cache self2 (cache_store (parse_cache self2) text v))
        | r => r
        end
    end.

(** [_standardize_json]: the second definition in the class body, which
    replaces the first. *)
Definition _standardize_json (obj : value) : pystr := json_dumps obj.

(** ** The structural validator *)

Definition __has_array_before_object (text : pystr) : bool :=
  count (chr "{") text <? count (chr "[") text.

Definition __has_minimum_one_brace (text : pystr) : bool :=
  ((1 <=? count (chr "{") text) && (1 <=? count (chr "}") text))%bool.

(** The window [_process_chunk] hands to the strict parser. *)
Definition trim_window (rough : pystr) : pystr :=
  if __has_array_before_object rough then
    py_slice rough (find (chr "[") rough) (rfind (chr "]") rough + 1)
  else if __has_minimum_one_brace rough then
    py_slice rough (find (chr "{") rough) (rfind (chr "}") rough + 1)
  else rough.

(** Local variables of the scan loop. *)
Record Scan : Type := mkScan {
  quote_stack : list (char * nat);     (* [(quote_char, position)], top last *)
  bracket_stack : list (char * nat);   (* [(bracket_char, position)], top last *)
  key_mode : bool                      (* True when expecting a key in an object *)
}.

Definition track (c : char) (pos : nat) (self : JsonFixer) : JsonFixer :=
  _track_error [c] (Z.of_nat pos) self.

(** One iteration of [for i, char in enumerate(rough)]. *)
Definition scan_char (st : Scan * JsonFixer) (ic : nat * char) : Scan * JsonFixer :=
  let '(sc, self) := st in
  let '(i, c) := ic in
  if in_delimiters c then
    match quote_stack sc with
    | [] => (mkScan [(c, i)] (bracket_stack sc) (key_mode sc), self)
    | q :: qs =>
        let '(last_quote, last_pos) := last qs q in
        if N.eqb c last_quote
        then (mkScan (removelast (q :: qs)) (bracket_stack sc) (key_mode sc), self)
        else (sc, track last_quote last_pos (track c i self))
    end
  else if nonempty_stack (quote_stack sc) then (sc, self)
  else if char_in c "[{" then
    (mkScan (quote_stack sc) (bracket_stack sc ++ [(c, i)])
            (if is_chr c "{" then true else key_mode sc), self)
  else if char_in c "]}" then
    match bracket_stack sc with
    | [] => (sc, track c i self)
    | b :: bs =>
        let '(open_char, open_pos) := last bs b in
        let sc' := mkScan (quote_stack sc) (removelast (b :: bs)) (key_mode sc) in
        let expected := if is_chr open_char "[" then chr "]" else chr "}" in
        if negb (N.eqb c expected)
        then (sc', track open_char open_pos (track c i self))
        else (sc', self)
    end
  else if is_chr c ":" then
    (mkScan (quote_stack sc) (bracket_stack sc) false,
     if negb (key_mode sc) then track c i self else self)
  else if is_chr c "," then
    (mkScan (quote_stack sc) (bracket_stack sc) true, self)
  else (sc, self).

(** [enumerate(text)] *)
Definition enumerate (text : pystr) : list (nat * char) :=
  combine (seq 0 (List.length text)) text.

(** The two closing loops over what is still open at the end. *)
Definition report_open_quotes (n : nat) (qs : list (char * nat)) (self : JsonFixer) :=
  fold_left (fun f qp => track (fst qp) n (track (fst qp) (snd qp) f)) qs self.

Definition report_open_brackets (n : nat) (bs : list (char * nat)) (self : JsonFixer) :=
  fold_left
    (fun f bp =>
       let expected := if is_chr (fst bp) "[" then chr "]" else chr "}" in
       track expected n (track (fst bp) (snd bp) f))
    bs self.

Definition structural_scan (rough : pystr) (self : JsonFixer) : JsonFixer :=
  let '(sc, self1) := fold_left scan_char (enumerate rough) (mkScan [] [] true, self) in
  let self2 := report_open_quotes (List.length rough) (quote_stack sc) self1 in
  report_open_brackets (List.length rough) (bracket_stack sc) self2.

(** [self.result.fixed = s] *)
Definition assign_fixed (s : pystr) : M unit :=
  modify (fun self => set_result self (option_map (fun r => set_fixed r s) (result self))).

(** [return self.result] *)
Definition return_result : M JsonResults :=
  fun self =>
    match result self with
    | Some r => Ok r self
    | None => Raised (AttributeError (py "'NoneType' object has no attribute 'fixed'")) self
    end.

(** ** The repair pipeline *)

Definition _process_chunk (chunk : pystr) : M JsonResults :=
  fun self =>
    let original := chunk in
    let rough := strip chunk in
    let self0 := set_result self (Some (mkResults original rough [])) in
    let self1 := structural_scan rough self0 in
    let rough := trim_window rough in
    match json_loads rough with
    | Decoded parsed =>
        (assign_fixed (_standardize_json parsed) ;;; return_result) self1
    | LoadsError e => Raised e self1
    | DecodeError pos =>
        match nth_error rough pos with
        | None => Raised (IndexError (py "string index out of range")) self1
        | Some c =>
            (catch
               (parsed <- _cached_parse rough ;;
                match parsed with
                | VArr _ | VObj _ => assign_fixed (_standardize_json parsed)
                | _ => assign_fixed (py_str parsed)
                end)
               (fun ex =>
                  modify (fun f => _save_failure (_track_error (exn_str ex) (-1) f) rough) ;;;
                  raise (ValueError (py "Failed to parse JSON"))) ;;;
             return_result) (track c pos self1)
        end
    end.

(** ** The chunk orchestrator *)

(** [range(0, stop, step)] for a positive [step]. *)
Definition py_range (stop step : Z) : list Z :=
  map (fun k => (Z.of_nat k * step)%Z) (seq 0 (Z.to_nat ((stop + step - 1) / step))).

Definition _split_into_chunks (text : pystr) (chunk_size : Z) : list pystr :=
  map (fun i => py_slice text i (i + chunk_size)%Z)
      (py_range (Z.of_nat (List.length text)) chunk_size).

(** The module-level [_process_json_chunk]: strict parse, [{}] on a
    [JSONDecodeError]; any other exception leaves the function. *)
Definition _process_json_chunk (chunk : pystr) : exn + value :=
  match json_loads chunk with
  | Decoded v => inr v
  | DecodeError _ => inr (VObj [])
  | LoadsError e => inl e
  end.

(** [pool.map(f, xs)]: the results in the order of [xs]; when calls
    raise, the exception of one of them is raised in the caller (here
    the first in the order of [xs]; a pool of several workers raises the
    one that arrives first). *)
Fixpoint pool_map {A B : Type} (f : A -> exn + B) (xs : list A) : exn + list B :=
  match xs with
  | [] => inr []
  | x :: rest =>
      match f x with
      | inl e => inl e
      | inr y =>
          match pool_map f rest with
          | inl e => inl e
          | inr ys => inr (y :: ys)
          end
      end
  end.

(** [for chunk in parsed_chunks: merged.update(chunk)] *)
Fixpoint merge_chunks (merged : list (key * value)) (parsed_chunks : list value)
  : exn + list (key * value) :=
  match parsed_chunks with
  | [] => inr merged
  | chunk :: rest =>
      match dict_update merged chunk with
      | inl e => inl e
      | inr merged' => merge_chunks merged' rest
      end
  end.

Definition load_json (text : pystr) : M JsonResults :=
  fun self =>
    if (10000 <? Z.of_nat (List.length text))%Z then
      let chunks := _split_into_chunks text 5000%Z in
      match pool_map _process_json_chunk chunks with
      | inl e => Raised e self
      | inr parsed_chunks =>
          match merge_chunks [] parsed_chunks with
          | inl e => Raised e self
          | inr merged => Ok (mkResults text (json_dumps (VObj merged)) []) self
          end
      end
    else _process_chunk text self.

End Fixer.

Arguments Ok {L A} a self.
Arguments Raised {L A} e self.
Arguments NoFuel {L A}.

(** ** Notions the specification speaks of *)

(** *** JSON text (RFC 8259) *)

Definition is_digit (c : char) : bool := ((48 <=? c) && (c <=? 57))%N%bool.

Definition is_hex (c : char) : bool :=
  (is_digit c || (97 <=? c) && (c <=? 102) || (65 <=? c) && (c <=? 70))%N%bool.

Definition is_ws (c : char) : bool :=
  ((c =? 32) || (c =? 9) || (c =? 10) || (c =? 13))%N%bool.

Definition is_escape_letter (c : char) : bool :=
  (N.eqb c dquote || N.eqb c backslash || char_in c "/bfnrt")%bool.

(** The characters between the quotes of a string. *)
Inductive json_chars : pystr -> Prop :=
| chars_nil : json_chars []
| chars_plain c s :
    (32 <= c)%N -> (c <= 1114111)%N -> c <> dquote -> c <> backslash ->
    json_chars s -> json_chars (c :: s)
| chars_escape e s :
    is_escape_letter e = true -> json_chars s -> json_chars (backslash :: e :: s)
| chars_unicode a b c d s :
    is_hex a = true -> is_hex b = true -> is_hex c = true -> is_hex d = true ->
    json_chars s -> json_chars (backslash :: chr "u" :: a :: b :: c :: d :: s).

Definition digits (s : pystr) : Prop := s <> [] /\ forallb is_digit s = true.

Inductive json_int : pystr -> Prop :=
| int_zero : json_int [chr "0"]
| int_nonzero d ds :
    is_digit d = true -> d <> chr "0" -> forallb is_digit ds = true -> json_int (d :: ds).

Inductive json_frac : pystr -> Prop :=
| frac_none : json_frac []
| frac_some ds : digits ds -> json_frac (chr "." :: ds).

Inductive json_exp : pystr -> Prop :=
| exp_none : json_exp []
| exp_some e sign ds :
    (is_chr e "e" || is_chr e "E")%bool = true ->
    sign = [] \/ sign = [chr "+"] \/ sign = [chr "-"] ->
    digits ds -> json_exp (e :: sign ++ ds).

Inductive json_number : pystr -> Prop :=
| number_intro minus i f e :
    minus = [] \/ minus = [chr "-"] ->
    json_int i -> json_frac f -> json_exp e -> json_number (minus ++ i ++ f ++ e).

Definition whitespace (w : pystr) : Prop := forallb is_ws w = true.

Inductive json_value : pystr -> Prop :=
| value_null : json_value (py "null")
| value_true : json_value (py "true")
| value_false : json_value (py "false")
| value_number s : json_number s -> json_value s
| value_string s : json_chars s -> json_value (dquote :: s ++ [dquote])
| value_empty_array w : whitespace w -> json_value (chr "[" :: w ++ [chr "]"])
| value_array s : json_elements s -> json_value (chr "[" :: s ++ [chr "]"])
| value_empty_object w : whitespace w -> json_value (chr "{" :: w ++ [chr "}"])
| value_object s : json_members s -> json_value (chr "{" :: s ++ [chr "}"])
with json_elements : pystr -> Prop :=
| elements_one w1 v w2 :
    whitespace w1 -> json_value v -> whitespace w2 -> json_elements (w1 ++ v ++ w2)
| elements_more w1 v w2 rest :
    whitespace w1 -> json_value v -> whitespace w2 -> json_elements rest ->
    json_elements (w1 ++ v ++ w2 ++ chr "," :: rest)
with json_members : pystr -> Prop :=
| members_one w1 k w2 w3 v w4 :
    whitespace w1 -> json_chars k -> whitespace w2 ->
    whitespace w3 -> json_value v -> whitespace w4 ->
    json_members (w1 ++ dquote :: k ++ dquote :: w2 ++ chr ":" :: w3 ++ v ++ w4)
| members_more w1 k w2 w3 v w4 rest :
    whitespace w1 -> json_chars k -> whitespace w2 ->
    whitespace w3 -> json_value v -> whitespace w4 -> json_members rest ->
    json_members (w1 ++ dquote :: k ++ dquote :: w2 ++ chr ":" :: w3 ++ v ++ w4
                     ++ chr "," :: rest).

(** A syntactically valid JSON document. *)
Definition json_text (s : pystr) : Prop :=
  exists w1 v w2, whitespace w1 /\ json_value v /\ whitespace w2 /\ s = w1 ++ v ++ w2.

(** The first character of any JSON value. *)
Definition value_start (c : char) : bool :=
  (N.eqb c dquote || is_digit c || char_in c "{[-tfn")%bool.

(** *** The trimmed window, in the specification's words *)

Fixpoint first_index_from (c : char) (s : pystr) (i : nat) : option nat :=
  match s with
  | [] => None
  | x :: s' => if N.eqb x c then Some i else first_index_from c s' (S i)
  end.

(** Position of the first [c] in [s]. *)
Definition first_index (c : char) (s : pystr) : option nat := first_index_from c s 0.

Fixpoint last_index_from (c : char) (s : pystr) (i : nat) : option nat :=
  match s with
  | [] => None
  | x :: s' =>
      match last_index_from c s' (S i) with
      | Some j => Some j
      | None => if N.eqb x c then Some i else None
      end
  end.

(** Position of the last [c] in [s]. *)
Definition last_index (c : char) (s : pystr) : option nat := last_index_from c s 0.

(** The characters of [s] at the positions [i], ..., [j], both included;
    nothing when either end does not exist. *)
Definition inclusive_span (s : pystr) (first last : option nat) : pystr :=
  match first, last with
  | Some i, Some j =>
      map snd (filter (fun pc => ((i <=? fst pc) && (fst pc <=? j))%nat%bool) (enumerate s))
  | _, _ => []
  end.

Definition trimmed_window_spec (text : pystr) : pystr :=
  if (count (chr "{") text <? count (chr "[") text)%nat then
    inclusive_span text (first_index (chr "[") text) (last_index (chr "]") text)
  else if ((1 <=? count (chr "{") text) && (1 <=? count (chr "}") text))%nat%bool then
    inclusive_span text (first_index (chr "{") text) (last_index (chr "}") text)
  else text.

(** [pyq "..."] reads a backquote as a double quote, so that JSON text
    can be written in a string literal. *)
Definition pyq (s : string) : pystr :=
  map (fun c => if is_chr c "`" then dquote else c) (py s).

Section Notions.

Context {L : PyLib}.

#[local] Abbreviation value := (Value pyfloat).
#[local] Abbreviation key := (Key pyfloat).

(** No array element and no object value is [None], at any depth. *)
Fixpoint null_free (v : value) : bool :=
  match v with
  | VArr xs => forallb (fun x => negb (is_none x) && null_free x)%bool xs
  | VObj kvs => forallb (fun kv => negb (is_none (snd kv)) && null_free (snd kv))%bool kvs
  | _ => true
  end.

(** The floats a value is made of (values, not keys). *)
Fixpoint floats_of (v : value) : list pyfloat :=
  match v with
  | VFloat f => [f]
  | VArr xs => flat_map floats_of xs
  | VObj kvs => flat_map (fun kv => floats_of (snd kv)) kvs
  | _ => []
  end.

(** A float the serializer writes as a JSON number. *)
Definition json_float (f : pyfloat) : Prop :=
  float_classify f = FFinite /\ json_number (float_repr f).

Definition is_container (v : value) : bool :=
  match v with VArr _ | VObj _ => true | _ => false end.


(** The value the last pair for [k] gives. *)
Fixpoint last_binding (kvs : list (key * value)) (k : key) : option value :=
  match kvs with
  | [] => None
  | (k', v) :: rest =>
      match last_binding rest k with
      | Some v' => Some v'
      | None => if key_eqb k' k then Some v else None
      end
  end.






(** [_is_special_value]: the atom check ([value.strip().lower()] first).
    No method of the class calls it. *)
Definition _is_special_value (text : pystr) : value :=
  let text := lower (strip text) in
  if str_eqb text (py "true") then VBool true
  else if str_eqb text (py "false") then VBool false
  else if str_eqb text (py "null") then VNull
  else
    match (if (nonempty text && forallb isdigit text)%bool
           then option_map (fun z => VInt z) (int_of_str text)
           else option_map (fun f => VFloat f) (float_of_str text)) with
    | Some v => v
    | None => VNull
    end.

(** What a parsing method leaves behind when it returns [v]: the text
    untouched, the cursor not moved back, no [None] inside [v]. *)
Definition parse_post (self : JsonFixer) (v : value) (self' : JsonFixer) : Prop :=
  json_str self' = json_str self /\ index self <= index self' /\ null_free v = true.

(** The cursor stands on a character that opens a value slot: in an
    object after the key, or in an array, neither a blank nor one of the
    separators and closers the two loops handle themselves. *)
Definition at_value_slot (self : JsonFixer) : Prop :=
  match nth_error (json_str self) (index self) with
  | Some c => isspace c = false /\ char_in c ",:}]" = false
  | None => False
  end.

(** Characters from the cursor to the end of the text. *)
Definition remaining (self : JsonFixer) : nat :=
  List.length (json_str self) - index self.

(** The fixer at the start of a tolerant parse of [text]. *)
Definition at_start (self : JsonFixer) (text : pystr) : JsonFixer :=
  set_index (set_json_str self text) 0.

(** What a call returned, raised and left behind. *)
Definition fixed_of (r : res JsonResults) : option pystr :=
  match r with Ok x _ => Some (fixed x) | _ => None end.

Definition errors_of (r : res JsonResults) : option (list (pystr * list Z)) :=
  match r with Ok x _ => Some (errors x) | _ => None end.

Definition result_of (r : res JsonResults) : JsonResults :=
  match r with Ok x _ => x | _ => mkResults [] [] [] end.

Definition value_of {A} (r : res A) : option A :=
  match r with Ok x _ => Some x | _ => None end.

Definition raised_of {A} (r : res A) : option exn :=
  match r with Raised e _ => Some e | _ => None end.

(** The fixer after a call (the fixer before it, had the call not ended). *)
Definition state_of {A} (r : res A) (before : JsonFixer) : JsonFixer :=
  match r with Ok _ f | Raised _ f => f | NoFuel => before end.

End Notions.

(** ** A reference runtime for ASCII text

    Executable stand-ins for the built-ins of [PyLib].  Characters are
    classified as CPython does on ASCII (with the full whitespace table);
    a float is kept as the decimal it was read from, which is what
    [float.__repr__] prints back for literals of at most 15 significant
    digits in the normal range; [ref_loads] follows the grammar and the
    error positions of the standard decoder, and raises as it does at
    the interpreter's limits: [ValueError] for an integer literal of more
    than 4300 digits, [RecursionError] beyond 992 open containers. *)

Definition ref_isspace (c : char) : bool :=
  ((9 <=? c) && (c <=? 13) || (28 <=? c) && (c <=? 32) || (c =? 133) || (c =? 160)
   || (c =? 5760) || (8192 <=? c) && (c <=? 8202) || (c =? 8232) || (c =? 8233)
   || (c =? 8239) || (c =? 8287) || (c =? 12288))%N%bool.

Definition ref_isdigit (c : char) : bool := ((48 <=? c) && (c <=? 57))%N%bool.

Definition ref_isalpha (c : char) : bool :=
  ((65 <=? c) && (c <=? 90) || (97 <=? c) && (c <=? 122))%N%bool.

(** Digits with single underscores between them, as [int] and [float]
    accept; the value of the digits read so far is [acc]. *)
Fixpoint digits_value (s : pystr) (acc : N) (after_digit : bool) : option N :=
  match s with
  | [] => if after_digit then Some acc else None
  | c :: s' =>
      if ref_isdigit c then digits_value s' (acc * 10 + (c - 48))%N true
      else if (is_chr c "_" && after_digit)%bool then
        match s' with
        | d :: _ => if ref_isdigit d then digits_value s' acc false else None
        | [] => None
        end
      else None
  end.

Definition split_sign (s : pystr) : bool * pystr :=
  match s with
  | c :: s' => if is_chr c "-" then (true, s')
               else if is_chr c "+" then (false, s') else (false, s)
  | [] => (false, [])
  end.

(** The interpreter converts no more than 4300 digits to an [int]
    ([sys.int_info.default_max_str_digits]); beyond that [int] raises
    [ValueError]. *)
Definition int_max_str_digits : N := 4300.

Definition digit_count (s : pystr) : N := N.of_nat (List.length (filter ref_isdigit s)).

Definition ref_int (s : pystr) : option Z :=
  let '(neg, body) := split_sign (strip_with ref_isspace s) in
  if (int_max_str_digits <? digit_count body)%N then None
  else
    match digits_value body 0 false with
    | Some n => Some (if neg then (- Z.of_N n)%Z else Z.of_N n)
    | None => None
    end.

(** (-1)^neg * coef * 10^exp, with [coef] not a multiple of ten. *)
Inductive dfloat : Type :=
| DFin (neg : bool) (coef : N) (exp : Z)
| DNaN
| DInf (neg : bool).

Fixpoint normalize_fuel (fuel : nat) (coef : N) (exp : Z) : N * Z :=
  match fuel with
  | O => (coef, exp)
  | S fuel' =>
      if (coef =? 0)%N then (0%N, 0%Z)
      else if (coef mod 10 =? 0)%N then normalize_fuel fuel' (coef / 10)%N (exp + 1)%Z
      else (coef, exp)
  end.

Definition dnormal (neg : bool) (coef : N) (exp : Z) : dfloat :=
  let '(c, e) := normalize_fuel (S (N.to_nat (N.log2 coef))) coef exp in DFin neg c e.

Fixpoint split_at (p : char -> bool) (s : pystr) : pystr * option pystr :=
  match s with
  | [] => ([], None)
  | c :: s' =>
      if p c then ([], Some s')
      else let '(a, b) := split_at p s' in (c :: a, b)
  end.

Definition digits_or_empty (s : pystr) : option (N * nat) :=
  match s with
  | [] => Some (0%N, 0)
  | _ => match digits_value s 0 false with
         | Some n => Some (n, List.length (filter ref_isdigit s))
         | None => None
         end
  end.

(** The decimal forms of [float(s)]: digits, optional fraction, optional
    exponent; and the special names. *)
Definition ref_float (s : pystr) : option dfloat :=
  let '(neg, body) := split_sign (strip_with ref_isspace s) in
  let name := lower body in
  if (str_eqb name (py "inf") || str_eqb name (py "infinity"))%bool then Some (DInf neg)
  else if str_eqb name (py "nan") then Some DNaN
  else
    let '(mantissa, exponent) := split_at (fun c => (is_chr c "e" || is_chr c "E")%bool) body in
    let '(ipart, fpart) := split_at (fun c => is_chr c ".") mantissa in
    let e :=
      match exponent with
      | None => Some 0%Z
      | Some es =>
          let '(eneg, ebody) := split_sign es in
          match digits_value ebody 0 false with
          | Some n => Some (if eneg then (- Z.of_N n)%Z else Z.of_N n)
          | None => None
          end
      end in
    match ipart, fpart with
    | [], None => None
    | [], Some [] => None
    | _, _ =>
        match digits_or_empty ipart, digits_or_empty (match fpart with Some f => f | None => [] end), e with
        | Some (i, _), Some (f, flen), Some ex =>
            Some (dnormal neg (i * 10 ^ N.of_nat flen + f)%N (ex - Z.of_nat flen)%Z)
        | _, _, _ => None
        end
    end.

Definition zeros (n : nat) : pystr := repeat (chr "0") n.

(** [float.__repr__]: positional between 1e-4 and 1e16, else scientific
    with a two-digit exponent at least. *)
Definition ref_repr (x : dfloat) : pystr :=
  match x with
  | DNaN => py "nan"
  | DInf neg => if neg then py "-inf" else py "inf"
  | DFin neg coef exp =>
      let sign := if neg then [chr "-"] else [] in
      if (coef =? 0)%N then sign ++ py "0.0"
      else
        let ds := nat_digits coef in
        let n := Z.of_nat (List.length ds) in
        let decpt := (n + exp)%Z in
        if ((decpt <=? -4) || (16 <? decpt))%Z%bool then
          let e := (decpt - 1)%Z in
          let es := nat_digits (Z.to_N (Z.abs e)) in
          sign ++ firstn 1 ds
               ++ (match skipn 1 ds with [] => [] | more => chr "." :: more end)
               ++ [chr "e"; if (e <? 0)%Z then chr "-" else chr "+"]
               ++ (if (List.length es <? 2)%nat then chr "0" :: es else es)
        else if (decpt <=? 0)%Z then
          sign ++ py "0." ++ zeros (Z.to_nat (- decpt)) ++ ds
        else if (n <=? decpt)%Z then
          sign ++ ds ++ zeros (Z.to_nat (decpt - n)) ++ py ".0"
        else
          sign ++ firstn (Z.to_nat decpt) ds ++ chr "." :: skipn (Z.to_nat decpt) ds
  end.

Definition ref_is_zero (x : dfloat) : bool :=
  match x with DFin _ coef _ => (coef =? 0)%N | _ => false end.

Definition ref_classify (x : dfloat) : float_class :=
  match x with
  | DFin _ _ _ => FFinite
  | DNaN => FNaN
  | DInf false => FPosInf
  | DInf true => FNegInf
  end.

Definition ref_float_eqb (x y : dfloat) : bool :=
  match x, y with
  | DFin n1 c1 e1, DFin n2 c2 e2 =>
      ((c1 =? 0)%N && (c2 =? 0)%N
       || Bool.eqb n1 n2 && (c1 =? c2)%N && (e1 =? e2)%Z)%bool
  | DInf n1, DInf n2 => Bool.eqb n1 n2
  | _, _ => false
  end.

Definition ref_float_eq_int (x : dfloat) (z : Z) : bool :=
  match x with
  | DFin neg coef exp =>
      ((0 <=? exp)%Z
       && ((if neg then -1 else 1) * Z.of_N coef * 10 ^ exp =? z)%Z)%bool
  | _ => false
  end.

(** *** The strict decoder *)

Definition json_ws (c : char) : bool :=
  ((c =? 32) || (c =? 9) || (c =? 10) || (c =? 13))%N%bool.

(** A cursor of the decoder: the characters still to read and the index
    of the first of them. *)
Definition cursor : Type := pystr * nat.

Definition skip_ws (cur : cursor) : cursor :=
  let n := List.length (take_while json_ws (fst cur)) in
  (skipn n (fst cur), snd cur + n).

Fixpoint starts_with (p rest : pystr) : bool :=
  match p, rest with
  | [], _ => true
  | a :: p', b :: rest' => (N.eqb a b && starts_with p' rest')%bool
  | _ :: _, [] => false
  end.

Definition hex_value (c : char) : option N :=
  if ref_isdigit c then Some (c - 48)%N
  else if ((97 <=? c) && (c <=? 102))%N%bool then Some (c - 87)%N
  else if ((65 <=? c) && (c <=? 70))%N%bool then Some (c - 55)%N
  else None.

Definition hex4 (s : pystr) : option N :=
  match s with
  | a :: b :: c :: d :: _ =>
      match hex_value a, hex_value b, hex_value c, hex_value d with
      | Some x, Some y, Some z, Some w => Some (((x * 16 + y) * 16 + z) * 16 + w)%N
      | _, _, _, _ => None
      end
  | _ => None
  end.

Definition simple_escape (c : char) : option char :=
  if (N.eqb c dquote || N.eqb c backslash || is_chr c "/")%bool then Some c
  else if is_chr c "b" then Some 8%N
  else if is_chr c "f" then Some 12%N
  else if is_chr c "n" then Some 10%N
  else if is_chr c "r" then Some 13%N
  else if is_chr c "t" then Some 9%N
  else None.

(** [scanstring]: the cursor stands after the opening quote, which is at
    [begin]. *)
Fixpoint scanstring (fuel : nat) (begin : nat) (cur : cursor) (acc : pystr)
  : (pystr * cursor) + nat :=
  match fuel with
  | O => inr begin
  | S fuel' =>
      let '(rest, idx) := cur in
      match rest with
      | [] => inr begin
      | c :: rest1 =>
          if N.eqb c dquote then inl (acc, (rest1, idx + 1))
          else if (c <=? 31)%N then inr idx
          else if N.eqb c backslash then
            match rest1 with
            | [] => inr begin
            | e :: rest2 =>
                if is_chr e "u" then
                  if (List.length rest2 <=? 4)%nat then inr (idx + 1)
                  else
                    match hex4 rest2 with
                    | None => inr (idx + 1)
                    | Some hi =>
                        let rest3 := skipn 4 rest2 in
                        let low :=
                          match rest3 with
                          | b :: u :: rest4 =>
                              if (N.eqb b backslash && is_chr u "u"
                                  && (55296 <=? hi)%N && (hi <=? 56319)%N
                                  && (4 <? List.length rest4)%nat)%bool
                              then Some rest4 else None
                          | _ => None
                          end in
                        match low with
                        | Some rest4 =>
                            match hex4 rest4 with
                            | None => inr (idx + 7)
                            | Some lo =>
                                if ((56320 <=? lo) && (lo <=? 57343))%N%bool
                                then scanstring fuel' begin (skipn 4 rest4, idx + 12)
                                       (acc ++ [65536 + (hi - 55296) * 1024 + (lo - 56320)])%N
                                else scanstring fuel' begin (rest3, idx + 6) (acc ++ [hi])
                            end
                        | None => scanstring fuel' begin (rest3, idx + 6) (acc ++ [hi])
                        end
                    end
                else
                  match simple_escape e with
                  | Some x => scanstring fuel' begin (rest2, idx + 2) (acc ++ [x])
                  | None => inr idx
                  end
            end
          else scanstring fuel' begin (rest1, idx + 1) (acc ++ [c])
      end
  end.

(** The number at the cursor: its text, whether it is a float, and the
    cursor after it. *)
Definition match_number (cur : cursor) : option (pystr * bool * cursor) :=
  let '(rest, idx) := cur in
  let '(sign, r1) :=
    match rest with
    | c :: r => if is_chr c "-" then ([c], r) else ([], rest)
    | [] => ([], rest)
    end in
  let int_part :=
    match r1 with
    | c :: r =>
        if is_chr c "0" then Some [c]
        else if ref_isdigit c then Some (c :: take_while ref_isdigit r)
        else None
    | [] => None
    end in
  match int_part with
  | None => None
  | Some ip =>
      let r2 := skipn (List.length ip) r1 in
      let frac :=
        match r2 with
        | c :: d :: r =>
            if (is_chr c "." && ref_isdigit d)%bool
            then c :: d :: take_while ref_isdigit r else []
        | _ => []
        end in
      let r3 := skipn (List.length frac) r2 in
      let exp :=
        match r3 with
        | c :: r =>
            if (is_chr c "e" || is_chr c "E")%bool then
              let sg :=
                match r with
                | x :: _ :: _ => if (is_chr x "-" || is_chr x "+")%bool then [x] else []
                | _ => []
                end in
              let ds := take_while ref_isdigit (skipn (List.length sg) r) in
              match ds with
              | [] => []
              | _ => c :: sg ++ ds
              end
            else []
        | [] => []
        end in
      let text := sign ++ ip ++ frac ++ exp in
      Some (text, (nonempty frac || nonempty exp)%bool,
            (skipn (List.length text) rest, idx + List.length text))
  end.

Fixpoint ref_obj_set (d : list (Key dfloat * Value dfloat)) (k : pystr) (v : Value dfloat) :=
  match d with
  | [] => [(KStr k, v)]
  | (KStr k', v') :: rest =>
      if str_eqb k' k then (KStr k', v) :: rest else (KStr k', v') :: ref_obj_set rest k v
  | kv :: rest => kv :: ref_obj_set rest k v
  end.

Definition literal (name : string) (v : Value dfloat) (cur : cursor)
  : option (Value dfloat * cursor) :=
  if starts_with (py name) (fst cur)
  then Some (v, (skipn (String.length name) (fst cur), snd cur + String.length name))
  else None.

Definition first_some {A} (xs : list (option A)) : option A :=
  fold_right (fun x acc => match x with Some _ => x | None => acc end) None xs.

(** How the decoder gives up: with a [JSONDecodeError] at a position, or
    with an exception of another class. *)
Inductive scan_fail : Type :=
| FailAt (pos : nat)
| FailWith (e : exn).

(** The [ValueError] of an integer literal of more than 4300 digits. *)
Definition too_many_digits (n : N) : exn :=
  ValueError (py "Exceeds the limit (4300 digits) for integer string conversion: value has "
              ++ int_repr (Z.of_N n)
              ++ py " digits; use sys.set_int_max_str_digits() to increase the limit").

(** The decoder enters every object and array through the interpreter's
    recursion check.  With the default recursion limit of 1000 and
    [load_json] called from the top level of a script, 992 containers
    can be open at once; the check moves with the depth of the caller. *)
Definition nesting_limit : nat := 992.

Definition too_deep (what : pystr) : exn :=
  RecursionError (py "maximum recursion depth exceeded while decoding a JSON " ++ what
                  ++ py " from a unicode string").

Fixpoint scan_once (fuel : nat) (depth : nat) (cur : cursor) : (Value dfloat * cursor) + scan_fail :=
  match fuel with
  | O => inr (FailAt (snd cur))
  | S fuel' =>
      let '(rest, idx) := cur in
      match rest with
      | [] => inr (FailAt idx)
      | c :: rest1 =>
          if N.eqb c dquote then
            match scanstring (List.length rest) idx (rest1, idx + 1) [] with
            | inl (str, cur') => inl (VStr str, cur')
            | inr pos => inr (FailAt pos)
            end
          else if is_chr c "{" then
            if (nesting_limit <=? depth)%nat
            then inr (FailWith (too_deep (py "object")))
            else
              let cur1 := skip_ws (rest1, idx + 1) in
              match fst cur1 with
              | c1 :: r1 =>
                  if is_chr c1 "}" then inl (VObj [], (r1, snd cur1 + 1))
                  else scan_object fuel' (S depth) [] cur1
              | [] => scan_object fuel' (S depth) [] cur1
              end
          else if is_chr c "[" then
            if (nesting_limit <=? depth)%nat
            then inr (FailWith (too_deep (py "array")))
            else
              let cur1 := skip_ws (rest1, idx + 1) in
              match fst cur1 with
              | c1 :: r1 =>
                  if is_chr c1 "]" then inl (VArr [], (r1, snd cur1 + 1))
                  else scan_array fuel' (S depth) [] cur1
              | [] => scan_array fuel' (S depth) [] cur1
              end
          else
            match first_some [literal "null" VNull cur; literal "true" (VBool true) cur;
                              literal "false" (VBool false) cur; literal "NaN" (VFloat DNaN) cur;
                              literal "Infinity" (VFloat (DInf false)) cur;
                              literal "-Infinity" (VFloat (DInf true)) cur] with
            | Some r => inl r
            | None =>
                match match_number cur with
                | None => inr (FailAt idx)
                | Some (text, is_float, cur') =>
                    if is_float then
                      match ref_float text with
                      | Some f => inl (VFloat f, cur')
                      | None => inr (FailAt idx)
                      end
                    else if (int_max_str_digits <? digit_count text)%N
                    then inr (FailWith (too_many_digits (digit_count text)))
                    else
                      match ref_int text with
                      | Some z => inl (VInt z, cur')
                      | None => inr (FailAt idx)
                      end
                end
            end
      end
  end
with scan_object (fuel : nat) (depth : nat) (pairs : list (Key dfloat * Value dfloat))
       (cur : cursor)
  : (Value dfloat * cursor) + scan_fail :=
  match fuel with
  | O => inr (FailAt (snd cur))
  | S fuel' =>
      let '(rest, idx) := cur in
      match rest with
      | [] => inr (FailAt idx)
      | c :: rest1 =>
          if negb (N.eqb c dquote) then inr (FailAt idx)
          else
            match scanstring (List.length rest) idx (rest1, idx + 1) [] with
            | inr pos => inr (FailAt pos)
            | inl (k, cur1) =>
                let cur2 := skip_ws cur1 in
                match fst cur2 with
                | c2 :: r2 =>
                    if negb (is_chr c2 ":") then inr (FailAt (snd cur2))
                    else
                      match scan_once fuel' depth (skip_ws (r2, snd cur2 + 1)) with
                      | inr fail => inr fail
                      | inl (v, cur3) =>
                          let pairs' := ref_obj_set pairs k v in
                          let cur4 := skip_ws cur3 in
                          match fst cur4 with
                          | c4 :: r4 =>
                              if is_chr c4 "}" then inl (VObj pairs', (r4, snd cur4 + 1))
                              else if is_chr c4 "," then
                                scan_object fuel' depth pairs' (skip_ws (r4, snd cur4 + 1))
                              else inr (FailAt (snd cur4))
                          | [] => inr (FailAt (snd cur4))
                          end
                      end
                | [] => inr (FailAt (snd cur2))
                end
            end
      end
  end
with scan_array (fuel : nat) (depth : nat) (values : list (Value dfloat)) (cur : cursor)
  : (Value dfloat * cursor) + scan_fail :=
  match fuel with
  | O => inr (FailAt (snd cur))
  | S fuel' =>
      match scan_once fuel' depth cur with
      | inr fail => inr fail
      | inl (v, cur1) =>
          let values' := values ++ [v] in
          let cur2 := skip_ws cur1 in
          match fst cur2 with
          | c2 :: r2 =>
              if is_chr c2 "]" then inl (VArr values', (r2, snd cur2 + 1))
              else if is_chr c2 "," then scan_array fuel' depth values' (skip_ws (r2, snd cur2 + 1))
              else inr (FailAt (snd cur2))
          | [] => inr (FailAt (snd cur2))
          end
      end
  end.

(** [json.loads]: one value between optional whitespace, then the end. *)
Definition ref_loads (s : pystr) : Loads dfloat :=
  match scan_once (2 * List.length s + 2) 0 (skip_ws (s, 0)) with
  | inr (FailAt pos) => DecodeError pos
  | inr (FailWith e) => LoadsError e
  | inl (v, cur) =>
      let cur' := skip_ws cur in
      match fst cur' with
      | [] => Decoded v
      | _ => DecodeError (snd cur')
      end
  end.

#[export] Instance ref_lib : PyLib := {|
  pyfloat := dfloat;
  isspace := ref_isspace;
  isalpha := ref_isalpha;
  isdigit := ref_isdigit;
  int_of_str := ref_int;
  float_of_str := ref_float;
  float_repr := ref_repr;
  float_is_zero := ref_is_zero;
  float_classify := ref_classify;
  float_eqb := ref_float_eqb;
  float_eq_int := ref_float_eq_int;
  json_loads := ref_loads
|}.

(** [s] followed by blanks up to [n] characters. *)
Definition pad_to (n : N) (s : pystr) : pystr :=
  s ++ repeat (chr " ") (N.to_nat n - List.length s).

(** A fresh fixer of the reference runtime. *)
Definition fresh : JsonFixer := new_fixer false.

(** ** The remaining methods, and notions to speak of them *)

(** [errors.get(c)] *)
Fixpoint errors_get (errs : list (pystr * list Z)) (c : pystr) : option (list Z) :=
  match errs with
  | [] => None
  | (k, ps) :: rest => if str_eqb k c then Some ps else errors_get rest c
  end.

(** [errors[c] = ps] *)
Fixpoint errors_set (errs : list (pystr * list Z)) (c : pystr) (ps : list Z)
  : list (pystr * list Z) :=
  match errs with
  | [] => [(c, ps)]
  | (k, old) :: rest =>
      if str_eqb k c then (k, ps) :: rest else (k, old) :: errors_set rest c ps
  end.

(** [errors.update(other)] *)
Definition errors_update (errs other : list (pystr * list Z)) : list (pystr * list Z) :=
  fold_left (fun acc kv => errors_set acc (fst kv) (snd kv)) other errs.

(** [JsonFixer._merge_results] *)
Definition _merge_results (results : list JsonResults) : JsonResults :=
  let merged := mkResults [] [] [] in
  let merged := set_fixed merged (List.concat (map fixed results)) in
  fold_left
    (fun m r => mkResults (original m) (fixed m) (errors_update (errors m) (errors r)))
    results merged.

(** The positions the last pair for [c] gives. *)
Fixpoint last_positions (pairs : list (pystr * list Z)) (c : pystr) : option (list Z) :=
  match pairs with
  | [] => None
  | (k, ps) :: rest =>
      match last_positions rest c with
      | Some ps' => Some ps'
      | None => if str_eqb k c then Some ps else None
      end
  end.

(** Membership in the list of the double and the single quote that
    [_remove_duplicate_quotes] tests. *)
Definition is_plain_quote (c : char) : bool := (N.eqb c dquote || N.eqb c squote)%bool.

(** The [for] loop of [_remove_duplicate_quotes]; [prev_char] starts as
    the empty string, which equals no character. *)
Fixpoint dedup_loop (s : pystr) (result : pystr) (prev_char : option char) : pystr :=
  match s with
  | [] => result
  | c :: s' =>
      if (is_plain_quote c
          && match prev_char with Some p => N.eqb p c | None => false end)%bool
      then dedup_loop s' result prev_char
      else dedup_loop s' (result ++ [c]) (Some c)
  end.

(** Two neighbours that are the same quote. *)
Fixpoint has_doubled_quote (s : pystr) : bool :=
  match s with
  | a :: ((b :: _) as rest) => (is_plain_quote a && N.eqb a b || has_doubled_quote rest)%bool
  | _ => false
  end.

(** What is left of a text without its plain quotes. *)
Definition without_quotes (s : pystr) : pystr := filter (fun c => negb (is_plain_quote c)) s.

(** What a text ends with. *)
Definition last_char (s : pystr) : option char :=
  match rev s with c :: _ => Some c | [] => None end.

(** An entry of an error map made of one character and of positions
    between 0 and [n]. *)
Definition error_entry_ok (n : Z) (kv : pystr * list Z) : Prop :=
  List.length (fst kv) = 1 /\ Forall (fun p => (0 <= p <= n)%Z) (snd kv).

(** What the quote and bracket stacks hold before the character at [i]
    is scanned: at most one quote; delimiters and openers only, each at
    an earlier position. *)
Definition scan_inv (i : nat) (sc : Scan) : Prop :=
  List.length (quote_stack sc) <= 1
  /\ Forall (fun qp => in_delimiters (fst qp) = true /\ snd qp < i) (quote_stack sc)
  /\ Forall (fun bp => char_in (fst bp) "[{" = true /\ snd bp < i) (bracket_stack sc).

Section MoreNotions.

Context {L : PyLib}.

#[local] Abbreviation value := (Value pyfloat).
#[local] Abbreviation key := (Key pyfloat).

(** [_remove_duplicate_quotes]: the value returned ([None] stands for
    Python's [None]) and the lines printed. *)
Definition _remove_duplicate_quotes : M (option pystr * list pystr) :=
  fun self =>
    match result self with
    | None => Raised (AttributeError (py "'NoneType' object has no attribute 'fixed'")) self
    | Some r =>
        let s := fixed r in
        match s with
        | [] => Ok (Some s, []) self
        | _ =>
            let result := dedup_loop s [] None in
            Ok (None, [result]) (set_result self (Some (set_fixed r result)))
        end
    end.

(** An error map with single-character keys and positions between 0
    and [n]. *)
Definition entries_ok (n : Z) (r : JsonResults) : Prop :=
  Forall (error_entry_ok n) (errors r).

(** The fixer holds a result for [text] whose fixed text is [rough], with
    such an error map. *)
Definition tracked (n : Z) (text rough : pystr) (self : JsonFixer) : Prop :=
  exists r, result self = Some r /\ original r = text /\ fixed r = rough
            /\ entries_ok n r.

(** A key the object loop can store: a string without [:] and [;], or a
    numeric zero. *)
Definition key_ok (k : key) : bool :=
  match k with
  | KStr s => (negb (existsb (N.eqb (chr ":")) s) && negb (existsb (N.eqb (chr ";")) s))%bool
  | KInt z => Z.eqb z 0
  | KFloat f => float_is_zero f
  | _ => false
  end.

Fixpoint clean_keys (v : value) : bool :=
  match v with
  | VArr xs => forallb clean_keys xs
  | VObj kvs => forallb (fun kv => key_ok (fst kv) && clean_keys (snd kv))%bool kvs
  | _ => true
  end.

(** A character [parse] steps over: a blank, or one that opens no value. *)
Definition skippable (c : char) : bool :=
  (isspace c
   || negb (is_chr c "{" || is_chr c "[" || in_delimiters c || isalpha c
            || isdigit c || char_in c ".-"))%bool.

(** Two fixers read the same text at the same place. *)
Definition same_cursor (a b : JsonFixer) : Prop :=
  json_str a = json_str b /\ index a = index b.

(** Two outcomes of the same kind, with the same value or exception, that
    leave fixers related by [R]. *)
Definition related {A} (R : JsonFixer -> JsonFixer -> Prop) (r1 r2 : res A) : Prop :=
  match r1, r2 with
  | Ok v1 s1, Ok v2 s2 => v1 = v2 /\ R s1 s2
  | Raised e1 s1, Raised e2 s2 => e1 = e2 /\ R s1 s2
  | NoFuel, NoFuel => True
  | _, _ => False
  end.

(** The same outcome, with the cursor left at the same place. *)
Definition agree {A} (r1 r2 : res A) : Prop := related same_cursor r1 r2.

(** What holds of the fixer a call leaves behind. *)
Definition leaves {A} (P : JsonFixer -> Prop) (r : res A) : Prop :=
  match r with
  | Ok _ s | Raised _ s => P s
  | NoFuel => True
  end.

(** Every cached entry is what the tolerant parse of its text returns. *)
Definition cache_consistent (self : JsonFixer) : Prop :=
  forall t v, In (t, v) (parse_cache self) ->
  forall s : JsonFixer, value_of (parse (parse_fuel t) (at_start s t)) = Some v.

(** The text [_process_chunk] assigns to [fixed] for a value of the
    tolerant parser. *)
Definition repaired_text (v : value) : pystr :=
  match v with
  | VArr _ | VObj _ => _standardize_json v
  | _ => py_str v
  end.

(** A character of a bare token: no backslash, none of the separators
    [,:]}], no blank; and a character that ends one. *)
Definition token_char (c : char) : bool :=
  (negb (N.eqb c backslash) && negb (char_in c ",:]}") && negb (isspace c))%bool.

Definition token_stop (c : char) : bool :=
  (negb (N.eqb c backslash) && (char_in c ",:]}" || isspace c))%bool.

(** A blank before a bare token. *)
Definition token_blank (c : char) : bool :=
  (isspace c && negb (N.eqb c backslash) && negb (char_in c ",:]}"))%bool.

(** A text holds a dot or an exponent letter. *)
Definition has_float_mark (s : pystr) : bool :=
  existsb (fun c => (is_chr c "." || is_chr c "e" || is_chr c "E")%bool) s.

(** How many objects and arrays a text opens at most.  The tolerant
    parser takes two frames of the interpreter's stack for each one it
    enters, out of 1000 by default; [parse] itself is modelled without
    that bound, so a statement about what it returns for a whole text is
    made for texts that open no more than [shallow] brackets. *)
Definition brackets_opened (s : pystr) : nat := count (chr "[") s + count (chr "{") s.

Definition shallow : nat := 400.

(** The values [dict.update] cannot iterate over. *)
Definition not_iterable (v : value) : bool :=
  match v with
  | VNull | VBool _ | VInt _ | VFloat _ => true
  | _ => false
  end.

(** What only [set_index] and [_track_error] change is left alone. *)
Definition same_frame (a b : JsonFixer) : Prop :=
  json_str a = json_str b /\ logging a = logging b
  /\ parse_cache a = parse_cache b /\ failed_json a = failed_json b.

End MoreNotions.

(** * Properties *)

Unset Implicit Arguments.

(** ** Text primitives *)

Lemma find_from_first_index c s n :
  find_from c s (Z.of_nat n) =
  match first_index_from c s n with Some j => Z.of_nat j | None => (-1)%Z end.
Proof.
  revert n; induction s as [|x s IH]; intros n; simpl; [reflexivity|].
  destruct (N.eqb x c); [reflexivity|].
  replace (Z.of_nat n + 1)%Z with (Z.of_nat (S n)) by lia. apply IH.
Qed.

Lemma rfind_from_last_index c s n last :
  rfind_from c s (Z.of_nat n) last =
  match last_index_from c s n with Some j => Z.of_nat j | None => last end.
Proof.
  revert n last; induction s as [|x s IH]; intros n last; simpl; [reflexivity|].
  replace (Z.of_nat n + 1)%Z with (Z.of_nat (S n)) by lia. rewrite IH.
  destruct (last_index_from c s (S n)); [reflexivity|].
  destruct (N.eqb x c); reflexivity.
Qed.

Lemma first_index_from_range c s n j :
  first_index_from c s n = Some j -> n <= j < n + List.length s.
Proof.
  revert n; induction s as [|x s IH]; intros n; simpl; [discriminate|].
  destruct (N.eqb x c).
  - intros [= <-]; lia.
  - intros H; apply IH in H; lia.
Qed.

Lemma last_index_from_range c s n j :
  last_index_from c s n = Some j -> n <= j < n + List.length s.
Proof.
  revert n; induction s as [|x s IH]; intros n; simpl; [discriminate|].
  destruct (last_index_from c s (S n)) as [k|] eqn:E.
  - intros [= <-]; apply IH in E; lia.
  - destruct (N.eqb x c); [intros [= <-]; lia | discriminate].
Qed.

Lemma count_pos_first_index c s n :
  0 < count c s -> first_index_from c s n <> None.
Proof.
  unfold count; revert n; induction s as [|x s IH]; intros n; simpl; [lia|].
  rewrite (N.eqb_sym c x). destruct (N.eqb x c); simpl; [discriminate|].
  apply IH.
Qed.

(** Slicing between in-range bounds is [skipn] after [firstn]. *)
Lemma py_slice_in_range s (i j : nat) :
  i <= List.length s -> j <= List.length s ->
  py_slice s (Z.of_nat i) (Z.of_nat j) = skipn i (firstn j s).
Proof.
  intros Hi Hj; unfold py_slice, clamp_index.
  destruct (Z.ltb_spec (Z.of_nat i) 0); [lia|].
  destruct (Z.ltb_spec (Z.of_nat j) 0); [lia|].
  rewrite !Z.min_l by lia. rewrite !Nat2Z.id. reflexivity.
Qed.

Lemma span_filter (s : pystr) off i j :
  map snd (filter (fun pc : nat * char => ((i <=? fst pc) && (fst pc <=? j))%nat%bool)
                  (combine (seq off (List.length s)) s))
  = skipn (i - off) (firstn (S j - off) s).
Proof.
  revert off; induction s as [|x s IH]; intros off.
  - simpl. rewrite firstn_nil, skipn_nil. reflexivity.
  - cbn [List.length seq combine filter fst].
    destruct (Nat.leb_spec i off) as [Hi|Hi];
      destruct (Nat.leb_spec off j) as [Hj|Hj]; cbn [andb map snd]; rewrite IH.
    + replace (S j - off) with (S (S j - S off)) by lia.
      replace (i - off) with 0 by lia. replace (i - S off) with 0 by lia.
      reflexivity.
    + replace (S j - off) with 0 by lia. replace (S j - S off) with 0 by lia.
      simpl. rewrite skipn_nil. destruct (i - off); reflexivity.
    + replace (S j - off) with (S (S j - S off)) by lia.
      replace (i - off) with (S (i - S off)) by lia. reflexivity.
    + replace (S j - off) with 0 by lia. replace (S j - S off) with 0 by lia.
      simpl. rewrite !skipn_nil. reflexivity.
Qed.

Lemma trim_branch (s : pystr) (a b : char) :
  0 < count a s ->
  py_slice s (find a s) (rfind b s + 1)
  = inclusive_span s (first_index a s) (last_index b s).
Proof.
  intros Ha. unfold find, rfind, first_index, last_index.
  change (find_from a s 0) with (find_from a s (Z.of_nat 0)).
  change (rfind_from b s 0 (-1)) with (rfind_from b s (Z.of_nat 0) (-1)).
  rewrite find_from_first_index, rfind_from_last_index.
  destruct (first_index_from a s 0) as [i|] eqn:Ei;
    [|exfalso; revert Ei; apply count_pos_first_index; exact Ha].
  apply first_index_from_range in Ei.
  destruct (last_index_from b s 0) as [j|] eqn:Ej.
  - apply last_index_from_range in Ej.
    replace (Z.of_nat j + 1)%Z with (Z.of_nat (S j)) by lia.
    rewrite py_slice_in_range by lia.
    unfold inclusive_span, enumerate. rewrite span_filter.
    rewrite !Nat.sub_0_r. reflexivity.
  - change (-1 + 1)%Z with (Z.of_nat 0).
    rewrite py_slice_in_range by lia. simpl. apply skipn_nil.
Qed.

(** C8.  The window handed to the strict parser is the inclusive span from
    the first [[] to the last []] when the text has strictly more [[] than
    [{]; otherwise the inclusive span from the first [{] to the last [}]
    when it has at least one of each; otherwise the text itself. *)
Theorem trim_window_meets_spec (text : pystr) :
  trim_window text = trimmed_window_spec text.
Proof.
  unfold trim_window, trimmed_window_spec,
    __has_array_before_object, __has_minimum_one_brace.
  destruct (Nat.ltb_spec (count (chr "{") text) (count (chr "[") text)) as [H|H].
  - apply trim_branch; lia.
  - destruct (Nat.leb_spec 1 (count (chr "{") text)) as [H1|H1]; cbn [andb];
      [|reflexivity].
    destruct (Nat.leb_spec 1 (count (chr "}") text)); [|reflexivity].
    apply trim_branch; lia.
Qed.

(** ** The error tracker and the structural scan *)

Section ScanFacts.

Context {L : PyLib}.

Lemma track_error_result (c : pystr) (pos : Z) (self : JsonFixer) (r : JsonResults) :
  result self = Some r ->
  result (_track_error c pos self) = Some (add_error r c pos).
Proof.
  intros H. unfold _track_error. rewrite H.
  destruct (logging self); reflexivity.
Qed.

Lemma errors_add_positions errs c i :
  positions (errors_add errs c i) = S (positions errs).
Proof.
  induction errs as [|[k ps] rest IH]; simpl; [reflexivity|].
  destruct (str_eqb k c); simpl.
  - rewrite length_app. simpl. lia.
  - rewrite IH. lia.
Qed.

Lemma add_error_changes (r : JsonResults) c i : add_error r c i <> r.
Proof.
  intros H. apply (f_equal (fun x => positions (errors x))) in H.
  simpl in H. rewrite errors_add_positions in H. lia.
Qed.

(** C9, as the code has it.  At a [:] outside quotes an error is recorded
    exactly when the expecting-key flag is false, and the flag is false
    afterwards in either case. *)
Theorem colon_recorded_iff_not_expecting_key
  (sc : Scan) (self : JsonFixer) (i : nat) (r : JsonResults) :
  quote_stack sc = [] ->
  result self = Some r ->
  let st' := scan_char (sc, self) (i, chr ":") in
  key_mode (fst st') = false
  /\ result (snd st')
     = Some (if key_mode sc then r else add_error r [chr ":"] (Z.of_nat i))
  /\ (result (snd st') <> result self <-> key_mode sc = false).
Proof.
  intros Hq Hr. unfold scan_char.
  change (in_delimiters (chr ":")) with false. rewrite Hq.
  change (nonempty_stack []) with false.
  change (char_in (chr ":") "[{") with false.
  change (char_in (chr ":") "]}") with false.
  change (is_chr (chr ":") ":") with true.
  cbn [fst snd key_mode].
  destruct (key_mode sc); cbn [negb].
  - rewrite Hr. repeat split; try congruence.
  - unfold track. rewrite (track_error_result _ _ _ _ Hr), Hr.
    repeat split; try reflexivity.
    intros _ [= H]. exact (add_error_changes _ _ _ H).
Qed.

End ScanFacts.

Lemma colon_recorded_iff_not_expecting_key_witness :
  let self := set_result fresh (Some (mkResults (py "a::") (py "a::") [])) in
  let sc := mkScan [] [] false in
  let st' := scan_char (sc, self) (2, chr ":") in
  key_mode (fst st') = false
  /\ result (snd st')
     = Some (add_error (mkResults (py "a::") (py "a::") []) [chr ":"] 2%Z)
  /\ (result (snd st') <> result self <-> key_mode sc = false).
Proof.
  exact (@colon_recorded_iff_not_expecting_key ref_lib (mkScan [] [] false)
           (set_result fresh (Some (mkResults (py "a::") (py "a::") [])))
           2 (mkResults (py "a::") (py "a::") []) eq_refl eq_refl).
Defined.

(** The scan of a [:] met while a key is expected records nothing, so
    "recorded exactly when the expecting-key flag is true" fails. *)
Lemma colon_while_expecting_key_not_recorded :
  ~ (forall (sc : Scan) (self : @JsonFixer ref_lib) (i : nat),
        quote_stack sc = [] -> result self <> None ->
        (result (snd (scan_char (sc, self) (i, chr ":"))) <> result self
         <-> key_mode sc = true)).
Proof.
  intros H.
  specialize (H (mkScan [] [] true)
                (set_result fresh (Some (mkResults (py ":") (py ":") []))) 0
                eq_refl ltac:(discriminate)).
  destruct H as [_ H]. apply (H eq_refl). reflexivity.
Qed.

(** ** Runs on the reference runtime *)

(** The repairs the repository's tests expect. *)
Example repairs_of_the_test_suite :
  map (fun t => fixed_of (load_json (pyq t) fresh))
    ["{direction: `left`}"; "{`direction`: left}";
     "{`direction`: `left`,,`speed`: 50,}"; "{`direction`: `left` `speed`: 50}";
     "{'direction': `left`}"; "{`speed`: 50.5}"; "{`active`: true}";
     "{`data`: {nested: `value`}}"; "{`items`: [1, test, `three`]}";
     "{one: 1, two: two}"; "[1,2,3]"; "[test, 2, three]"; "[[1,2],[3,4]]";
     "[1, 2, 3]"; "{`num`: 123}"; "{`num`: 123.45}"; "{`num`: -123}";
     "{`num`: 1e-10}"]%string
  = map (fun t => Some (pyq t))
    ["{`direction`:`left`}"; "{`direction`:`left`}";
     "{`direction`:`left`,`speed`:50}"; "{`direction`:`left`,`speed`:50}";
     "{`direction`:`left`}"; "{`speed`:50.5}"; "{`active`:true}";
     "{`data`:{`nested`:`value`}}"; "{`items`:[1,`test`,`three`]}";
     "{`one`:1,`two`:`two`}"; "[1,2,3]"; "[`test`,2,`three`]"; "[[1,2],[3,4]]";
     "[1,2,3]"; "{`num`:123}"; "{`num`:123.45}"; "{`num`:-123}";
     "{`num`:1e-10}"]%string.
Proof. vm_compute. reflexivity. Qed.

(** Where the strict decoder stops on texts used below. *)
Example strict_decoder_positions :
  map (fun t => ref_loads (pyq t))
      [""; "hello"; "{`a`:"; "{`a`: `b"; "[1,2],`b`:[3]"; "{1: 2}"; "[true, NULL]";
       " [1, 2.5e3, `xA`, null] "]%string
  = [DecodeError 0; DecodeError 0; DecodeError 5; DecodeError 6; DecodeError 5;
     DecodeError 1; DecodeError 7;
     Decoded (VArr [VInt 1; VFloat (DFin false 25 2); VStr (py "xA"); VNull])].
Proof. vm_compute. reflexivity. Qed.

(** Where the interpreter's limits make the strict decoder raise: an
    integer literal of 4301 digits, and the 993rd container opened. *)
Example strict_decoder_limits :
  (exists z, ref_loads (py "[" ++ repeat (chr "7") 4300 ++ py "]") = Decoded (VArr [VInt z]))
  /\ ref_loads (py "[" ++ repeat (chr "7") 4301 ++ py "]") = LoadsError (too_many_digits 4301)
  /\ ref_loads (py "[x, " ++ repeat (chr "7") 4301 ++ py "]") = DecodeError 1
  /\ ref_int (repeat (chr "7") 4301) = None
  /\ ref_loads (repeat (chr "[") 992 ++ repeat (chr "]") 992) <> LoadsError (too_deep (py "array"))
  /\ ref_loads (repeat (chr "[") 993 ++ repeat (chr "]") 993) = LoadsError (too_deep (py "array"))
  /\ ref_loads (repeat (chr "[") 993) = LoadsError (too_deep (py "array")).
Proof.
  split; [eexists; vm_compute; reflexivity|].
  split; [vm_compute; reflexivity|].
  split; [vm_compute; reflexivity|].
  split; [vm_compute; reflexivity|].
  split; [vm_compute; discriminate|].
  split; vm_compute; reflexivity.
Qed.

(** [repr(float(s))] on a few literals. *)
Example float_repr_samples :
  map (fun t => option_map ref_repr (ref_float (py t)))
      ["50.5"; "1e-10"; "1e16"; "1e15"; "0.0001"; "0.00001"; "-0.0"; "1_0.50"; "1.5e300";
       "abc"; "."]%string
  = map (option_map py)
      [Some "50.5"; Some "1e-10"; Some "1e+16"; Some "1000000000000000.0"; Some "0.0001";
       Some "1e-05"; Some "-0.0"; Some "10.5"; Some "1.5e+300"; None; None]%string.
Proof. vm_compute. reflexivity. Qed.

(** C5.  The atom check exists and knows [true], but the parser never
    consults it: bare [true], [False] and [null] in value positions come
    back as the strings they spell, in objects and in arrays. *)
Theorem bare_atoms_stay_strings :
  _is_special_value (py "true") = VBool true
  /\ fixed_of (load_json (py "{active: true, ok: False, none: null}") fresh)
     = Some (pyq "{`active`:`true`,`ok`:`False`,`none`:`null`}")
  /\ (let text := py "[true, NULL]" in
      value_of (parse (parse_fuel text) (at_start fresh text))
      = Some (VArr [VStr (py "true"); VStr (py "NULL")])).
Proof.
  split; [reflexivity|]. split; vm_compute; reflexivity.
Qed.

(** C3.  On [{1: 2}] the unquoted key reads as the integer 1, which
    [_cleanup_string] then treats as a string: [parse] and [parse_object]
    raise [AttributeError] instead of returning a value. *)
Theorem numeric_key_raises :
  let text := py "{1: 2}" in
  let oops := AttributeError (py "'int' object has no attribute 'strip'") in
  raised_of (parse (parse_fuel text) (at_start fresh text)) = Some oops
  /\ raised_of (parse_object (parse_fuel text) (set_index (at_start fresh text) 1))
     = Some oops.
Proof.
  split; vm_compute; reflexivity.
Qed.

(** C4.  The strict parser rejects the truncated text [{`a`:] at its end,
    position 5; reading the character there raises [IndexError] out of
    [_process_chunk]: nothing is recorded for the position, the tolerant
    parser is not called and no failure is persisted. *)
Theorem strict_failure_at_end_escapes :
  let text := pyq "{`a`:" in
  let outcome := _process_chunk text fresh in
  json_loads (trim_window (strip text)) = DecodeError 5
  /\ raised_of outcome = Some (IndexError (py "string index out of range"))
  /\ option_map errors (result (state_of outcome fresh))
     = Some [([chr "{"], [0%Z]); ([chr "}"], [5%Z])]
  /\ parse_cache (state_of outcome fresh) = []
  /\ failed_json (state_of outcome fresh) = None.
Proof.
  repeat split; vm_compute; reflexivity.
Qed.

(** C10.  Two successive calls on [{`a`: `b] with one fixer: the first
    runs the parser, whose [parse_string] records the unmatched quote at
    position 6; the second is answered by the cache and lacks that record.
    The repaired text is the same, the error maps are not. *)
Theorem repeated_call_drops_parser_errors :
  let text := pyq "{`a`: `b" in
  let first := load_json text fresh in
  let second := load_json text (state_of first fresh) in
  fixed_of first = Some (pyq "{`a`:`b`}")
  /\ fixed_of second = Some (pyq "{`a`:`b`}")
  /\ errors_of first
     = Some [([dquote], [6; 8; 6; 6]%Z); ([chr "{"], [0%Z]); ([chr "}"], [8%Z])]
  /\ errors_of second
     = Some [([dquote], [6; 8; 6]%Z); ([chr "{"], [0%Z]); ([chr "}"], [8%Z])]
  /\ errors_of first <> errors_of second.
Proof.
  repeat split; try (vm_compute; reflexivity).
  vm_compute. discriminate.
Qed.

(** ** The tolerant parser: cursor, results, termination *)

Section ParserFacts.

Context {L : PyLib}.

#[local] Abbreviation value := (Value pyfloat).
#[local] Abbreviation key := (Key pyfloat).

Lemma track_error_json_str c pos (self : JsonFixer) :
  json_str (_track_error c pos self) = json_str self.
Proof.
  unfold _track_error. destruct (result self); [|reflexivity].
  destruct (logging self); reflexivity.
Qed.

Lemma track_error_index c pos (self : JsonFixer) :
  index (_track_error c pos self) = index self.
Proof.
  unfold _track_error. destruct (result self); [|reflexivity].
  destruct (logging self); reflexivity.
Qed.

Lemma nth_error_skipn (s : pystr) i c :
  nth_error s i = Some c -> skipn i s = c :: skipn (S i) s.
Proof.
  revert i; induction s as [|x s IH]; intros [|i]; simpl; try discriminate.
  - intros [= ->]. reflexivity.
  - apply IH.
Qed.

Lemma nth_error_in_range (s : pystr) i c :
  nth_error s i = Some c -> i < List.length s.
Proof. intros H. apply nth_error_Some. congruence. Qed.

Lemma string_loop_range is_quoted quote rest i escaped acc :
  i <= snd (fst (string_loop is_quoted quote rest i escaped acc))
    <= i + List.length rest.
Proof.
  revert i escaped acc; induction rest as [|c rest IH]; intros i escaped acc;
    cbn [string_loop List.length fst snd]; [lia|].
  repeat match goal with
         | |- context [if ?b then _ else _] => destruct b
         end; cbn [fst snd];
    try lia;
    match goal with
    | |- context [string_loop _ _ rest ?j ?e ?a] => specialize (IH j e a); lia
    end.
Qed.

Lemma string_loop_progress quote c rest i :
  char_in c ",:]}" = false ->
  i < snd (fst (string_loop false quote (c :: rest) i false [])).
Proof.
  intros Hc. cbn [string_loop]. rewrite Hc. cbn [negb andb].
  change (nonempty (strip [])) with false. rewrite andb_false_r.
  destruct (N.eqb c backslash);
    match goal with
    | |- context [string_loop _ _ rest ?j ?e ?a] =>
        pose proof (string_loop_range false quote rest j e a); lia
    end.
Qed.

(** [parse_string] always returns: a string, an [int] or a [float]. *)
Lemma parse_string_ok (self : JsonFixer) :
  exists v self',
    parse_string self = Ok v self'
    /\ json_str self' = json_str self
    /\ index self <= index self'
    /\ is_container v = false /\ is_none v = false.
Proof.
  unfold parse_string.
  destruct (nth_error (json_str self) (index self)) as [c0|] eqn:E0.
  2:{ do 2 eexists. repeat split. lia. }
  set (first := if in_delimiters c0 then index self + 1 else index self).
  pose proof (string_loop_range (in_delimiters c0) c0
                (skipn first (json_str self)) first false []) as Hr.
  destruct (string_loop (in_delimiters c0) c0 (skipn first (json_str self)) first false [])
    as [[string stop] found_end].
  cbn [fst snd] in Hr.
  assert (Hfirst : index self <= first)
    by (subst first; destruct (in_delimiters c0); lia).
  set (self2 := if (in_delimiters c0 && negb found_end)%bool
                then _track_error [c0] (Z.of_nat (index self)) (set_index self stop)
                else set_index self stop).
  assert (Hs : json_str self2 = json_str self /\ index self2 = stop).
  { subst self2. destruct (in_delimiters c0 && negb found_end)%bool.
    - rewrite track_error_json_str, track_error_index. split; reflexivity.
    - split; reflexivity. }
  destruct Hs as [Hj Hi].
  match goal with
  | |- context [match ?n with Some _ => _ | None => _ end] => destruct n as [v|] eqn:En
  end.
  - exists v, self2. repeat split; try assumption; try lia.
    + destruct (in_delimiters c0); [discriminate|].
      destruct (existsb _ _);
        [destruct (float_of_str _) | destruct (int_of_str _)];
        simpl in En; inversion En; reflexivity.
    + destruct (in_delimiters c0); [discriminate|].
      destruct (existsb _ _);
        [destruct (float_of_str _) | destruct (int_of_str _)];
        simpl in En; inversion En; reflexivity.
  - unfold _cleanup_string. destruct (strip string) as [|x xs]; cbn [truthy negb].
    + exists (VStr []), self2. repeat split; try assumption; lia.
    + eexists _, self2. split; [reflexivity|]. repeat split; try assumption; lia.
Qed.

Lemma parse_string_progress (self : JsonFixer) c v self' :
  nth_error (json_str self) (index self) = Some c ->
  in_delimiters c = true \/ char_in c ",:]}" = false ->
  parse_string self = Ok v self' ->
  index self < index self'.
Proof.
  intros E0 Hc. unfold parse_string. rewrite E0.
  assert (Hstop : index self <
            snd (fst (string_loop (in_delimiters c) c
              (skipn (if in_delimiters c then index self + 1 else index self) (json_str self))
              (if in_delimiters c then index self + 1 else index self) false []))).
  { destruct (in_delimiters c) eqn:Ed.
    - match goal with
      | |- context [string_loop ?q ?c ?r ?j ?e ?a] =>
          pose proof (string_loop_range q c r j e a); lia
      end.
    - destruct Hc as [Hc|Hc]; [discriminate|].
      rewrite (nth_error_skipn _ _ _ E0). apply string_loop_progress. exact Hc. }
  destruct (string_loop _ _ _ _ _ _) as [[string stop] found_end].
  cbn [fst snd] in Hstop.
  assert (Hi : forall b, index (if b : bool
                 then _track_error [c] (Z.of_nat (index self)) (set_index self stop)
                 else set_index self stop) = stop).
  { intros []; [apply track_error_index | reflexivity]. }
  match goal with
  | |- context [match ?n with Some _ => _ | None => _ end] => destruct n
  end.
  - intros [= _ <-]. rewrite Hi. exact Hstop.
  - unfold _cleanup_string. destruct (strip string); cbn [truthy negb];
      intros [= _ <-]; rewrite Hi; exact Hstop.
Qed.

(** [parse_number] always returns a number. *)
Lemma parse_number_ok (self : JsonFixer) :
  exists v self',
    parse_number self = Ok v self'
    /\ json_str self' = json_str self
    /\ index self'
       = index self
         + List.length (take_while number_char (skipn (index self) (json_str self)))
    /\ is_container v = false /\ is_none v = false.
Proof.
  unfold parse_number.
  match goal with
  | |- context [match ?n with Some _ => _ | None => _ end] => destruct n as [v|] eqn:En
  end.
  - do 2 eexists. split; [reflexivity|]. repeat split;
      destruct (_ && _)%bool;
      [destruct (int_of_str _) | destruct (float_of_str _)
      |destruct (int_of_str _) | destruct (float_of_str _)];
      simpl in En; inversion En; reflexivity.
  - do 2 eexists. split; [reflexivity|]. repeat split.
Qed.

Lemma parse_number_progress (self : JsonFixer) c v self' :
  nth_error (json_str self) (index self) = Some c ->
  (isdigit c || char_in c ".-")%bool = true ->
  parse_number self = Ok v self' ->
  index self < index self'.
Proof.
  intros E0 Hc H.
  destruct (parse_number_ok self) as (v0 & s0 & H0 & _ & Hi & _).
  rewrite H0 in H. injection H as _ <-. rewrite Hi.
  rewrite (nth_error_skipn _ _ _ E0). cbn [take_while].
  assert (Hn : number_char c = true).
  { unfold number_char. apply orb_true_iff in Hc. apply orb_true_iff.
    destruct Hc as [Hc|Hc]; [left; exact Hc|right].
    unfold char_in in *. simpl in *.
    repeat (apply orb_true_iff in Hc; destruct Hc as [Hc|Hc]);
      rewrite ?Hc, ?orb_true_r; try reflexivity; discriminate. }
  rewrite Hn. simpl. lia.
Qed.

(** The loops, one iteration unfolded. *)
Lemma parse_eq fuel (self : JsonFixer) :
  parse (S fuel) self =
  match nth_error (json_str self) (index self) with
  | None => Ok VNull self
  | Some c =>
      if isspace c then parse fuel (advance self)
      else if is_chr c "{" then parse_object_loop fuel [] true None (advance self)
      else if is_chr c "[" then parse_array_loop fuel [] (advance self)
      else if (in_delimiters c || isalpha c)%bool then parse_string self
      else if (isdigit c || char_in c ".-")%bool then parse_number self
      else parse fuel (advance self)
  end.
Proof. reflexivity. Qed.

Lemma parse_object_loop_eq fuel obj expect_key current_key (self : JsonFixer) :
  parse_object_loop (S fuel) obj expect_key current_key self =
  match nth_error (json_str self) (index self) with
  | None => Ok (VObj obj) self
  | Some c =>
      if (isspace c || is_chr c ",")%bool then
        parse_object_loop fuel obj expect_key current_key (advance self)
      else if is_chr c "}" then Ok (VObj obj) (advance self)
      else if expect_key then
        match bind parse_string (fun s => _cleanup_string s true) self with
        | Ok k self1 => parse_object_loop fuel obj false (Some k) self1
        | Raised e self1 => Raised e self1
        | NoFuel => NoFuel
        end
      else if is_chr c ":" then
        parse_object_loop fuel obj expect_key current_key (advance self)
      else
        match parse fuel self with
        | Ok v self1 =>
            match current_key with
            | Some k =>
                if is_none v then parse_object_loop fuel obj true None self1
                else
                  match to_key k with
                  | Some k' => parse_object_loop fuel (dict_set obj k' v) true None self1
                  | None => Raised (unhashable k) self1
                  end
            | None => parse_object_loop fuel obj true None self1
            end
        | Raised e self1 => Raised e self1
        | NoFuel => NoFuel
        end
  end.
Proof. reflexivity. Qed.

Lemma parse_array_loop_eq fuel arr (self : JsonFixer) :
  parse_array_loop (S fuel) arr self =
  match nth_error (json_str self) (index self) with
  | None => Ok (VArr arr) self
  | Some _ =>
      let self1 := skip_while isspace self in
      match nth_error (json_str self1) (index self1) with
      | None => Ok (VArr arr) (advance self1)
      | Some c =>
          if is_chr c "]" then Ok (VArr arr) (advance self1)
          else
            match parse fuel self1 with
            | Ok v self2 =>
                parse_array_loop fuel (if is_none v then arr else arr ++ [v])
                  (skip_while (fun c => (isspace c || is_chr c ",")%bool) self2)
            | Raised e self2 => Raised e self2
            | NoFuel => NoFuel
            end
      end
  end.
Proof. reflexivity. Qed.

Lemma scalar_null_free (v : value) : is_container v = false -> null_free v = true.
Proof. destruct v; simpl; congruence. Qed.

Lemma dict_set_null_free (d : list (key * value)) k v :
  null_free (VObj d) = true -> is_none v = false -> null_free v = true ->
  null_free (VObj (dict_set d k v)) = true.
Proof.
  intros Hd Hn Hv. cbn [null_free] in *.
  induction d as [|[k' v'] d IH]; cbn [dict_set forallb snd] in *.
  - rewrite Hn, Hv. reflexivity.
  - apply andb_true_iff in Hd as [H1 H2].
    destruct (key_eqb k' k); cbn [forallb snd].
    + rewrite Hn, Hv, H2. reflexivity.
    + rewrite H1, (IH H2). reflexivity.
Qed.

Lemma append_null_free (arr : list value) v :
  null_free (VArr arr) = true -> is_none v = false -> null_free v = true ->
  null_free (VArr (arr ++ [v])) = true.
Proof.
  cbn [null_free]. intros Ha Hn Hv. rewrite forallb_app, Ha.
  cbn [forallb]. rewrite Hn, Hv. reflexivity.
Qed.

Lemma cleanup_string_state (s : value) is_key (self : JsonFixer) k self1 :
  _cleanup_string s is_key self = Ok k self1 ->
  self1 = self /\ (is_container s = false -> is_container k = false).
Proof.
  unfold _cleanup_string, ret, raise.
  destruct (negb (truthy s)).
  - intros [= <- <-]. auto.
  - destruct s; try discriminate. intros [= <- <-]. auto.
Qed.

Lemma skip_while_json_str p (self : JsonFixer) :
  json_str (skip_while p self) = json_str self.
Proof. reflexivity. Qed.

Lemma skip_while_index p (self : JsonFixer) :
  index self <= index (skip_while p self).
Proof. unfold skip_while. cbn [index set_index]. lia. Qed.

Ltac post_done :=
  unfold parse_post in *; cbn [advance set_index skip_while json_str index] in *;
  repeat match goal with
         | H : _ /\ _ |- _ => destruct H
         | H : exists _, _ |- _ => destruct H
         end;
  subst; repeat split; intros; cbn [is_none] in *;
  eauto; try discriminate; try congruence; try lia.

(** Whatever the three mutually recursive methods return, the text is
    untouched, the cursor has not moved back, and no container in the
    result holds [None]; [parse] answers [None] only at the end of text. *)
Lemma parse_sound fuel :
  (forall (self : JsonFixer) v self',
      parse fuel self = Ok v self' ->
      parse_post self v self'
      /\ (is_none v = true -> List.length (json_str self) <= index self'))
  /\ (forall obj ek ck (self : JsonFixer) v self',
         parse_object_loop fuel obj ek ck self = Ok v self' ->
         null_free (VObj obj) = true ->
         parse_post self v self' /\ exists kvs, v = VObj kvs)
  /\ (forall arr (self : JsonFixer) v self',
         parse_array_loop fuel arr self = Ok v self' ->
         null_free (VArr arr) = true ->
         parse_post self v self' /\ exists xs, v = VArr xs).
Proof.
  induction fuel as [|fuel (IHp & IHo & IHa)];
    [repeat split; intros; discriminate|].
  split; [|split].
  - intros self v self'. rewrite parse_eq.
    destruct (nth_error (json_str self) (index self)) as [c|] eqn:E.
    2:{ intros [= <- <-]. apply nth_error_None in E. post_done. }
    destruct (isspace c).
    { intros H. apply IHp in H. post_done. }
    destruct (is_chr c "{").
    { intros H. apply IHo in H; [|reflexivity].
      destruct H as [H [kvs ->]]. post_done. }
    destruct (is_chr c "[").
    { intros H. apply IHa in H; [|reflexivity].
      destruct H as [H [xs ->]]. post_done. }
    destruct (in_delimiters c || isalpha c)%bool.
    { destruct (parse_string_ok self) as (v0 & s0 & -> & Hj & Hi & Hc & Hn).
      intros [= <- <-]. pose proof (scalar_null_free _ Hc). post_done. }
    destruct (isdigit c || char_in c ".-")%bool.
    { destruct (parse_number_ok self) as (v0 & s0 & -> & Hj & Hi & Hc & Hn).
      intros [= <- <-]. pose proof (scalar_null_free _ Hc). post_done. }
    intros H. apply IHp in H. post_done.
  - intros obj ek ck self v self'. rewrite parse_object_loop_eq.
    destruct (nth_error (json_str self) (index self)) as [c|] eqn:E.
    2:{ intros [= <- <-] Hobj. post_done. }
    destruct (isspace c || is_chr c ",")%bool.
    { intros H Hobj. apply IHo in H; [|exact Hobj]. post_done. }
    destruct (is_chr c "}").
    { intros [= <- <-] Hobj. post_done. }
    destruct ek.
    { unfold bind.
      destruct (parse_string_ok self) as (v0 & s0 & -> & Hj & Hi & Hc & Hn).
      destruct (_cleanup_string v0 true s0) as [k s1| |] eqn:Ek; try discriminate.
      apply cleanup_string_state in Ek as [-> _].
      intros H Hobj. apply IHo in H; [|exact Hobj]. post_done. }
    destruct (is_chr c ":").
    { intros H Hobj. apply IHo in H; [|exact Hobj]. post_done. }
    destruct (parse fuel self) as [v1 self1| |] eqn:Ep; try discriminate.
    apply IHp in Ep. destruct Ep as [(Hj & Hi & Hv) _].
    destruct ck as [k|].
    + destruct (is_none v1) eqn:En.
      * intros H Hobj. apply IHo in H; [|exact Hobj]. post_done.
      * destruct (to_key k); [|discriminate].
        intros H Hobj. apply IHo in H; [|apply dict_set_null_free; assumption].
        post_done.
    + intros H Hobj. apply IHo in H; [|exact Hobj]. post_done.
  - intros arr self v self'. rewrite parse_array_loop_eq.
    destruct (nth_error (json_str self) (index self)) as [c0|] eqn:E.
    2:{ intros [= <- <-] Harr. post_done. }
    cbv zeta.
    pose proof (skip_while_index isspace self) as Hs.
    set (self1 := skip_while isspace self) in *.
    assert (Hj1 : json_str self1 = json_str self) by reflexivity.
    destruct (nth_error (json_str self1) (index self1)) as [c|] eqn:E1.
    2:{ intros [= <- <-] Harr. post_done. }
    destruct (is_chr c "]").
    { intros [= <- <-] Harr. post_done. }
    destruct (parse fuel self1) as [v1 self2| |] eqn:Ep; try discriminate.
    apply IHp in Ep. destruct Ep as [(Hj & Hi & Hv) _].
    pose proof (skip_while_index (fun c => (isspace c || is_chr c ",")%bool) self2) as Hs2.
    intros H Harr. apply IHa in H.
    + post_done.
    + destruct (is_none v1) eqn:En; [exact Harr|].
      apply append_null_free; assumption.
Qed.

Lemma skip_while_at_end p (self : JsonFixer) :
  List.length (json_str self) <= index self -> skip_while p self = self.
Proof.
  intros H. unfold skip_while. rewrite skipn_all2 by exact H.
  cbn [take_while List.length]. destruct self; unfold set_index; simpl.
  f_equal. lia.
Qed.

Lemma skip_while_stays p (self : JsonFixer) c :
  nth_error (json_str self) (index self) = Some c -> p c = false ->
  skip_while p self = self.
Proof.
  intros E Hp. unfold skip_while. rewrite (nth_error_skipn _ _ _ E).
  cbn [take_while]. rewrite Hp. cbn [List.length].
  destruct self; unfold set_index; simpl. f_equal. lia.
Qed.

(** C6.  Nothing the tolerant parser returns holds [None] inside an object
    or an array, at any depth; and at a value slot whose value parses to
    [None], the object loop returns the object as accumulated before the
    pending key (the key is dropped) and the array loop returns the array
    as accumulated (nothing is appended). *)
Theorem null_values_are_dropped
  fuel (self : JsonFixer) (v : value) (self' : JsonFixer)
  (obj : list (key * value)) (k : value) (arr : list value) :
  parse fuel self = Ok v self' ->
  null_free v = true
  /\ (v = VNull -> at_value_slot self ->
      parse_object_loop (S fuel) obj false (Some k) self = Ok (VObj obj) self'
      /\ parse_array_loop (S fuel) arr self = Ok (VArr arr) self')
  /\ (forall v1 s1,
        null_free (VObj obj) = true ->
        parse_object_loop (S fuel) obj false (Some k) self = Ok v1 s1 ->
        exists kvs, v1 = VObj kvs
                    /\ Forall (fun kv => snd kv <> VNull /\ null_free (snd kv) = true) kvs)
  /\ (forall v1 s1,
        null_free (VArr arr) = true ->
        parse_array_loop (S fuel) arr self = Ok v1 s1 ->
        exists xs, v1 = VArr xs
                   /\ Forall (fun x => x <> VNull /\ null_free x = true) xs).
Proof.
  intros Hp.
  destruct (parse_sound fuel) as (Sp & _ & _).
  destruct (Sp _ _ _ Hp) as [(Hj & Hi & Hv) Hend].
  split; [exact Hv|]. split; [|split].
  - intros -> Hslot. specialize (Hend eq_refl).
    unfold at_value_slot in Hslot.
    destruct (nth_error (json_str self) (index self)) as [c|] eqn:E; [|contradiction].
    destruct Hslot as [Hsp Hsep].
    assert (Hc : is_chr c "," = false /\ is_chr c ":" = false
                 /\ is_chr c "}" = false /\ is_chr c "]" = false).
    { unfold char_in in Hsep. cbn [py list_ascii_of_string map existsb] in Hsep.
      unfold is_chr. repeat (apply orb_false_iff in Hsep as [? Hsep]). auto. }
    destruct Hc as (Hc1 & Hc2 & Hc3 & Hc4).
    destruct fuel as [|fuel']; [discriminate|].
    assert (Hnone : nth_error (json_str self') (index self') = None)
      by (apply nth_error_None; rewrite Hj; exact Hend).
    split.
    + rewrite parse_object_loop_eq, E, Hsp, Hc1, Hc3, Hc2. cbn [orb].
      rewrite Hp. cbn [is_none]. rewrite parse_object_loop_eq, Hnone. reflexivity.
    + rewrite parse_array_loop_eq, E. cbv zeta.
      rewrite (skip_while_stays _ _ _ E Hsp), E, Hc4, Hp. cbn [is_none].
      rewrite skip_while_at_end by (rewrite Hj; exact Hend).
      rewrite parse_array_loop_eq, Hnone. reflexivity.
  - intros v1 s1 Hobj H.
    destruct (parse_sound (S fuel)) as (_ & So & _).
    destruct (So _ _ _ _ _ _ H Hobj) as [(_ & _ & Hn) [kvs ->]].
    exists kvs. split; [reflexivity|].
    cbn [null_free] in Hn. rewrite forallb_forall in Hn.
    apply Forall_forall. intros kv Hin. specialize (Hn kv Hin).
    apply andb_true_iff in Hn as [Hn1 Hn2]. split; [|exact Hn2].
    intros Heq. rewrite Heq in Hn1. discriminate.
  - intros v1 s1 Harr H.
    destruct (parse_sound (S fuel)) as (_ & _ & Sa).
    destruct (Sa _ _ _ _ H Harr) as [(_ & _ & Hn) [xs ->]].
    exists xs. split; [reflexivity|].
    cbn [null_free] in Hn. rewrite forallb_forall in Hn.
    apply Forall_forall. intros x Hin. specialize (Hn x Hin).
    apply andb_true_iff in Hn as [Hn1 Hn2]. split; [|exact Hn2].
    intros Heq. rewrite Heq in Hn1. discriminate.
Qed.

End ParserFacts.

Lemma null_values_are_dropped_witness :
  let self := set_index (at_start fresh (py "{a: ?")) 4 in
  let self' := set_index self 5 in
  let obj := [(KStr (py "z"), VInt 1)] in
  let arr := [VInt 1; VStr (py "x")] in
  parse 3 self = Ok VNull self'
  /\ null_free (@VNull dfloat) = true
  /\ (@VNull dfloat = VNull -> at_value_slot self ->
      parse_object_loop 4 obj false (Some (VStr (py "a"))) self = Ok (VObj obj) self'
      /\ parse_array_loop 4 arr self = Ok (VArr arr) self')
  /\ (forall v1 s1,
        null_free (VObj obj) = true ->
        parse_object_loop 4 obj false (Some (VStr (py "a"))) self = Ok v1 s1 ->
        exists kvs, v1 = VObj kvs
                    /\ Forall (fun kv => snd kv <> VNull /\ null_free (snd kv) = true) kvs)
  /\ (forall v1 s1,
        null_free (VArr arr) = true ->
        parse_array_loop 4 arr self = Ok v1 s1 ->
        exists xs, v1 = VArr xs
                   /\ Forall (fun x => x <> VNull /\ null_free x = true) xs).
Proof.
  split; [reflexivity|].
  exact (@null_values_are_dropped ref_lib 3
           (set_index (at_start fresh (py "{a: ?")) 4) VNull
           (set_index (set_index (at_start fresh (py "{a: ?")) 4) 5)
           [(KStr (py "z"), VInt 1)] (VStr (py "a")) [VInt 1; VStr (py "x")] eq_refl).
Defined.

(** ** The recursion budget is never exhausted *)

Section Termination.

Context {L : PyLib}.

#[local] Abbreviation value := (Value pyfloat).

(** No letter is one of the separators that end an unquoted string. *)
Hypothesis alpha_not_separator :
  forall c, isalpha c = true -> char_in c ",:]}" = false.

Lemma remaining_advance (self : JsonFixer) c :
  nth_error (json_str self) (index self) = Some c ->
  remaining self = S (remaining (advance self)).
Proof.
  intros E. apply nth_error_in_range in E.
  unfold remaining. cbn [advance set_index json_str index]. lia.
Qed.

Lemma remaining_le (self self' : JsonFixer) :
  json_str self' = json_str self -> index self <= index self' ->
  remaining self' <= remaining self.
Proof. unfold remaining. intros -> ?. lia. Qed.

Lemma remaining_lt (self self' : JsonFixer) c :
  nth_error (json_str self) (index self) = Some c ->
  json_str self' = json_str self -> index self < index self' ->
  S (remaining self') <= remaining self.
Proof.
  intros E. apply nth_error_in_range in E. unfold remaining. intros -> ?. lia.
Qed.

Lemma parse_total fuel :
  (forall self : JsonFixer,
      3 * remaining self + 1 <= fuel ->
      parse fuel self <> NoFuel
      /\ (forall v self' c,
             parse fuel self = Ok v self' ->
             nth_error (json_str self) (index self) = Some c ->
             index self < index self'))
  /\ (forall obj ek ck (self : JsonFixer),
         3 * remaining self + (if ek : bool then 3 else 2) <= fuel ->
         parse_object_loop fuel obj ek ck self <> NoFuel)
  /\ (forall arr (self : JsonFixer),
         3 * remaining self + 2 <= fuel ->
         parse_array_loop fuel arr self <> NoFuel).
Proof.
  induction fuel as [|fuel (IHp & IHo & IHa)].
  { repeat split; intros; try lia. destruct ek; lia. }
  destruct (parse_sound fuel) as (Sp & So & Sa).
  split; [|split].
  - intros self Hf. rewrite parse_eq.
    destruct (nth_error (json_str self) (index self)) as [c|] eqn:E.
    2:{ split; [discriminate|]. intros; discriminate. }
    pose proof (remaining_advance _ _ E) as Hr.
    destruct (isspace c).
    { split; [apply IHp; lia|].
      intros v self' c' H _. apply Sp in H as [(_ & Hi & _) _].
      cbn [advance set_index index] in Hi. lia. }
    destruct (is_chr c "{").
    { split; [apply IHo; lia|].
      intros v self' c' H _. apply So in H as [(_ & Hi & _) _]; [|reflexivity].
      cbn [advance set_index index] in Hi. lia. }
    destruct (is_chr c "[").
    { split; [apply IHa; lia|].
      intros v self' c' H _. apply Sa in H as [(_ & Hi & _) _]; [|reflexivity].
      cbn [advance set_index index] in Hi. lia. }
    destruct (in_delimiters c || isalpha c)%bool eqn:Hd.
    { split.
      - destruct (parse_string_ok self) as (v0 & s0 & -> & _). discriminate.
      - intros v self' c' H _. apply (parse_string_progress self c v self' E); [|exact H].
        apply orb_true_iff in Hd as [Hd|Hd]; [left; exact Hd|right].
        apply alpha_not_separator. exact Hd. }
    destruct (isdigit c || char_in c ".-")%bool eqn:Hn.
    { split.
      - destruct (parse_number_ok self) as (v0 & s0 & -> & _). discriminate.
      - intros v self' c' H _. exact (parse_number_progress _ _ _ _ E Hn H). }
    split; [apply IHp; lia|].
    intros v self' c' H _. apply Sp in H as [(_ & Hi & _) _].
    cbn [advance set_index index] in Hi. lia.
  - intros obj ek ck self Hf. rewrite parse_object_loop_eq.
    destruct (nth_error (json_str self) (index self)) as [c|] eqn:E;
      [|discriminate].
    pose proof (remaining_advance _ _ E) as Hr.
    destruct (isspace c || is_chr c ",")%bool.
    { apply IHo. destruct ek; lia. }
    destruct (is_chr c "}"); [discriminate|].
    destruct ek.
    { unfold bind.
      destruct (parse_string_ok self) as (v0 & s0 & -> & Hj & Hi & _).
      destruct (_cleanup_string v0 true s0) as [k s1| |] eqn:Ek.
      - apply cleanup_string_state in Ek as [-> _].
        apply IHo. pose proof (remaining_le _ _ Hj Hi). lia.
      - discriminate.
      - unfold _cleanup_string, ret, raise in Ek.
        destruct (negb (truthy v0)); [discriminate|]. destruct v0; discriminate. }
    destruct (is_chr c ":").
    { apply IHo. lia. }
    destruct (IHp self ltac:(lia)) as [Hnf Hprog].
    destruct (parse fuel self) as [v1 self1| |] eqn:Ep;
      [|discriminate|congruence].
    specialize (Hprog _ _ _ eq_refl E).
    apply Sp in Ep as [(Hj & _ & _) _].
    pose proof (remaining_lt _ _ _ E Hj Hprog) as Hlt.
    destruct ck as [k|]; [|apply IHo; lia].
    destruct (is_none v1); [apply IHo; lia|].
    destruct (to_key k); [apply IHo; lia|discriminate].
  - intros arr self Hf. rewrite parse_array_loop_eq.
    destruct (nth_error (json_str self) (index self)) as [c0|] eqn:E;
      [|discriminate].
    cbv zeta.
    pose proof (remaining_le self (skip_while isspace self) eq_refl
                  (skip_while_index _ _)) as Hr1.
    set (self1 := skip_while isspace self) in *.
    destruct (nth_error (json_str self1) (index self1)) as [c|] eqn:E1;
      [|discriminate].
    destruct (is_chr c "]"); [discriminate|].
    destruct (IHp self1 ltac:(lia)) as [Hnf Hprog].
    destruct (parse fuel self1) as [v1 self2| |] eqn:Ep;
      [|discriminate|congruence].
    specialize (Hprog _ _ _ eq_refl E1).
    apply Sp in Ep as [(Hj & _ & _) _].
    pose proof (remaining_lt _ _ _ E1 Hj Hprog) as Hlt.
    apply IHa.
    pose proof (remaining_le self2
                  (skip_while (fun c => (isspace c || is_chr c ",")%bool) self2)
                  eq_refl (skip_while_index _ _)).
    lia.
Qed.

(** The budget [_cached_parse] gives [parse] is enough for any text. *)
Lemma cached_parse_total (text : pystr) (self : JsonFixer) :
  _cached_parse text self <> NoFuel.
Proof.
  unfold _cached_parse.
  destruct (cache_lookup (parse_cache self) text); [discriminate|].
  destruct (parse_total (parse_fuel text)) as (Tp & _ & _).
  destruct (Tp (set_index (set_json_str self text) 0)) as [Hnf _].
  { unfold remaining, parse_fuel. cbn [set_index set_json_str json_str index]. lia. }
  destruct (parse (parse_fuel text) (set_index (set_json_str self text) 0));
    [discriminate|discriminate|congruence].
Qed.

(** [load_json] ends: it returns a result or raises. *)
Lemma load_json_total (text : pystr) (self : JsonFixer) :
  load_json text self <> NoFuel.
Proof.
  unfold load_json.
  destruct (10000 <? Z.of_nat (List.length text))%Z.
  { destruct (pool_map _ _); [discriminate|].
    destruct (merge_chunks _ _); discriminate. }
  unfold _process_chunk.
  destruct (json_loads (trim_window (strip text))) as [parsed|pos|e]; [| |discriminate].
  { unfold bind, assign_fixed, modify, return_result.
    match goal with |- context [result ?s] => destruct (result s) end; discriminate. }
  destruct (nth_error (trim_window (strip text)) pos) as [c|]; [|discriminate].
  match goal with
  | |- bind (catch (bind (_cached_parse ?t) ?k) ?h) ?k2 ?s <> NoFuel =>
      pose proof (cached_parse_total t s) as Hc;
      unfold bind, catch;
      destruct (_cached_parse t s) as [v s1|e s1|]; [| |congruence]
  end.
  - assert (Hk : forall u (f : JsonFixer), assign_fixed u f = Ok tt
             (set_result f (option_map (fun r => set_fixed r u) (result f))))
      by reflexivity.
    destruct v; rewrite Hk; unfold return_result;
      match goal with |- context [result ?s] => destruct (result s) end; discriminate.
  - unfold modify, raise. discriminate.
Qed.

End Termination.

(** ** The serializer writes JSON *)

Lemma value_induction (F : Type) (P : Value F -> Prop) :
  P VNull -> (forall b, P (VBool b)) -> (forall z, P (VInt z)) ->
  (forall f, P (VFloat f)) -> (forall s, P (VStr s)) ->
  (forall xs, Forall P xs -> P (VArr xs)) ->
  (forall kvs, Forall (fun kv => P (snd kv)) kvs -> P (VObj kvs)) ->
  forall v, P v.
Proof.
  intros Hnull Hbool Hint Hfloat Hstr Harr Hobj.
  fix IH 1.
  intros [ |b|z|f|s|xs|kvs];
    [exact Hnull|apply Hbool|apply Hint|apply Hfloat|apply Hstr| |].
  - apply Harr. induction xs as [|x xs IHxs]; constructor; [apply IH|exact IHxs].
  - apply Hobj. induction kvs as [|[k x] kvs IHkvs]; constructor;
      [apply IH|exact IHkvs].
Qed.

Lemma digit_char_is_digit d : (d < 10)%N -> is_digit (digit_char d) = true.
Proof.
  intros H. unfold is_digit, digit_char.
  apply andb_true_iff. split; apply N.leb_le; lia.
Qed.

Lemma digit_char_zero d : (d < 10)%N -> digit_char d = chr "0" -> d = 0%N.
Proof. unfold digit_char. change (chr "0") with 48%N. lia. Qed.

(** With fuel beyond the binary length, the digits of [n] come out, most
    significant first, without a leading zero. *)
Lemma digits_fuel_spec fuel n :
  N.to_nat (N.log2 n) < fuel ->
  exists d ds,
    digits_fuel fuel n = d :: ds
    /\ is_digit d = true /\ forallb is_digit ds = true
    /\ (d = chr "0" -> n = 0%N /\ ds = []).
Proof.
  revert n; induction fuel as [|fuel IH]; intros n Hf; [lia|].
  cbn [digits_fuel]. destruct (N.ltb_spec n 10) as [Hn|Hn].
  - exists (digit_char n), []. repeat split.
    + apply digit_char_is_digit; exact Hn.
    + apply digit_char_zero; assumption.
  - assert (Hlog : N.to_nat (N.log2 (n / 10)) < fuel).
    { assert (n / 10 <= n / 2)%N by (apply N.div_le_compat_l; lia).
      assert (N.log2 (n / 10) <= N.log2 (n / 2))%N by (apply N.log2_le_mono; assumption).
      assert (N.log2 (n / 2) = N.log2 n - 1)%N.
      { rewrite <- N.div2_div, N.div2_spec. apply N.log2_shiftr. }
      assert (0 < N.log2 n)%N by (apply N.log2_pos; lia).
      lia. }
    destruct (IH _ Hlog) as (d & ds & -> & Hd & Hds & Hz).
    exists d, (ds ++ [digit_char (n mod 10)]). repeat split.
    + exact Hd.
    + rewrite forallb_app, Hds. cbn [forallb]. rewrite digit_char_is_digit.
      * reflexivity.
      * apply N.mod_lt. lia.
    + destruct (Hz H) as [Hq _].
      assert (n / 10 <> 0)%N by (intros Hq0; apply N.div_small_iff in Hq0; lia).
      contradiction.
    + destruct (Hz H) as [Hq _].
      assert (n / 10 <> 0)%N by (intros Hq0; apply N.div_small_iff in Hq0; lia).
      contradiction.
Qed.

Lemma nat_digits_int n : json_int (nat_digits n).
Proof.
  unfold nat_digits.
  destruct (digits_fuel_spec (S (N.to_nat (N.log2 n))) n) as (d & ds & -> & Hd & Hds & Hz);
    [lia|].
  destruct (N.eq_dec d (chr "0")) as [->|Hne].
  - destruct (Hz eq_refl) as [_ ->]. constructor.
  - constructor; assumption.
Qed.

Lemma int_repr_number z : json_number (int_repr z).
Proof.
  unfold int_repr. destruct (z <? 0)%Z.
  - change (chr "-" :: nat_digits (Z.to_N (- z)))
      with ([chr "-"] ++ nat_digits (Z.to_N (- z))).
    rewrite <- (app_nil_r (nat_digits _)).
    rewrite <- (app_nil_r (nat_digits _ ++ [])) at 1.
    replace ([chr "-"] ++ (nat_digits (Z.to_N (- z)) ++ []) ++ [])
      with ([chr "-"] ++ nat_digits (Z.to_N (- z)) ++ [] ++ [])
      by (rewrite !app_nil_r; reflexivity).
    constructor; [right; reflexivity|apply nat_digits_int|constructor|constructor].
  - replace (nat_digits (Z.to_N z)) with ([] ++ nat_digits (Z.to_N z) ++ [] ++ [])
      by (cbn [app]; rewrite !app_nil_r; reflexivity).
    constructor; [left; reflexivity|apply nat_digits_int|constructor|constructor].
Qed.

Lemma json_chars_app s t : json_chars s -> json_chars t -> json_chars (s ++ t).
Proof.
  intros Hs Ht. induction Hs; cbn [app]; try assumption.
  - apply chars_plain; assumption.
  - apply chars_escape; assumption.
  - apply chars_unicode; assumption.
Qed.

Lemma hex_char_is_hex d : (d < 16)%N -> is_hex (hex_char d) = true.
Proof.
  intros H. unfold is_hex, is_digit, hex_char.
  destruct (N.ltb_spec d 10).
  - replace ((48 <=? 48 + d)%N) with true by (symmetry; apply N.leb_le; lia).
    replace ((48 + d <=? 57)%N) with true by (symmetry; apply N.leb_le; lia).
    reflexivity.
  - replace ((97 <=? 87 + d)%N) with true by (symmetry; apply N.leb_le; lia).
    replace ((87 + d <=? 102)%N) with true by (symmetry; apply N.leb_le; lia).
    cbn [andb]. apply orb_true_r || (rewrite orb_true_r; reflexivity).
Qed.

Lemma u_escape_chars n : json_chars (u_escape n).
Proof.
  unfold u_escape.
  apply chars_unicode; try (apply hex_char_is_hex; apply N.mod_lt; lia).
  constructor.
Qed.

Lemma escape_char_chars c : json_chars (escape_char c).
Proof.
  unfold escape_char.
  destruct (N.eqb_spec c dquote); [apply chars_escape; [reflexivity|constructor]|].
  destruct (N.eqb_spec c backslash); [apply chars_escape; [reflexivity|constructor]|].
  destruct (c =? 10)%N; [apply (chars_escape (chr "n")); [reflexivity|constructor]|].
  destruct (c =? 13)%N; [apply (chars_escape (chr "r")); [reflexivity|constructor]|].
  destruct (c =? 9)%N; [apply (chars_escape (chr "t")); [reflexivity|constructor]|].
  destruct (c =? 12)%N; [apply (chars_escape (chr "f")); [reflexivity|constructor]|].
  destruct (c =? 8)%N; [apply (chars_escape (chr "b")); [reflexivity|constructor]|].
  destruct (N.leb_spec 32 c); cbn [andb].
  - destruct (N.leb_spec c 126).
    + apply chars_plain; try assumption; [lia|constructor].
    + destruct (c <? 65536)%N; [apply u_escape_chars|].
      apply json_chars_app; apply u_escape_chars.
  - destruct (c <? 65536)%N; [apply u_escape_chars|].
    apply json_chars_app; apply u_escape_chars.
Qed.

Lemma encode_string_value s : json_value (encode_string s).
Proof.
  unfold encode_string. apply value_string.
  induction s as [|c s IH]; cbn [flat_map]; [constructor|].
  apply json_chars_app; [apply escape_char_chars|exact IH].
Qed.

Lemma encode_string_shape s :
  exists body, encode_string s = dquote :: body ++ [dquote] /\ json_chars body.
Proof.
  exists (flat_map escape_char s). split; [reflexivity|].
  induction s as [|c s IH]; cbn [flat_map]; [constructor|].
  apply json_chars_app; [apply escape_char_chars|exact IH].
Qed.

Lemma whitespace_nil : whitespace [].
Proof. reflexivity. Qed.

Lemma elements_of_join (parts : list pystr) :
  parts <> [] -> Forall json_value parts -> json_elements (join [chr ","] parts).
Proof.
  induction parts as [|p rest IH]; intros Hne Hall; [congruence|].
  inversion Hall as [|? ? Hp Hrest]; subst.
  destruct rest as [|q rest'].
  - cbn [join]. rewrite <- (app_nil_r p).
    apply (@elements_one [] p []); auto using whitespace_nil.
  - change (join [chr ","] (p :: q :: rest'))
      with ([] ++ p ++ [] ++ chr "," :: join [chr ","] (q :: rest')).
    apply elements_more; auto using whitespace_nil.
    apply IH; [discriminate|exact Hrest].
Qed.

(** One [key:value] item as the serializer writes it. *)
Lemma member_shape (k v : pystr) :
  exists body,
    json_chars body
    /\ encode_string k ++ chr ":" :: v
       = [] ++ dquote :: body ++ dquote :: [] ++ chr ":" :: [] ++ v.
Proof.
  destruct (encode_string_shape k) as (body & -> & Hb).
  exists body. split; [exact Hb|].
  cbn [app]. f_equal. rewrite <- app_assoc. reflexivity.
Qed.

Lemma members_of_join (items : list (pystr * pystr)) :
  items <> [] -> Forall (fun kv => json_value (snd kv)) items ->
  json_members
    (join [chr ","] (map (fun kv => encode_string (fst kv) ++ chr ":" :: snd kv) items)).
Proof.
  induction items as [|[k v] rest IH]; intros Hne Hall; [congruence|].
  inversion Hall as [|? ? Hv Hrest]; subst. cbn [snd] in Hv.
  destruct (member_shape k v) as (body & Hb & Heq).
  destruct rest as [|kv rest'].
  - cbn [map join fst snd]. rewrite Heq.
    rewrite <- (app_nil_r v).
    apply (@members_one [] body [] [] v []); auto using whitespace_nil.
  - assert (Ht : json_members
                   (join [chr ","]
                      (map (fun kv => encode_string (fst kv) ++ chr ":" :: snd kv)
                           (kv :: rest'))))
      by (apply IH; [discriminate|exact Hrest]).
    cbn [map fst snd] in *.
    match goal with
    | |- json_members (join _ (?m :: ?ms)) =>
        change (join [chr ","] (m :: ms)) with (m ++ chr "," :: join [chr ","] ms);
        set (tail := join [chr ","] ms) in *
    end.
    rewrite Heq.
    replace (([] ++ dquote :: body ++ dquote :: [] ++ chr ":" :: [] ++ v)
               ++ chr "," :: tail)
      with ([] ++ dquote :: body ++ dquote :: [] ++ chr ":" :: [] ++ v ++ []
               ++ chr "," :: tail).
    + apply members_more; auto using whitespace_nil.
    + cbn [app]. f_equal. rewrite <- !app_assoc. cbn [app]. reflexivity.
Qed.

Section SerializerFacts.

Context {L : PyLib}.

#[local] Abbreviation value := (Value pyfloat).

Lemma floatstr_number f : json_float f -> json_number (floatstr f).
Proof. intros [Hc Hn]. unfold floatstr. rewrite Hc. exact Hn. Qed.

(** When its floats are finite, a value is written as a JSON value. *)
Lemma json_dumps_value (v : value) :
  Forall json_float (floats_of v) -> json_value (json_dumps v).
Proof.
  induction v as [ |b|z|f|s|xs IH|kvs IH] using value_induction; intros Hf.
  - apply value_null.
  - destruct b; [apply value_true|apply value_false].
  - apply value_number, int_repr_number.
  - apply value_number, floatstr_number. inversion Hf; assumption.
  - apply encode_string_value.
  - cbn [json_dumps]. destruct xs as [|x xs'].
    + apply (@value_empty_array []). exact whitespace_nil.
    + apply value_array. apply elements_of_join; [discriminate|].
      cbn [floats_of] in Hf. rewrite Forall_flat_map in Hf.
      apply Forall_map. rewrite Forall_forall in *.
      intros y Hy. apply IH; [exact Hy|]. apply Hf; exact Hy.
  - cbn [json_dumps]. destruct kvs as [|kv kvs'].
    + apply (@value_empty_object []). exact whitespace_nil.
    + apply value_object.
      match goal with
      | |- json_members (join _ (map ?f ?l)) =>
          replace (map f l)
            with (map (fun p => encode_string (fst p) ++ chr ":" :: snd p)
                      (map (fun kv => (key_text (fst kv), json_dumps (snd kv))) l))
            by (rewrite map_map; reflexivity)
      end.
      apply members_of_join.
      * discriminate.
      * cbn [floats_of] in Hf. rewrite Forall_flat_map in Hf.
        set (l := kv :: kvs') in *.
        apply Forall_map. rewrite Forall_forall in *.
        intros y Hy. cbn [snd]. apply IH; [exact Hy|]. apply Hf; exact Hy.
Qed.

Lemma json_value_text s : json_value s -> json_text s.
Proof.
  intros H. exists [], s, []. repeat split; try exact H.
  cbn [app]. rewrite app_nil_r. reflexivity.
Qed.

End SerializerFacts.

(** A JSON value begins with a quote, a digit, a minus sign, a bracket, a
    brace or the first letter of a literal. *)
Lemma json_value_start s :
  json_value s -> exists c rest, s = c :: rest /\ value_start c = true.
Proof.
  intros H. destruct H as [ | | |s Hn|s|w|s|w|s];
    try (do 2 eexists; split; reflexivity).
  destruct Hn as [minus i f e Hm Hi Hf He].
  destruct Hm as [->| ->]; [|do 2 eexists; split; reflexivity].
  destruct Hi as [|d ds Hd Hz Hds]; [do 2 eexists; split; reflexivity|].
  exists d. eexists. split; [reflexivity|].
  unfold value_start. rewrite Hd. apply orb_true_iff. left. apply orb_true_r.
Qed.

Lemma value_start_not_ws c : value_start c = true -> is_ws c = false.
Proof.
  unfold value_start, is_ws, is_digit, char_in.
  cbn [py list_ascii_of_string map existsb].
  change dquote with 34%N.
  repeat match goal with
         | |- context [N.eqb ?a ?b] => destruct (N.eqb_spec a b); try subst
         end; cbn; try reflexivity; try discriminate;
    repeat match goal with
           | |- context [N.leb ?a ?b] => destruct (N.leb_spec a b)
           end; cbn; try reflexivity; try discriminate; try lia.
Qed.

(** The first character of a JSON document after its leading blanks. *)
Lemma json_text_start s :
  json_text s ->
  exists c rest, dropwhile is_ws s = c :: rest /\ value_start c = true.
Proof.
  intros (w1 & v & w2 & Hw1 & Hv & _ & ->).
  destruct (json_value_start _ Hv) as (c & rest & -> & Hc).
  exists c, (rest ++ w2). split; [|exact Hc].
  unfold whitespace in Hw1.
  induction w1 as [|x w1 IH]; cbn [app dropwhile forallb] in *.
  - rewrite (value_start_not_ws _ Hc). reflexivity.
  - apply andb_true_iff in Hw1 as [Hx Hw1]. rewrite Hx. apply IH. exact Hw1.
Qed.

(** ** The repair pipeline *)

Section PipelineFacts.

Context {L : PyLib}.

#[local] Abbreviation value := (Value pyfloat).





Lemma assign_then_return u (self : JsonFixer) r self' :
  bind (assign_fixed u) (fun _ => return_result) self = Ok r self' -> fixed r = u.
Proof.
  unfold bind, assign_fixed, modify, return_result. cbn [result set_result].
  destruct (result self); cbn [option_map]; [|discriminate].
  intros [= <- _]. reflexivity.
Qed.



Lemma returned_by_parts (out : res JsonResults) (before : JsonFixer) :
  fixed_of out <> None -> out = Ok (result_of out) (state_of out before).
Proof. destruct out; cbn; congruence. Qed.

End PipelineFacts.

(** The bare word [hello] comes back as it is: not empty, and no JSON. *)
Lemma bare_word_is_returned_verbatim :
  fixed_of (load_json (py "hello") fresh) = Some (py "hello")
  /\ py "hello" <> []
  /\ ~ json_text (py "hello").
Proof.
  split; [vm_compute; reflexivity|]. split; [discriminate|].
  intros H. apply json_text_start in H as (c & rest & Hd & Hc).
  vm_compute in Hd. injection Hd as <- _. vm_compute in Hc. discriminate.
Qed.



(** ** The chunk orchestrator *)

Lemma str_eqb_eq s t : str_eqb s t = true <-> s = t.
Proof.
  revert t; induction s as [|a s IH]; intros [|b t]; cbn [str_eqb];
    try (split; [discriminate|congruence]); [split; reflexivity|].
  rewrite andb_true_iff, N.eqb_eq, IH. split.
  - intros [-> ->]. reflexivity.
  - intros [= -> ->]. split; reflexivity.
Qed.




Section ChunkFacts.

Context {L : PyLib}.

#[local] Abbreviation value := (Value pyfloat).
#[local] Abbreviation key := (Key pyfloat).





Lemma last_binding_app (a b : list (key * value)) k :
  last_binding (a ++ b) k
  = match last_binding b k with
    | Some v => Some v
    | None => last_binding a k
    end.
Proof.
  induction a as [|[k' v'] a IH]; cbn [app last_binding].
  - destruct (last_binding b k); reflexivity.
  - rewrite IH. destruct (last_binding b k); reflexivity.
Qed.












End ChunkFacts.



(** ** The reference runtime is well formed *)

Lemma ref_alpha_not_separator c :
  ref_isalpha c = true -> char_in c ",:]}" = false.
Proof.
  unfold ref_isalpha, char_in. cbn [py list_ascii_of_string map existsb].
  change (chr ",") with 44%N. change (chr ":") with 58%N.
  change (chr "]") with 93%N. change (chr "}") with 125%N.
  intros H.
  repeat match goal with
         | |- context [N.eqb ?a ?b] => destruct (N.eqb_spec a b); try subst
         end; try reflexivity; vm_compute in H; discriminate.
Qed.

Lemma ref_load_json_total (text : pystr) (self : JsonFixer) :
  load_json text self <> NoFuel.
Proof. apply load_json_total. exact ref_alpha_not_separator. Qed.

(** ** The error map *)

Lemma str_eqb_refl s : str_eqb s s = true.
Proof. apply str_eqb_eq; reflexivity. Qed.

Lemma str_eqb_neq s t : s <> t -> str_eqb s t = false.
Proof.
  intros H; destruct (str_eqb s t) eqn:E; [|reflexivity].
  apply str_eqb_eq in E; contradiction.
Qed.

Lemma errors_get_add errs c i :
  errors_get (errors_add errs c i) c
  = Some (match errors_get errs c with Some ps => ps ++ [i] | None => [i] end).
Proof.
  induction errs as [|[k ps] rest IH]; simpl.
  - rewrite str_eqb_refl; reflexivity.
  - destruct (str_eqb k c) eqn:E; simpl; rewrite E; [reflexivity | exact IH].
Qed.

Lemma errors_get_add_other errs c i k :
  k <> c -> errors_get (errors_add errs c i) k = errors_get errs k.
Proof.
  intros Hk; induction errs as [|[k0 ps] rest IH]; simpl.
  - rewrite str_eqb_neq by congruence; reflexivity.
  - destruct (str_eqb k0 c) eqn:E; simpl.
    + apply str_eqb_eq in E; subst k0.
      rewrite str_eqb_neq by congruence; reflexivity.
    + rewrite IH; reflexivity.
Qed.

Lemma errors_add_keys errs c i x :
  In x (map fst (errors_add errs c i)) -> In x (map fst errs) \/ x = c.
Proof.
  induction errs as [|[k ps] rest IH]; simpl.
  - intros [H | []]; right; congruence.
  - destruct (str_eqb k c); simpl; intros [H | H]; auto.
    destruct (IH H); auto.
Qed.

Lemma errors_add_nodup errs c i :
  NoDup (map fst errs) -> NoDup (map fst (errors_add errs c i)).
Proof.
  induction errs as [|[k ps] rest IH]; simpl; intros H.
  - constructor; [intros [] | constructor].
  - inversion H as [|? ? Hn Hr]; subst.
    destruct (str_eqb k c) eqn:E; simpl.
    + constructor; assumption.
    + constructor; [|auto].
      intros Hin; apply errors_add_keys in Hin as [Hin | ->]; [contradiction|].
      rewrite str_eqb_refl in E; discriminate.
Qed.

(** X1.  [add_error] appends the position to the list its character
    already has, or starts a list of one; it leaves the lists of all other
    characters, the two texts and the uniqueness of the keys as they are. *)
Theorem add_error_appends_one_position (r : JsonResults) (c : pystr) (i : Z) :
  errors_get (errors (add_error r c i)) c
  = Some (match errors_get (errors r) c with Some ps => ps ++ [i] | None => [i] end)
  /\ (forall k, k <> c -> errors_get (errors (add_error r c i)) k = errors_get (errors r) k)
  /\ (NoDup (map fst (errors r)) -> NoDup (map fst (errors (add_error r c i))))
  /\ original (add_error r c i) = original r
  /\ fixed (add_error r c i) = fixed r.
Proof.
  unfold add_error; simpl; repeat split.
  - apply errors_get_add.
  - intros k Hk; apply errors_get_add_other; exact Hk.
  - apply errors_add_nodup.
Qed.

(** ** Merging results *)

Lemma errors_get_set errs c ps k :
  errors_get (errors_set errs c ps) k
  = if str_eqb c k then Some ps else errors_get errs k.
Proof.
  induction errs as [|[k0 old] rest IH]; simpl.
  - destruct (str_eqb c k); reflexivity.
  - destruct (str_eqb k0 c) eqn:E; simpl.
    + apply str_eqb_eq in E; subst k0.
      destruct (str_eqb c k); reflexivity.
    + rewrite IH. destruct (str_eqb c k) eqn:Ec; [|reflexivity].
      apply str_eqb_eq in Ec; subst k. rewrite E; reflexivity.
Qed.

Lemma last_positions_app a b c :
  last_positions (a ++ b) c
  = match last_positions b c with Some ps => Some ps | None => last_positions a c end.
Proof.
  induction a as [|[k ps] rest IH]; simpl.
  - destruct (last_positions b c); reflexivity.
  - rewrite IH. destruct (last_positions b c); reflexivity.
Qed.

Lemma errors_update_get other : forall errs k,
  errors_get (errors_update errs other) k
  = match last_positions other k with Some ps => Some ps | None => errors_get errs k end.
Proof.
  unfold errors_update.
  induction other as [|[c ps] rest IH]; intros errs k; simpl; [reflexivity|].
  rewrite IH, errors_get_set.
  destruct (last_positions rest k); [reflexivity|].
  destruct (str_eqb c k); reflexivity.
Qed.

Lemma merge_fold_parts (rs : list JsonResults) : forall m,
  let out := fold_left
    (fun m r => mkResults (original m) (fixed m) (errors_update (errors m) (errors r)))
    rs m in
  original out = original m /\ fixed out = fixed m
  /\ forall k, errors_get (errors out) k
     = match last_positions (flat_map errors rs) k with
       | Some ps => Some ps
       | None => errors_get (errors m) k
       end.
Proof.
  induction rs as [|r rest IH]; intros m; simpl.
  - auto.
  - destruct (IH (mkResults (original m) (fixed m) (errors_update (errors m) (errors r))))
      as (Ho & Hf & He).
    simpl in *. repeat split; [exact Ho | exact Hf |].
    intros k; rewrite He, last_positions_app, errors_update_get.
    destruct (last_positions (flat_map errors rest) k); reflexivity.
Qed.

Lemma last_positions_nodup errs c :
  NoDup (map fst errs) -> last_positions errs c = errors_get errs c.
Proof.
  induction errs as [|[k ps] rest IH]; simpl; intros H; [reflexivity|].
  inversion H as [|? ? Hn Hr]; subst.
  rewrite (IH Hr).
  destruct (str_eqb k c) eqn:E.
  - apply str_eqb_eq in E; subst k.
    destruct (errors_get rest c) eqn:G; [|reflexivity].
    exfalso; apply Hn. clear - G.
    induction rest as [|[k ps] rest IH]; simpl in *; [discriminate|].
    destruct (str_eqb k c) eqn:E; [left; apply str_eqb_eq; exact E | right; auto].
  - destruct (errors_get rest c); reflexivity.
Qed.

(** X2.  [_merge_results] returns a result with an empty original, the
    fixed texts joined in order, and for every error key the positions of
    the last pair that names it: positions recorded under the same key by
    earlier results are replaced, not accumulated. *)
Theorem merge_results_last_positions_win (results : list JsonResults) :
  original (_merge_results results) = []
  /\ fixed (_merge_results results) = List.concat (map fixed results)
  /\ (forall k, errors_get (errors (_merge_results results)) k
                = last_positions (flat_map errors results) k)
  /\ (forall earlier r k ps,
        results = earlier ++ [r] -> NoDup (map fst (errors r)) ->
        errors_get (errors r) k = Some ps ->
        errors_get (errors (_merge_results results)) k = Some ps).
Proof.
  unfold _merge_results.
  destruct (merge_fold_parts results
              (set_fixed (mkResults [] [] []) (List.concat (map fixed results))))
    as (Ho & Hf & He).
  simpl in *. repeat split; [exact Ho | exact Hf | |].
  - intros k; rewrite He. destruct (last_positions _ k); reflexivity.
  - intros earlier r k ps -> Hnd Hk.
    rewrite He, flat_map_app, last_positions_app. simpl. rewrite app_nil_r.
    rewrite (last_positions_nodup _ _ Hnd), Hk; reflexivity.
Qed.

(** ** Doubled quotes *)

Lemma last_char_snoc s c : last_char (s ++ [c]) = Some c.
Proof. unfold last_char; rewrite rev_app_distr; reflexivity. Qed.

Lemma has_doubled_quote_snoc s c :
  has_doubled_quote (s ++ [c])
  = (has_doubled_quote s
     || match last_char s with
        | Some p => is_plain_quote p && N.eqb p c
        | None => false
        end)%bool.
Proof.
  induction s as [|a s IH]; [reflexivity|].
  destruct s as [|b s'].
  - simpl. rewrite orb_false_r; reflexivity.
  - change ((a :: b :: s') ++ [c]) with (a :: (b :: s') ++ [c]).
    change (has_doubled_quote (a :: (b :: s') ++ [c]))
      with (is_plain_quote a && N.eqb a b || has_doubled_quote ((b :: s') ++ [c]))%bool.
    rewrite IH.
    change (has_doubled_quote (a :: b :: s'))
      with (is_plain_quote a && N.eqb a b || has_doubled_quote (b :: s'))%bool.
    replace (last_char (a :: b :: s')) with (last_char (b :: s')).
    + rewrite orb_assoc; reflexivity.
    + unfold last_char; simpl.
      destruct (rev s' ++ [b]) eqn:E; [destruct (rev s'); discriminate | reflexivity].
Qed.

Lemma dedup_loop_no_doubled s : forall result prev,
  has_doubled_quote result = false -> prev = last_char result ->
  has_doubled_quote (dedup_loop s result prev) = false.
Proof.
  induction s as [|c s IH]; intros result prev Hr Hp; simpl; [exact Hr|].
  destruct (is_plain_quote c && _)%bool eqn:E.
  - apply IH; assumption.
  - apply IH; [|rewrite last_char_snoc; reflexivity].
    rewrite has_doubled_quote_snoc, Hr; simpl.
    rewrite <- Hp. destruct prev as [p|]; [|reflexivity].
    destruct (N.eqb p c) eqn:Epc; [|apply andb_false_r].
    apply N.eqb_eq in Epc; subst p. rewrite andb_true_r in E |- *. exact E.
Qed.

Lemma dedup_loop_without_quotes s : forall result prev,
  without_quotes (dedup_loop s result prev) = without_quotes result ++ without_quotes s.
Proof.
  unfold without_quotes.
  induction s as [|c s IH]; intros result prev; simpl; [rewrite app_nil_r; reflexivity|].
  destruct (is_plain_quote c) eqn:Q; simpl.
  - destruct (match prev with Some p => N.eqb p c | None => false end);
      rewrite IH; [reflexivity|].
    rewrite filter_app; simpl; rewrite Q; simpl; rewrite app_nil_r; reflexivity.
  - rewrite IH, filter_app; simpl; rewrite Q; simpl.
    rewrite <- app_assoc; reflexivity.
Qed.

Lemma dedup_loop_keeps s : forall result prev,
  has_doubled_quote (match prev with Some p => p :: s | None => s end) = false ->
  dedup_loop s result prev = result ++ s.
Proof.
  induction s as [|c s IH]; intros result prev H; simpl; [rewrite app_nil_r; reflexivity|].
  assert (Hc : (is_plain_quote c
                && match prev with Some p => N.eqb p c | None => false end)%bool = false).
  { destruct prev as [p|]; [|apply andb_false_r].
    simpl in H. apply orb_false_elim in H as [H _].
    destruct (N.eqb p c) eqn:E; [|apply andb_false_r].
    apply N.eqb_eq in E; subst p. rewrite andb_true_r in H |- *; exact H. }
  rewrite Hc, IH.
  - rewrite <- app_assoc; reflexivity.
  - destruct prev as [p|]; [|exact H].
    simpl in H. apply orb_false_elim in H as [_ H]. exact H.
Qed.

Section QuoteFacts.

Context {L : PyLib}.

(** X3.  With a result at hand, [_remove_duplicate_quotes] returns an
    empty fixed text as it is, printing nothing; otherwise it returns None,
    prints the new text and stores it.  The new text has no two equal
    neighbouring plain quotes, keeps every other character in order, and
    is the old text when that had no doubled quote, so that a second call
    changes nothing more. *)
Theorem remove_duplicate_quotes_collapses_runs (self : JsonFixer) (r : JsonResults) :
  result self = Some r ->
  let out := dedup_loop (fixed r) [] None in
  _remove_duplicate_quotes self
  = match fixed r with
    | [] => Ok (Some [], []) self
    | _ => Ok (None, [out]) (set_result self (Some (set_fixed r out)))
    end
  /\ has_doubled_quote out = false
  /\ without_quotes out = without_quotes (fixed r)
  /\ (has_doubled_quote (fixed r) = false -> out = fixed r)
  /\ dedup_loop out [] None = out.
Proof.
  intros Hr out.
  assert (Hnd : has_doubled_quote out = false)
    by (apply dedup_loop_no_doubled; reflexivity).
  repeat split.
  - unfold _remove_duplicate_quotes; rewrite Hr; destruct (fixed r); reflexivity.
  - exact Hnd.
  - unfold out; rewrite dedup_loop_without_quotes; reflexivity.
  - intros H; unfold out; rewrite dedup_loop_keeps by exact H; reflexivity.
  - rewrite dedup_loop_keeps by exact Hnd; reflexivity.
Qed.

End QuoteFacts.

Lemma remove_duplicate_quotes_collapses_runs_witness :
  let r := mkResults [] (pyq "{``a``: 'b''}") [] in
  let self := set_result fresh (Some r) in
  let out := dedup_loop (fixed r) [] None in
  out = pyq "{`a`: 'b'}"
  /\ (_remove_duplicate_quotes self
      = match fixed r with
        | [] => Ok (Some [], []) self
        | _ => Ok (None, [out]) (set_result self (Some (set_fixed r out)))
        end
      /\ has_doubled_quote out = false
      /\ without_quotes out = without_quotes (fixed r)
      /\ (has_doubled_quote (fixed r) = false -> out = fixed r)
      /\ dedup_loop out [] None = out).
Proof.
  split; [vm_compute; reflexivity|].
  exact (@remove_duplicate_quotes_collapses_runs ref_lib
           (set_result fresh (Some (mkResults [] (pyq "{``a``: 'b''}") [])))
           (mkResults [] (pyq "{``a``: 'b''}") []) eq_refl).
Defined.

(** ** The error tracker, the string cleaner and the number reader *)

Lemma firstn_min (s : pystr) k : firstn (Nat.min (List.length s) k) s = firstn k s.
Proof.
  destruct (Nat.le_gt_cases k (List.length s)).
  - rewrite Nat.min_r by lia; reflexivity.
  - rewrite Nat.min_l by lia. rewrite !firstn_all2 by lia; reflexivity.
Qed.

Lemma skipn_min (l : pystr) a n :
  List.length l <= n -> skipn (Nat.min a n) l = skipn a l.
Proof.
  intros H. destruct (Nat.le_gt_cases a n).
  - rewrite Nat.min_l by lia; reflexivity.
  - rewrite Nat.min_r by lia. rewrite !skipn_all2 by lia; reflexivity.
Qed.

Lemma context_window (s : pystr) (pos : Z) :
  (0 <= pos)%Z ->
  py_slice s (Z.max 0 (pos - 10)) (Z.min (Z.of_nat (List.length s)) (pos + 10))
  = skipn (Z.to_nat (pos - 10)) (firstn (Z.to_nat (pos + 10)) s).
Proof.
  intros Hp. unfold py_slice, clamp_index.
  destruct (Z.ltb_spec (Z.max 0 (pos - 10)) 0); [lia|].
  destruct (Z.ltb_spec (Z.min (Z.of_nat (List.length s)) (pos + 10)) 0); [lia|].
  replace (Z.to_nat (Z.min (Z.min (Z.of_nat (List.length s)) (pos + 10))
                           (Z.of_nat (List.length s))))
    with (Nat.min (List.length s) (Z.to_nat (pos + 10))) by lia.
  rewrite firstn_min.
  replace (Z.to_nat (Z.min (Z.max 0 (pos - 10)) (Z.of_nat (List.length s))))
    with (Nat.min (Z.to_nat (pos - 10)) (List.length s)) by lia.
  apply skipn_min. rewrite length_firstn. lia.
Qed.

Lemma dropwhile_spec p (s : pystr) :
  exists a, s = a ++ dropwhile p s /\ forallb p a = true
            /\ forall c, hd_error (dropwhile p s) = Some c -> p c = false.
Proof.
  induction s as [|x s (a & Hs & Ha & Hh)]; simpl.
  - exists []. repeat split. discriminate.
  - destruct (p x) eqn:E.
    + exists (x :: a). simpl. rewrite E, Ha, <- Hs. repeat split. exact Hh.
    + exists []. repeat split. simpl. intros c [= <-]. exact E.
Qed.

Lemma forallb_rev p (s : pystr) : forallb p s = true -> forallb p (rev s) = true.
Proof.
  rewrite !forallb_forall. intros H x Hx. apply H, in_rev. exact Hx.
Qed.

(** [strip] cuts a prefix and a suffix of strippable characters, as far
    as it can on both sides. *)
Lemma strip_with_spec p (s : pystr) :
  exists a b,
    s = a ++ strip_with p s ++ b
    /\ forallb p a = true /\ forallb p b = true
    /\ (forall c, hd_error (strip_with p s) = Some c -> p c = false)
    /\ (forall c, last_char (strip_with p s) = Some c -> p c = false).
Proof.
  unfold strip_with.
  destruct (dropwhile_spec p s) as (a & Hs & Ha & Hh).
  destruct (dropwhile_spec p (rev (dropwhile p s))) as (b & Hr & Hb & Hl).
  set (t := dropwhile p s) in *. set (u := dropwhile p (rev t)) in *.
  assert (Ht : t = rev u ++ rev b)
    by (rewrite <- rev_app_distr, <- Hr, rev_involutive; reflexivity).
  exists a, (rev b). repeat split.
  - rewrite <- Ht. exact Hs.
  - exact Ha.
  - apply forallb_rev; exact Hb.
  - intros c Hc. apply Hh. rewrite Ht.
    destruct (rev u); [discriminate | exact Hc].
  - intros c Hc. apply Hl. unfold last_char in Hc. rewrite rev_involutive in Hc.
    destruct u; [discriminate | injection Hc as <-; reflexivity].
Qed.

Lemma dropwhile_stays p (s : pystr) :
  (forall c, hd_error s = Some c -> p c = false) -> dropwhile p s = s.
Proof.
  destruct s as [|x s]; [reflexivity|]. intros H. simpl. rewrite (H x eq_refl). reflexivity.
Qed.

Lemma strip_with_idempotent p (s : pystr) :
  strip_with p (strip_with p s) = strip_with p s.
Proof.
  destruct (strip_with_spec p s) as (_ & _ & _ & _ & _ & Hh & Hl).
  set (t := strip_with p s) in *. unfold strip_with at 1.
  rewrite (dropwhile_stays p t Hh).
  rewrite dropwhile_stays; [apply rev_involutive|].
  intros c Hc. apply Hl. unfold last_char. destruct (rev t); [discriminate|].
  injection Hc as <-. reflexivity.
Qed.

Lemma remove_char_absent c (s : pystr) : existsb (N.eqb c) (remove_char c s) = false.
Proof.
  unfold remove_char. induction s as [|x s IH]; simpl; [reflexivity|].
  destruct (N.eqb x c) eqn:E; simpl; [exact IH|].
  rewrite N.eqb_sym, E, IH; reflexivity.
Qed.

Lemma remove_char_keeps_absent c d (s : pystr) :
  existsb (N.eqb d) s = false -> existsb (N.eqb d) (remove_char c s) = false.
Proof.
  unfold remove_char. induction s as [|x s IH]; simpl; [reflexivity|].
  intros H. apply orb_false_elim in H as [H1 H2].
  destruct (negb (N.eqb x c)); simpl; [rewrite H1|]; auto.
Qed.

Lemma take_while_spec p (s : pystr) :
  exists rest,
    s = take_while p s ++ rest
    /\ forallb p (take_while p s) = true
    /\ forall c, hd_error rest = Some c -> p c = false.
Proof.
  induction s as [|x s (rest & Hs & Hp & Hh)]; simpl.
  - exists []. repeat split. discriminate.
  - destruct (p x) eqn:E.
    + exists rest. simpl. rewrite E, Hp, <- Hs. repeat split. exact Hh.
    + exists (x :: s). repeat split. simpl. intros c [= <-]. exact E.
Qed.

Lemma lower_has_e (s : pystr) :
  existsb (N.eqb (chr "e")) (lower s)
  = existsb (fun c => (N.eqb c (chr "e") || N.eqb c (chr "E"))%bool) s.
Proof.
  unfold lower. induction s as [|x s IH]; cbn [map existsb]; [reflexivity|].
  rewrite IH. f_equal. unfold lower_char.
  destruct (N.leb 65 x && N.leb x 90)%bool eqn:E.
  - apply andb_true_iff in E as [E1 E2].
    apply N.leb_le in E1, E2.
    destruct (N.eqb_spec x (chr "E")) as [->|Hn]; [reflexivity|].
    rewrite orb_false_r.
    destruct (N.eqb_spec (chr "e") (x + 32)) as [He|He];
      destruct (N.eqb_spec x (chr "e")) as [Hx|Hx]; try reflexivity;
      change (chr "e") with 101%N in *; change (chr "E") with 69%N in *; lia.
  - destruct (N.eqb_spec x (chr "E")) as [->|Hn]; [discriminate|].
    rewrite orb_false_r. apply N.eqb_sym.
Qed.

Section SmallMethods.

Context {L : PyLib}.

#[local] Abbreviation value := (Value pyfloat).

(** X4.  With a result at hand, [_track_error] adds the position to the
    result and moves neither the cursor nor the cache nor the failure
    file.  Without logging the log is untouched; with logging exactly one
    entry is appended, whose context is the text from ten characters
    before the position to ten after it, cut at the ends of the text (at
    most twenty characters), or the words Unknown context for a negative
    position. *)
Theorem track_error_logs_a_bounded_context c pos (self : JsonFixer) r :
  result self = Some r ->
  let self' := _track_error c pos self in
  result self' = Some (add_error r c pos)
  /\ same_cursor self' self
  /\ parse_cache self' = parse_cache self
  /\ failed_json self' = failed_json self
  /\ (logging self = false -> logger self' = logger self)
  /\ (logging self = true ->
      exists e, logger self' = logger self ++ [e]
        /\ List.length (log_context e) <= 20
        /\ ((0 <= pos)%Z ->
            log_context e
            = skipn (Z.to_nat (pos - 10)) (firstn (Z.to_nat (pos + 10)) (json_str self)))
        /\ ((pos < 0)%Z -> log_context e = py "Unknown context")).
Proof.
  intros Hr self'. subst self'. unfold _track_error, same_cursor. rewrite Hr.
  destruct (logging self) eqn:Hl; cbn [result set_result set_logger index json_str
                                      parse_cache failed_json logger];
    repeat split; try discriminate.
  intros _. eexists; split; [reflexivity|]. cbn [log_context].
  destruct (Z.leb_spec 0 pos) as [Hp|Hp].
  - rewrite (context_window _ _ Hp). repeat split; [|lia].
    rewrite length_skipn, length_firstn. lia.
  - repeat split; [|lia]. vm_compute. lia.
Qed.

(** X5.  [_cleanup_string] returns a falsy argument as it is and raises
    AttributeError on a truthy argument that is no string; the fixer is
    never touched.  Of a string it strips the blanks; a key then loses
    every colon and semicolon, any other string the quotes and backslashes
    at both ends, as far as they reach. *)
Theorem cleanup_string_strips_to_the_core (s : value) (is_key : bool) (self : JsonFixer) :
  (truthy s = false -> _cleanup_string s is_key self = Ok s self)
  /\ (truthy s = true -> (forall str, s <> VStr str) ->
      exists m, _cleanup_string s is_key self = Raised (AttributeError m) self)
  /\ (forall str, s = VStr str -> str <> [] ->
      exists out,
        _cleanup_string s is_key self = Ok (VStr out) self
        /\ (is_key = true ->
            out = remove_char (chr ";") (remove_char (chr ":") (strip str))
            /\ existsb (N.eqb (chr ":")) out = false
            /\ existsb (N.eqb (chr ";")) out = false)
        /\ (is_key = false ->
            exists a b,
              strip str = a ++ out ++ b
              /\ forallb quote_or_backslash a = true
              /\ forallb quote_or_backslash b = true
              /\ (forall c, hd_error out = Some c -> quote_or_backslash c = false)
              /\ (forall c, last_char out = Some c -> quote_or_backslash c = false))).
Proof.
  unfold _cleanup_string, ret, raise. repeat split.
  - intros ->; reflexivity.
  - intros Ht Hn. rewrite Ht. cbn [negb].
    destruct s; try (eexists; reflexivity). exfalso; exact (Hn _ eq_refl).
  - intros str -> Hne. destruct str as [|x xs]; [contradiction|]. cbn [truthy negb].
    eexists; split; [reflexivity|]. split.
    + intros ->. repeat split.
      * apply remove_char_keeps_absent, remove_char_absent.
      * apply remove_char_absent.
    + intros ->. apply strip_with_spec.
Qed.

(** X6.  [parse_number] never raises.  It reads the longest run of
    digits and of the characters [.-eE] that starts at the cursor and
    stops right behind it.  A run without dot and exponent letter is
    returned as the int it converts to, a run with one as the float it
    converts to; a run that does not convert gives the int 0. *)
Theorem parse_number_reads_the_longest_run (self : JsonFixer) :
  exists run rest,
    skipn (index self) (json_str self) = run ++ rest
    /\ forallb number_char run = true
    /\ (forall c, hd_error rest = Some c -> number_char c = false)
    /\ parse_number self
       = Ok (if has_float_mark run
             then match float_of_str run with Some f => VFloat f | None => VInt 0 end
             else match int_of_str run with Some z => VInt z | None => VInt 0 end)
            (set_index self (index self + List.length run)).
Proof.
  destruct (take_while_spec number_char (skipn (index self) (json_str self)))
    as (rest & Hs & Hp & Hh).
  unfold parse_number.
  set (run := take_while number_char (skipn (index self) (json_str self))) in *.
  exists run, rest. split; [exact Hs|]. split; [exact Hp|]. split; [exact Hh|].
  rewrite lower_has_e.
  assert (He : has_float_mark run
               = (existsb (N.eqb (chr ".")) run
                  || existsb (fun c => (N.eqb c (chr "e") || N.eqb c (chr "E"))%bool) run)%bool).
  { clear. unfold has_float_mark.
    induction run as [|x run IH]; cbn [existsb]; [reflexivity|].
    rewrite IH. unfold is_chr. rewrite (N.eqb_sym (chr ".") x).
    destruct (N.eqb x (chr ".")), (N.eqb x (chr "e")), (N.eqb x (chr "E")); simpl;
      rewrite ?orb_true_r; reflexivity. }
  rewrite He.
  destruct (existsb (N.eqb (chr ".")) run);
    destruct (existsb (fun c => (N.eqb c (chr "e") || N.eqb c (chr "E"))%bool) run);
    cbn [negb andb orb].
  4: { destruct (int_of_str run); reflexivity. }
  all: destruct (float_of_str run); reflexivity.
Qed.

End SmallMethods.

Lemma track_error_logs_a_bounded_context_witness :
  let self := set_result (set_json_str (new_fixer true) (py "{a: 'b, c: 1, d: [1, 2, 3], e: 5}"))
                         (Some (mkResults [] [] [])) in
  let self' := _track_error (py "'") 4 self in
  map log_context (logger self') = [py "{a: 'b, c: 1, "]
  /\ (result self' = Some (add_error (mkResults [] [] []) (py "'") 4)
      /\ same_cursor self' self
      /\ parse_cache self' = parse_cache self
      /\ failed_json self' = failed_json self
      /\ (logging self = false -> logger self' = logger self)
      /\ (logging self = true ->
          exists e, logger self' = logger self ++ [e]
            /\ List.length (log_context e) <= 20
            /\ ((0 <= 4)%Z ->
                log_context e
                = skipn (Z.to_nat (4 - 10)) (firstn (Z.to_nat (4 + 10)) (json_str self)))
            /\ ((4 < 0)%Z -> log_context e = py "Unknown context"))).
Proof.
  split; [vm_compute; reflexivity|].
  exact (@track_error_logs_a_bounded_context ref_lib (py "'") 4
           (set_result (set_json_str (new_fixer true) (py "{a: 'b, c: 1, d: [1, 2, 3], e: 5}"))
                       (Some (mkResults [] [] [])))
           (mkResults [] [] []) eq_refl).
Defined.

(** ** What the parsing methods read and what they leave alone *)

Section ParseRelational.

Context {L : PyLib}.

#[local] Abbreviation value := (Value pyfloat).
#[local] Abbreviation key := (Key pyfloat).

Variable R : JsonFixer -> JsonFixer -> Prop.

Hypothesis R_cursor : forall a b, R a b -> same_cursor a b.
Hypothesis R_index : forall a b i, R a b -> R (set_index a i) (set_index b i).
Hypothesis R_track : forall a b c pos,
  R a b -> in_delimiters c = true -> pos < List.length (json_str a) ->
  R (_track_error [c] (Z.of_nat pos) a) (_track_error [c] (Z.of_nat pos) b).

Lemma advance_related a b : R a b -> R (advance a) (advance b).
Proof.
  intros H. destruct (R_cursor _ _ H) as [_ Hi]. unfold advance.
  rewrite <- Hi. apply R_index; exact H.
Qed.

Lemma skip_while_related p a b : R a b -> R (skip_while p a) (skip_while p b).
Proof.
  intros H. destruct (R_cursor _ _ H) as [Hj Hi]. unfold skip_while.
  rewrite <- Hj, <- Hi. apply R_index; exact H.
Qed.

Lemma cleanup_string_related (s : value) is_key a b :
  R a b -> related R (_cleanup_string s is_key a) (_cleanup_string s is_key b).
Proof.
  intros H. unfold _cleanup_string, ret, raise.
  destruct (negb (truthy s)); [split; auto|].
  destruct s; split; auto.
Qed.

Lemma parse_string_related a b :
  R a b -> related R (parse_string a) (parse_string b).
Proof.
  intros H. destruct (R_cursor _ _ H) as [Hj Hi]. unfold parse_string.
  rewrite <- Hj, <- Hi.
  destruct (nth_error (json_str a) (index a)) as [c0|] eqn:E0; [|split; auto].
  destruct (string_loop _ _ _ _ _ _) as [[string stop] found_end].
  assert (H2 : R (if (in_delimiters c0 && negb found_end)%bool
                  then _track_error [c0] (Z.of_nat (index a)) (set_index a stop)
                  else set_index a stop)
                 (if (in_delimiters c0 && negb found_end)%bool
                  then _track_error [c0] (Z.of_nat (index a)) (set_index b stop)
                  else set_index b stop)).
  { destruct (in_delimiters c0) eqn:Ed; cbn [andb]; [|apply R_index; exact H].
    destruct found_end; cbn [negb]; [apply R_index; exact H|].
    apply R_track; [apply R_index; exact H | exact Ed |].
    cbn [json_str set_index]. apply (nth_error_in_range _ _ _ E0). }
  match goal with
  | |- context [match ?n with Some _ => _ | None => _ end] => destruct n
  end.
  - split; [reflexivity | exact H2].
  - apply cleanup_string_related; exact H2.
Qed.

Lemma parse_number_related a b :
  R a b -> related R (parse_number a) (parse_number b).
Proof.
  intros H. destruct (R_cursor _ _ H) as [Hj Hi]. unfold parse_number.
  rewrite <- Hj, <- Hi.
  match goal with
  | |- context [match ?n with Some _ => _ | None => _ end] => destruct n
  end; (split; [reflexivity | apply R_index; exact H]).
Qed.

Lemma parse_related fuel :
  (forall a b, R a b -> related R (parse fuel a) (parse fuel b))
  /\ (forall obj ek ck a b,
        R a b ->
        related R (parse_object_loop fuel obj ek ck a) (parse_object_loop fuel obj ek ck b))
  /\ (forall arr a b,
        R a b -> related R (parse_array_loop fuel arr a) (parse_array_loop fuel arr b)).
Proof.
  induction fuel as [|fuel (IHp & IHo & IHa)]; [repeat split|].
  split; [|split].
  - intros a b H. rewrite !parse_eq.
    destruct (R_cursor _ _ H) as [Hj Hi]. rewrite <- Hj, <- Hi.
    destruct (nth_error (json_str a) (index a)) as [c|]; [|split; auto].
    destruct (isspace c); [apply IHp, advance_related, H|].
    destruct (is_chr c "{"); [apply IHo, advance_related, H|].
    destruct (is_chr c "["); [apply IHa, advance_related, H|].
    destruct (in_delimiters c || isalpha c)%bool; [apply parse_string_related, H|].
    destruct (isdigit c || char_in c ".-")%bool; [apply parse_number_related, H|].
    apply IHp, advance_related, H.
  - intros obj ek ck a b H. rewrite !parse_object_loop_eq.
    destruct (R_cursor _ _ H) as [Hj Hi]. rewrite <- Hj, <- Hi.
    destruct (nth_error (json_str a) (index a)) as [c|]; [|split; auto].
    destruct (isspace c || is_chr c ",")%bool; [apply IHo, advance_related, H|].
    destruct (is_chr c "}"); [split; [reflexivity | apply advance_related, H]|].
    destruct ek.
    + unfold bind. pose proof (parse_string_related a b H) as Hs.
      destruct (parse_string a) as [v1 s1|e1 s1|], (parse_string b) as [v2 s2|e2 s2|];
        cbn [related] in Hs; try contradiction; try exact Hs.
      destruct Hs as [<- Hs].
      pose proof (cleanup_string_related v1 true s1 s2 Hs) as Hc.
      destruct (_cleanup_string v1 true s1) as [k1 t1|e1 t1|],
               (_cleanup_string v1 true s2) as [k2 t2|e2 t2|];
        cbn [related] in Hc; try contradiction; try exact Hc.
      destruct Hc as [<- Hc]. apply IHo, Hc.
    + destruct (is_chr c ":"); [apply IHo, advance_related, H|].
      pose proof (IHp a b H) as Hp.
      destruct (parse fuel a) as [v1 s1|e1 s1|], (parse fuel b) as [v2 s2|e2 s2|];
        cbn [related] in Hp; try contradiction; try exact Hp.
      destruct Hp as [<- Hp].
      destruct ck as [k|]; [|apply IHo, Hp].
      destruct (is_none v1); [apply IHo, Hp|].
      destruct (to_key k); [apply IHo, Hp | split; [reflexivity | exact Hp]].
  - intros arr a b H. rewrite !parse_array_loop_eq.
    destruct (R_cursor _ _ H) as [Hj Hi]. rewrite <- Hj, <- Hi.
    destruct (nth_error (json_str a) (index a)) as [c0|]; [|split; auto].
    cbv zeta.
    pose proof (skip_while_related isspace a b H) as H1.
    destruct (R_cursor _ _ H1) as [Hj1 Hi1]. rewrite <- Hj1, <- Hi1.
    destruct (nth_error (json_str (skip_while isspace a)) (index (skip_while isspace a)))
      as [c|]; [|split; [reflexivity | apply advance_related, H1]].
    destruct (is_chr c "]"); [split; [reflexivity | apply advance_related, H1]|].
    pose proof (IHp _ _ H1) as Hp.
    destruct (parse fuel (skip_while isspace a)) as [v1 s1|e1 s1|],
             (parse fuel (skip_while isspace b)) as [v2 s2|e2 s2|];
      cbn [related] in Hp; try contradiction; try exact Hp.
    destruct Hp as [<- Hp]. apply IHa, skip_while_related, Hp.
Qed.

End ParseRelational.

Section ParseInvariant.

Context {L : PyLib}.

#[local] Abbreviation value := (Value pyfloat).
#[local] Abbreviation key := (Key pyfloat).

Variable P : JsonFixer -> Prop.

Hypothesis P_index : forall s i, P s -> P (set_index s i).
Hypothesis P_track : forall s c pos,
  P s -> in_delimiters c = true -> pos < List.length (json_str s) ->
  P (_track_error [c] (Z.of_nat pos) s).

Lemma related_diagonal {A} (r : res A) :
  related (fun a b => a = b /\ P a) r r -> leaves P r.
Proof. destruct r; cbn; tauto. Qed.

Lemma parse_invariant fuel :
  (forall self, P self -> leaves P (parse fuel self))
  /\ (forall obj ek ck self, P self -> leaves P (parse_object_loop fuel obj ek ck self))
  /\ (forall arr self, P self -> leaves P (parse_array_loop fuel arr self)).
Proof.
  destruct (parse_related (fun a b => a = b /\ P a)) with (fuel := fuel)
    as (Hp & Ho & Ha).
  - intros a b [-> _]. split; reflexivity.
  - intros a b i [-> H]. split; [reflexivity | apply P_index, H].
  - intros a b c pos [-> H] Hc Hpos. split; [reflexivity | apply P_track; assumption].
  - repeat split; intros; apply related_diagonal; auto.
Qed.

End ParseInvariant.

Section ParseFrame.

Context {L : PyLib}.

#[local] Abbreviation value := (Value pyfloat).

(** X7.  What the three parsing methods return, raise, and where they
    leave the cursor depends on the text and the cursor only: not on the
    result, the log, the cache or the logging flag of the fixer. *)
Theorem parse_reads_only_text_and_cursor fuel (a b : JsonFixer) :
  same_cursor a b ->
  agree (parse fuel a) (parse fuel b)
  /\ (forall obj ek ck,
        agree (parse_object_loop fuel obj ek ck a) (parse_object_loop fuel obj ek ck b))
  /\ (forall arr, agree (parse_array_loop fuel arr a) (parse_array_loop fuel arr b)).
Proof.
  intros H. unfold agree.
  destruct (parse_related same_cursor) with (fuel := fuel) as (Hp & Ho & Ha).
  - auto.
  - intros x y i [Hj Hi]. split; [exact Hj | reflexivity].
  - intros x y c pos [Hj Hi] _ _. unfold same_cursor.
    rewrite !track_error_json_str, !track_error_index. auto.
  - repeat split; auto.
Qed.

(** X8.  The parsing methods never change the text, the logging flag,
    the cache or the failure file.  They leave the log alone when logging
    is off, and with no result at hand they change nothing but the
    cursor. *)
Theorem parse_changes_only_cursor_and_errors fuel (self : JsonFixer) :
  let kept s :=
    same_frame self s
    /\ (logging self = false -> logger s = logger self)
    /\ (result self = None -> result s = None /\ logger s = logger self) in
  leaves kept (parse fuel self)
  /\ (forall obj ek ck, leaves kept (parse_object_loop fuel obj ek ck self))
  /\ (forall arr, leaves kept (parse_array_loop fuel arr self)).
Proof.
  intros kept.
  assert (H0 : kept self) by (unfold kept, same_frame; repeat split; auto).
  destruct (parse_invariant kept) with (fuel := fuel) as (Hp & Ho & Ha).
  - intros s i (Hf & Hl & Hr). unfold kept, same_frame in *. cbn. auto.
  - intros s c pos ((Hj & Hg & Hc & Hf) & Hl & Hr) _ _.
    unfold kept, same_frame, _track_error.
    destruct (result s) as [r|] eqn:Er;
      [|split; [repeat split; assumption | split; [exact Hl | rewrite Er; exact Hr]]].
    assert (Hn : result self = None -> False)
      by (intros E; destruct (Hr E); congruence).
    destruct (logging s) eqn:El;
      cbn [json_str logging parse_cache failed_json logger result set_result set_logger];
      (split; [repeat split; congruence | split; [|intros E; destruct (Hn E)]]).
    + intros E. congruence.
    + exact Hl.
  - repeat split; auto.
Qed.

End ParseFrame.

Lemma parse_reads_only_text_and_cursor_witness :
  let text := py "{a: 'b, c: [1, x]}" in
  let a := at_start fresh text in
  let b := at_start (set_result (new_fixer true) (Some (mkResults [] [] []))) text in
  same_cursor a b
  /\ errors_of (bind (parse 40) (fun _ => return_result) b) = Some [(py "'", [4%Z])]
  /\ (agree (parse 40 a) (parse 40 b)
      /\ (forall obj ek ck,
            agree (parse_object_loop 40 obj ek ck a) (parse_object_loop 40 obj ek ck b))
      /\ (forall arr, agree (parse_array_loop 40 arr a) (parse_array_loop 40 arr b))).
Proof.
  split; [split; reflexivity|]. split; [vm_compute; reflexivity|].
  apply (@parse_reads_only_text_and_cursor ref_lib 40).
  split; reflexivity.
Defined.

(** ** Quoted strings *)

Lemma skipn_cons_nth (s : pystr) i c r :
  skipn i s = c :: r -> nth_error s i = Some c /\ skipn (i + 1) s = r.
Proof.
  revert i; induction s as [|x s IH]; intros [|i]; simpl; try discriminate.
  - intros [= -> ->]. auto.
  - apply IH.
Qed.

Lemma in_delimiters_quote c :
  in_delimiters c = true -> c = dquote \/ c = squote.
Proof.
  unfold in_delimiters, STRING_DELIMITERS. cbn [existsb str_eqb py map list_ascii_of_string].
  rewrite !andb_true_r, andb_false_r, !orb_false_r.
  intros H. apply orb_true_iff in H as [H|H]; apply N.eqb_eq in H; auto.
Qed.

Section QuotedStrings.

Context {L : PyLib}.

#[local] Abbreviation value := (Value pyfloat).

Lemma string_loop_quoted q tail (body : pystr) : forall i acc,
  existsb (N.eqb q) body = false ->
  existsb (N.eqb backslash) body = false ->
  (forall c, hd_error tail = Some c -> c = q) ->
  q <> backslash ->
  string_loop true q (body ++ tail) i false acc
  = match tail with
    | [] => (acc ++ body, i + List.length body, false)
    | _ => (acc ++ body, i + List.length body + 1, true)
    end.
Proof.
  intros i acc Hq Hb Ht Hne. revert i acc.
  induction body as [|c body IH]; intros i acc.
  - cbn [app List.length]. rewrite app_nil_r, Nat.add_0_r.
    destruct tail as [|c tail]; [reflexivity|].
    rewrite (Ht c eq_refl). cbn [string_loop].
    destruct (N.eqb_spec q backslash) as [E|_]; [contradiction|].
    rewrite N.eqb_refl. reflexivity.
  - cbn [existsb] in Hq, Hb.
    apply orb_false_elim in Hq as [Hq1 Hq2]. apply orb_false_elim in Hb as [Hb1 Hb2].
    cbn [app string_loop List.length].
    rewrite (N.eqb_sym c backslash), Hb1, (N.eqb_sym c q), Hq1. cbn [andb negb].
    rewrite (IH Hq2 Hb2), <- app_assoc.
    destruct tail; cbn [app]; (apply f_equal2; [apply f_equal2; [reflexivity | lia] | reflexivity]).
Qed.

(** X9.  At an opening quote whose body holds neither that quote nor a
    backslash, [parse_string] returns the body stripped of blanks and then
    of quotes and backslashes at both ends.  When the closing quote is
    there, the cursor ends right behind it and nothing else changes; when
    the text ends first, the cursor ends at the end and one error is
    tracked, for the quote at the place where it opened. *)
Theorem parse_string_reads_a_quoted_body (self : JsonFixer) q body tail :
  in_delimiters q = true ->
  skipn (index self) (json_str self) = q :: body ++ tail ->
  existsb (N.eqb q) body = false ->
  existsb (N.eqb backslash) body = false ->
  (forall c, hd_error tail = Some c -> c = q) ->
  parse_string self
  = Ok (VStr (strip_with quote_or_backslash (strip body)))
       (match tail with
        | [] => _track_error [q] (Z.of_nat (index self))
                  (set_index self (index self + 1 + List.length body))
        | _ => set_index self (index self + 1 + List.length body + 1)
        end).
Proof.
  intros Hd Hs Hq Hb Ht. unfold parse_string.
  destruct (skipn_cons_nth _ _ _ _ Hs) as [E0 Hrest].
  rewrite E0, Hd, Hrest.
  assert (Hne : q <> backslash)
    by (destruct (in_delimiters_quote _ Hd) as [-> | ->]; discriminate).
  rewrite (string_loop_quoted q tail body _ _ Hq Hb Ht Hne). cbn [app].
  assert (Hc : forall s : JsonFixer,
             _cleanup_string (VStr (strip body)) false s
             = Ok (VStr (strip_with quote_or_backslash (strip body))) s).
  { intros s. unfold _cleanup_string, ret.
    destruct (strip body) eqn:E; [reflexivity|]. cbn [truthy negb].
    rewrite <- E. unfold strip. rewrite strip_with_idempotent. reflexivity. }
  destruct tail; cbn [andb negb]; apply Hc.
Qed.

End QuotedStrings.

Lemma parse_string_reads_a_quoted_body_witness :
  let text := pyq "{`name`: ` 'Ann' `, `note`: `open" in
  let closed := set_index (at_start fresh text) 9 in
  let unclosed := set_index (at_start fresh text) 28 in
  (in_delimiters dquote = true
   /\ skipn (index closed) (json_str closed) = dquote :: py " 'Ann' " ++ skipn 17 text
   /\ parse_string closed = Ok (VStr (py "Ann")) (set_index closed 18))
  /\ parse_string unclosed
     = Ok (VStr (strip_with quote_or_backslash (strip (py "open"))))
          (_track_error [dquote] (Z.of_nat (index unclosed))
             (set_index unclosed (index unclosed + 1 + List.length (py "open")))).
Proof.
  split.
  - split; [reflexivity|]. split; [reflexivity|].
    apply (@parse_string_reads_a_quoted_body ref_lib
             (set_index (at_start fresh (pyq "{`name`: ` 'Ann' `, `note`: `open")) 9)
             dquote (py " 'Ann' ")
             (skipn 17 (pyq "{`name`: ` 'Ann' `, `note`: `open")));
      try reflexivity.
    intros c H. simpl in H. congruence.
  - apply (@parse_string_reads_a_quoted_body ref_lib
             (set_index (at_start fresh (pyq "{`name`: ` 'Ann' `, `note`: `open")) 28)
             dquote (py "open") []);
      try reflexivity.
    intros c H. simpl in H. discriminate.
Defined.

(** ** The repair cache *)

Section CacheFacts.

Context {L : PyLib}.

#[local] Abbreviation value := (Value pyfloat).

Lemma cache_lookup_store (c : list (pystr * value)) k v :
  cache_lookup (cache_store c k v) k = Some v.
Proof.
  unfold cache_store, cache_maxsize. rewrite firstn_cons.
  cbn [cache_lookup]. rewrite str_eqb_refl. reflexivity.
Qed.

Lemma cache_lookup_touch (c : list (pystr * value)) k v :
  cache_lookup (cache_touch c k v) k = Some v.
Proof. unfold cache_touch. cbn [cache_lookup]. rewrite str_eqb_refl. reflexivity. Qed.

Lemma cache_store_bounded (c : list (pystr * value)) k v :
  List.length (cache_store c k v) <= cache_maxsize.
Proof. unfold cache_store. rewrite length_firstn. lia. Qed.

Lemma cache_remove_shorter (c : list (pystr * value)) k v :
  cache_lookup c k = Some v -> List.length (cache_remove c k) < List.length c.
Proof.
  unfold cache_remove. induction c as [|[k' v'] c IH]; cbn [cache_lookup]; [discriminate|].
  cbn [filter fst]. destruct (str_eqb k' k); cbn [negb List.length].
  - intros _. pose proof (filter_length_le (fun kv => negb (str_eqb (fst kv) k)) c). lia.
  - intros H. specialize (IH H). lia.
Qed.

Lemma parse_same_frame fuel (self : JsonFixer) :
  leaves (same_frame self) (parse fuel self).
Proof.
  destruct (parse_invariant (same_frame self)) with (fuel := fuel) as (Hp & _ & _).
  - intros s i H. exact H.
  - intros s c pos (Hj & Hg & Hc & Hf) _ _. unfold same_frame, _track_error.
    destruct (result s); [|repeat split; assumption].
    destruct (logging s) eqn:El;
      cbn [json_str logging parse_cache failed_json set_logger set_result];
      repeat split; congruence.
  - apply Hp. repeat split.
Qed.

(** X10.  After [_cached_parse] has returned a value for a text, a second
    call for that text returns the same value from the cache: it parses
    nothing, so it neither moves the cursor, nor replaces the text under
    it, nor tracks any error; only the order of the cache changes.  The
    cache never grows beyond its 1024 entries. *)
Theorem cached_parse_repeats_without_parsing (text : pystr) (self : JsonFixer) v :
  value_of (_cached_parse text self) = Some v ->
  let self1 := state_of (_cached_parse text self) self in
  _cached_parse text self1
  = Ok v (set_parse_cache self1 (cache_touch (parse_cache self1) text v))
  /\ (List.length (parse_cache self) <= cache_maxsize ->
      List.length (parse_cache self1) <= cache_maxsize
      /\ List.length (cache_touch (parse_cache self1) text v) <= cache_maxsize).
Proof.
  intros Hv self1.
  assert (Hhit : cache_lookup (parse_cache self1) text = Some v
                 /\ (List.length (parse_cache self) <= cache_maxsize ->
                     List.length (parse_cache self1) <= cache_maxsize)).
  { subst self1. unfold _cached_parse in *.
    destruct (cache_lookup (parse_cache self) text) as [v0|] eqn:E.
    - cbn in Hv. injection Hv as ->. cbn [state_of parse_cache set_parse_cache].
      split; [apply cache_lookup_touch|].
      intros Hn. unfold cache_touch. cbn [List.length].
      pose proof (cache_remove_shorter _ _ _ E). lia.
    - destruct (parse (parse_fuel text) (set_index (set_json_str self text) 0))
        as [v0 s2|e s2|]; try discriminate.
      cbn in Hv. injection Hv as ->. cbn [state_of parse_cache set_parse_cache].
      split; [apply cache_lookup_store | intros _; apply cache_store_bounded]. }
  destruct Hhit as [Hhit Hlen]. split.
  - unfold _cached_parse at 1. rewrite Hhit. reflexivity.
  - intros Hn. split; [auto|].
    unfold cache_touch. cbn [List.length].
    pose proof (cache_remove_shorter _ _ _ Hhit). specialize (Hlen Hn). lia.
Qed.

End CacheFacts.

Lemma cached_parse_repeats_without_parsing_witness :
  let text := py "{a: 'b, c: 1}" in
  let self := set_result fresh (Some (mkResults text text [])) in
  let self1 := state_of (_cached_parse text self) self in
  value_of (_cached_parse text self) = Some (VObj [(KStr (py "a"), VStr (py "b, c: 1}"))])
  /\ option_map errors (result self1) = Some [(py "'", [4%Z])]
  /\ option_map errors (result (state_of (_cached_parse text self1) self1))
     = Some [(py "'", [4%Z])]
  /\ value_of (_cached_parse text self1)
     = Some (VObj [(KStr (py "a"), VStr (py "b, c: 1}"))]).
Proof.
  split; [vm_compute; reflexivity|].
  split; [vm_compute; reflexivity|].
  assert (H := @cached_parse_repeats_without_parsing ref_lib
                 (py "{a: 'b, c: 1}")
                 (set_result fresh (Some (mkResults (py "{a: 'b, c: 1}") (py "{a: 'b, c: 1}") [])))
                 (VObj [(KStr (py "a"), VStr (py "b, c: 1}"))])).
  cbv zeta in H.
  destruct H as [H _]; [vm_compute; reflexivity|].
  rewrite H. split; [vm_compute; reflexivity | reflexivity].
Defined.

(** ** What the structural scan and the pipeline record *)

Lemma last_in_stack {A} (bs : list A) b : In (last bs b) (b :: bs).
Proof.
  revert b; induction bs as [|x bs IH]; intros b; [left; reflexivity|].
  change (last (x :: bs) b) with (match bs with [] => x | _ => last bs b end).
  destruct bs as [|y bs']; [right; left; reflexivity|].
  right. replace (last (y :: bs') b) with (last (y :: bs') x); [apply IH|].
  clear. revert y; induction bs' as [|z bs' IH]; intros y; [reflexivity|].
  change (last (y :: z :: bs') x) with (last (z :: bs') x).
  change (last (y :: z :: bs') b) with (last (z :: bs') b). apply IH.
Qed.

Lemma Forall_removelast {A} (Q : A -> Prop) (l : list A) :
  Forall Q l -> Forall Q (removelast l).
Proof.
  induction l as [|x l IH]; intros H; [constructor|].
  inversion H as [|? ? Hx Hl]; subst. cbn [removelast].
  destruct l; [constructor | constructor; auto].
Qed.

Lemma scan_inv_weaken i j sc : i <= j -> scan_inv i sc -> scan_inv j sc.
Proof.
  intros Hij (Hq & Hqs & Hbs). unfold scan_inv. split; [exact Hq | split];
    (eapply Forall_impl; [|eassumption]); intros a [H1 H2]; (split; [assumption | lia]).
Qed.

Lemma errors_add_entries_ok N errs c pos :
  Forall (error_entry_ok N) errs -> List.length c = 1 -> (0 <= pos <= N)%Z ->
  Forall (error_entry_ok N) (errors_add errs c pos).
Proof.
  intros H Hc Hp. induction H as [|[k ps] rest [Hk Hps] Hrest IH]; cbn [errors_add].
  - constructor; [split; [exact Hc | constructor; [lia | constructor]] | constructor].
  - destruct (str_eqb k c); constructor; try assumption.
    + split; [exact Hk|]. cbn [snd] in *. apply Forall_app. split; [exact Hps|].
      constructor; [lia | constructor].
    + split; assumption.
Qed.

Lemma py_slice_length_le (s : pystr) a b : List.length (py_slice s a b) <= List.length s.
Proof. unfold py_slice. rewrite length_skipn, length_firstn. lia. Qed.

Lemma trim_window_length_le (s : pystr) : List.length (trim_window s) <= List.length s.
Proof.
  unfold trim_window.
  destruct (__has_array_before_object s); [apply py_slice_length_le|].
  destruct (__has_minimum_one_brace s); [apply py_slice_length_le | lia].
Qed.

Section ScanInvariant.

Context {L : PyLib}.

Variable n : nat.
Variable P : JsonFixer -> Prop.

Hypothesis P_track : forall s c pos, pos <= n -> P s -> P (track c pos s).

Lemma scan_char_inv sc (self : JsonFixer) i c :
  i < n -> scan_inv i sc -> P self ->
  scan_inv (S i) (fst (scan_char (sc, self) (i, c))) /\ P (snd (scan_char (sc, self) (i, c))).
Proof.
  intros Hi Hinv HP.
  pose proof (scan_inv_weaken i (S i) sc (Nat.le_succ_diag_r i) Hinv) as Hw.
  assert (Hw' := Hw).
  destruct Hinv as (Hq & Hqs & Hbs). destruct Hw' as (_ & Hqs' & Hbs').
  unfold scan_char.
  destruct (in_delimiters c) eqn:Ed.
  { destruct (quote_stack sc) as [|[lq lp] qs] eqn:Eq.
    - split; [|exact HP]. cbn [fst]. unfold scan_inv. cbn [quote_stack bracket_stack].
      split; [cbn; lia | split; [|exact Hbs']].
      constructor; [split; [exact Ed | cbn; lia] | constructor].
    - destruct qs as [|q2 qs]; [|cbn in Hq; lia]. cbn [last].
      inversion Hqs as [|? ? [_ Hlp] _]; subst. cbn [snd] in Hlp.
      destruct (N.eqb c lq); cbn [fst snd].
      + split; [|exact HP]. unfold scan_inv. cbn [quote_stack bracket_stack removelast].
        split; [cbn; lia | split; [constructor | exact Hbs']].
      + split; [exact Hw|].
        apply P_track; [lia|]. apply P_track; [lia | exact HP]. }
  destruct (nonempty_stack (quote_stack sc)).
  { split; [exact Hw | exact HP]. }
  destruct (char_in c "[{") eqn:Eo.
  { split; [|exact HP]. cbn [fst]. unfold scan_inv. cbn [quote_stack bracket_stack].
    split; [exact Hq | split; [exact Hqs'|]].
    apply Forall_app. split; [exact Hbs'|].
    constructor; [split; [exact Eo | cbn; lia] | constructor]. }
  destruct (char_in c "]}").
  { destruct (bracket_stack sc) as [|b bs] eqn:Eb.
    - split; [exact Hw|]. apply P_track; [lia | exact HP].
    - pose proof (last_in_stack bs b) as Hin.
      destruct (last bs b) as [open_char open_pos].
      assert (Hop : open_pos < i).
      { rewrite Forall_forall in Hbs. apply (Hbs _ Hin). }
      assert (Hrm : scan_inv (S i) (mkScan (quote_stack sc) (removelast (b :: bs)) (key_mode sc))).
      { unfold scan_inv. cbn [quote_stack bracket_stack].
        split; [exact Hq | split; [exact Hqs'|]].
        apply Forall_removelast. exact Hbs'. }
      match goal with |- context [negb ?x] => destruct (negb x) end;
        cbn [fst snd]; (split; [exact Hrm|]); [|exact HP].
      apply P_track; [lia|]. apply P_track; [lia | exact HP]. }
  destruct (is_chr c ":").
  { split; [unfold scan_inv; cbn [fst quote_stack bracket_stack]; auto|]. cbn [snd].
    destruct (negb (key_mode sc)); [apply P_track; [lia | exact HP] | exact HP]. }
  destruct (is_chr c ",");
    (split; [unfold scan_inv; cbn [fst quote_stack bracket_stack]; auto | exact HP]).
Qed.

Lemma scan_fold_inv (l : pystr) : forall k sc (self : JsonFixer),
  k + List.length l <= n -> scan_inv k sc -> P self ->
  scan_inv (k + List.length l)
    (fst (fold_left scan_char (combine (seq k (List.length l)) l) (sc, self)))
  /\ P (snd (fold_left scan_char (combine (seq k (List.length l)) l) (sc, self))).
Proof.
  induction l as [|c l IH]; intros k sc self Hk Hinv HP;
    cbn [List.length seq combine fold_left].
  - rewrite Nat.add_0_r. auto.
  - cbn [List.length] in Hk.
    destruct (scan_char_inv sc self k c) as [H1 H2]; [lia | exact Hinv | exact HP |].
    destruct (scan_char (sc, self) (k, c)) as [sc1 s1]. cbn [fst snd] in H1, H2.
    replace (k + S (List.length l)) with (S k + List.length l) by lia.
    apply IH; [lia | exact H1 | exact H2].
Qed.

Lemma report_open_quotes_inv qs : forall self : JsonFixer,
  Forall (fun qp : char * nat => snd qp < n) qs -> P self ->
  P (report_open_quotes n qs self).
Proof.
  unfold report_open_quotes.
  induction qs as [|q qs IH]; intros self H HP; cbn [fold_left]; [exact HP|].
  inversion H as [|? ? Hq Hqs]; subst.
  apply IH; [exact Hqs|]. apply P_track; [lia|]. apply P_track; [lia | exact HP].
Qed.

Lemma report_open_brackets_inv bs : forall self : JsonFixer,
  Forall (fun bp : char * nat => snd bp < n) bs -> P self ->
  P (report_open_brackets n bs self).
Proof.
  unfold report_open_brackets.
  induction bs as [|b bs IH]; intros self H HP; cbn [fold_left]; [exact HP|].
  inversion H as [|? ? Hb Hbs]; subst.
  apply IH; [exact Hbs|]. apply P_track; [lia|]. apply P_track; [lia | exact HP].
Qed.

Lemma structural_scan_inv rough (self : JsonFixer) :
  List.length rough = n -> P self -> P (structural_scan rough self).
Proof.
  intros Hn HP. unfold structural_scan, enumerate.
  destruct (scan_fold_inv rough 0 (mkScan [] [] true) self) as [(Hq & Hqs & Hbs) H2].
  - lia.
  - repeat split; cbn; auto.
  - exact HP.
  - destruct (fold_left scan_char _ _) as [sc s1]. cbn [fst snd] in *.
    rewrite Hn. cbn [Nat.add] in *. rewrite Hn in *.
    apply report_open_brackets_inv.
    + eapply Forall_impl; [|exact Hbs]. cbn. intros a [_ H]. exact H.
    + apply report_open_quotes_inv; [|exact H2].
      eapply Forall_impl; [|exact Hqs]. cbn. intros a [_ H]. exact H.
Qed.

End ScanInvariant.

Section PipelineInvariant.

Context {L : PyLib}.

#[local] Abbreviation value := (Value pyfloat).

Lemma track_tracked N text rough (s : JsonFixer) c pos :
  (Z.of_nat pos <= N)%Z -> tracked N text rough s -> tracked N text rough (track c pos s).
Proof.
  intros Hp (r & Hr & Ho & Hf & He). exists (add_error r [c] (Z.of_nat pos)).
  unfold track. rewrite (track_error_result _ _ _ _ Hr).
  repeat split; try assumption.
  apply errors_add_entries_ok; [exact He | reflexivity | lia].
Qed.

Lemma track_same_frame (self s : JsonFixer) c pos :
  same_frame self s -> same_frame self (_track_error c pos s).
Proof.
  intros (Hj & Hg & Hc & Hf). unfold same_frame, _track_error.
  destruct (result s); [|repeat split; assumption].
  destruct (logging s) eqn:El;
    cbn [json_str logging parse_cache failed_json set_logger set_result];
    repeat split; congruence.
Qed.

(** X11.  The structural scan records single characters only, each at a
    position between 0 and the length of the scanned text; it keeps the
    original and the fixed text of the result, and changes neither the
    cursor nor the text under it, the cache or the failure file. *)
Theorem structural_scan_records_positions_in_range
  (rough text f : pystr) (N : Z) (self : JsonFixer) :
  (Z.of_nat (List.length rough) <= N)%Z ->
  tracked N text f self ->
  tracked N text f (structural_scan rough self)
  /\ same_frame self (structural_scan rough self)
  /\ index (structural_scan rough self) = index self.
Proof.
  intros HN Ht.
  apply (structural_scan_inv (List.length rough)
           (fun s => tracked N text f s /\ same_frame self s /\ index s = index self)).
  - intros s c pos Hpos (H1 & H2 & H3). split; [|split].
    + apply track_tracked; [lia | exact H1].
    + apply track_same_frame; exact H2.
    + unfold track. rewrite track_error_index. exact H3.
  - reflexivity.
  - repeat split; auto.
Qed.

End PipelineInvariant.

Lemma structural_scan_records_positions_in_range_witness :
  let rough := py "{a: 'b], c: 1" in
  let text := py " {a: 'b], c: 1 " in
  let self := set_result fresh (Some (mkResults text rough [])) in
  option_map errors (result (structural_scan rough self))
  = Some [(py "'", [4%Z; 13%Z]); (py "{", [0%Z]); (py "}", [13%Z])]
  /\ (tracked 13 text rough (structural_scan rough self)
      /\ same_frame self (structural_scan rough self)
      /\ index (structural_scan rough self) = index self).
Proof.
  split; [vm_compute; reflexivity|].
  apply (@structural_scan_records_positions_in_range ref_lib).
  - vm_compute. discriminate.
  - eexists. repeat split. constructor.
Defined.

(** ** What [load_json] hands back *)

Section PipelineOutcome.

Context {L : PyLib}.

#[local] Abbreviation value := (Value pyfloat).

Lemma structural_scan_tracked (rough text f : pystr) (N : Z) (self : JsonFixer) :
  (Z.of_nat (List.length rough) <= N)%Z ->
  tracked N text f self -> tracked N text f (structural_scan rough self).
Proof.
  intros HN Ht.
  apply (structural_scan_inv (List.length rough) (tracked N text f));
    [|reflexivity | exact Ht].
  intros s c pos Hpos H. apply track_tracked; [lia | exact H].
Qed.

Lemma cached_parse_tracked N text f (window : pystr) (s : JsonFixer) :
  (Z.of_nat (List.length window) <= N)%Z ->
  tracked N text f s -> leaves (tracked N text f) (_cached_parse window s).
Proof.
  intros Hw Ht. unfold _cached_parse.
  destruct (cache_lookup (parse_cache s) window); [exact Ht|].
  destruct (parse_invariant
              (fun x => (Z.of_nat (List.length (json_str x)) <= N)%Z /\ tracked N text f x))
    with (fuel := parse_fuel window) as (Hp & _ & _).
  - intros x i [H1 H2]. split; assumption.
  - intros x c pos [H1 H2] _ Hpos. split.
    + rewrite track_error_json_str. exact H1.
    + apply (track_tracked N text f x c pos); [lia | exact H2].
  - specialize (Hp (set_index (set_json_str s window) 0) (conj Hw Ht)).
    destruct (parse (parse_fuel window) (set_index (set_json_str s window) 0));
      cbn [leaves] in *; tauto.
Qed.

Lemma assign_as_one (v : value) (s : JsonFixer) :
  exists u,
    match v with
    | VArr _ | VObj _ => assign_fixed (_standardize_json v)
    | _ => assign_fixed (py_str v)
    end s = Ok tt (set_result s (option_map (fun r => set_fixed r u) (result s))).
Proof. destruct v; eexists; reflexivity. Qed.

Lemma structural_scan_same_frame rough (self s : JsonFixer) :
  same_frame self s -> same_frame self (structural_scan rough s).
Proof.
  intros H. apply (structural_scan_inv (List.length rough) (same_frame self));
    [|reflexivity | exact H].
  intros x c pos _ Hx. apply track_same_frame; exact Hx.
Qed.

(** The ways [_process_chunk] ends. *)
Lemma process_chunk_outcome (chunk : pystr) (self : JsonFixer) :
  let rough := strip chunk in
  let window := trim_window rough in
  match _process_chunk chunk self with
  | Ok r s' =>
      result s' = Some r /\ original r = chunk
      /\ entries_ok (Z.of_nat (List.length rough)) r
  | Raised e s' =>
      (json_loads window = LoadsError e
       /\ failed_json s' = failed_json self
       /\ tracked (Z.of_nat (List.length rough)) chunk rough s')
      \/ (e = IndexError (py "string index out of range")
          /\ failed_json s' = failed_json self
          /\ tracked (Z.of_nat (List.length rough)) chunk rough s'
          /\ exists pos, json_loads window = DecodeError pos /\ List.length window <= pos)
      \/ (e = ValueError (py "Failed to parse JSON")
          /\ failed_json s' = Some window
          /\ (exists pos, json_loads window = DecodeError pos /\ pos < List.length window)
          /\ exists r ex ps,
               result s' = Some r /\ original r = chunk /\ fixed r = rough
               /\ errors_get (errors r) (exn_str ex) = Some (ps ++ [(-1)%Z]))
  | NoFuel => True
  end.
Proof.
  intros rough window. unfold _process_chunk. fold rough. fold window.
  set (N := Z.of_nat (List.length rough)).
  assert (H1 : tracked N chunk rough
                 (structural_scan rough (set_result self (Some (mkResults chunk rough []))))).
  { apply structural_scan_tracked; [subst N; lia|].
    eexists. repeat split. constructor. }
  assert (Hf1 : failed_json
                  (structural_scan rough (set_result self (Some (mkResults chunk rough []))))
                = failed_json self).
  { destruct (structural_scan_same_frame rough self
                (set_result self (Some (mkResults chunk rough []))))
      as (_ & _ & _ & Hf); [repeat split|]. symmetry. exact Hf. }
  set (self1 := structural_scan rough (set_result self (Some (mkResults chunk rough [])))) in *.
  destruct (json_loads window) as [parsed|pos|e] eqn:El.
  { destruct H1 as (r1 & Hr & Ho & Hf & He).
    unfold bind, assign_fixed, modify, return_result. cbn [result set_result].
    rewrite Hr. cbn [option_map]. repeat split; assumption. }
  2:{ left. repeat split; assumption. }
  destruct (nth_error window pos) as [c|] eqn:Ec.
  2:{ right. left. split; [reflexivity|]. split; [exact Hf1|]. split; [exact H1|].
      exists pos. split; [reflexivity|]. apply nth_error_None. exact Ec. }
  assert (Hwin : (Z.of_nat (List.length window) <= N)%Z).
  { subst N window. pose proof (trim_window_length_le rough). lia. }
  assert (H2 : tracked N chunk rough (track c pos self1)).
  { apply track_tracked; [|exact H1]. apply nth_error_in_range in Ec. lia. }
  pose proof (cached_parse_tracked N chunk rough window _ Hwin H2) as H3.
  unfold bind at 1. unfold catch. unfold bind at 1.
  destruct (_cached_parse window (track c pos self1)) as [v s3|ex s3|]; cbn [leaves] in H3.
  - destruct (assign_as_one v s3) as (u & ->).
    destruct H3 as (r3 & Hr & Ho & Hf & He).
    unfold return_result. cbn [result set_result]. rewrite Hr. cbn [option_map].
    repeat split; assumption.
  - right. right. destruct H3 as (r3 & Hr & Ho & Hf & He).
    unfold bind, modify, raise. split; [reflexivity|]. split; [reflexivity|].
    split; [exists pos; split; [reflexivity | apply (nth_error_in_range _ _ _ Ec)]|].
    exists (add_error r3 (exn_str ex) (-1)), ex,
           (match errors_get (errors r3) (exn_str ex) with Some ps => ps | None => [] end).
    cbn [result _save_failure]. rewrite (track_error_result _ _ _ _ Hr).
    repeat split; try assumption.
    cbn [errors add_error]. rewrite errors_get_add.
    destruct (errors_get (errors r3) (exn_str ex)); reflexivity.
  - exact I.
Qed.

(** X12.  A result that [load_json] returns carries the text it was
    called with as its original, and an error map whose keys are single
    characters and whose positions lie between 0 and the length of the
    stripped text.  For a text of at most 10000 characters it is the
    result the fixer keeps; for a longer one it has no errors at all and
    the fixer is left as it was. *)
Theorem load_json_returns_a_tracked_result (text : pystr) (self : JsonFixer) :
  fixed_of (load_json text self) <> None ->
  let r := result_of (load_json text self) in
  let self' := state_of (load_json text self) self in
  original r = text
  /\ entries_ok (Z.of_nat (List.length (strip text))) r
  /\ ((Z.of_nat (List.length text) <= 10000)%Z -> result self' = Some r)
  /\ ((10000 < Z.of_nat (List.length text))%Z -> errors r = [] /\ self' = self).
Proof.
  unfold load_json.
  destruct (Z.ltb_spec 10000 (Z.of_nat (List.length text))) as [Hlong|Hshort].
  - destruct (pool_map _ _); cbn; [congruence|].
    destruct (merge_chunks _ _); cbn; [congruence|]. intros _.
    repeat split; [constructor | lia].
  - pose proof (process_chunk_outcome text self) as H. cbv zeta in H.
    destruct (_process_chunk text self) as [r s'|e s'|]; cbn; try congruence.
    intros _. destruct H as (Hr & Ho & He). repeat split; auto; lia.
Qed.


End PipelineOutcome.

Lemma load_json_returns_a_tracked_result_witness :
  let text := py " {a: 'b], c: 1 " in
  let r := result_of (load_json text fresh) in
  let self' := state_of (load_json text fresh) fresh in
  errors r = [(py "'", [4%Z; 13%Z; 4%Z]); (py "{", [0%Z]); (py "}", [13%Z]); (py "a", [1%Z])]
  /\ (original r = text
      /\ entries_ok (Z.of_nat (List.length (strip text))) r
      /\ ((Z.of_nat (List.length text) <= 10000)%Z -> result self' = Some r)
      /\ ((10000 < Z.of_nat (List.length text))%Z -> errors r = [] /\ self' = fresh)).
Proof.
  split; [vm_compute; reflexivity|].
  apply (@load_json_returns_a_tracked_result ref_lib).
  vm_compute. discriminate.
Defined.


(** ** The outcome does not depend on what the fixer did before *)

Section History.

Context {L : PyLib}.

#[local] Abbreviation value := (Value pyfloat).

Lemma parse_agree fuel (a b : JsonFixer) :
  same_cursor a b -> agree (parse fuel a) (parse fuel b).
Proof.
  intros H. unfold agree.
  destruct (parse_related same_cursor) with (fuel := fuel) as (Hp & _ & _); auto.
  - intros x y i [Hj Hi]. split; [exact Hj | reflexivity].
  - intros x y c pos [Hj Hi] _ _. unfold same_cursor.
    rewrite !track_error_json_str, !track_error_index. auto.
Qed.

Lemma parse_outcome_any_state fuel t (a b : JsonFixer) :
  value_of (parse fuel (at_start a t)) = value_of (parse fuel (at_start b t))
  /\ raised_of (parse fuel (at_start a t)) = raised_of (parse fuel (at_start b t)).
Proof.
  assert (H : agree (parse fuel (at_start a t)) (parse fuel (at_start b t)))
    by (apply parse_agree; split; reflexivity).
  unfold agree in H.
  destruct (parse fuel (at_start a t)) as [v1 s1|e1 s1|],
           (parse fuel (at_start b t)) as [v2 s2|e2 s2|];
    cbn [related] in H; try contradiction;
    [destruct H as [-> _] | destruct H as [-> _] | ]; split; reflexivity.
Qed.

Lemma cache_lookup_in (c : list (pystr * value)) k v :
  cache_lookup c k = Some v -> In (k, v) c.
Proof.
  induction c as [|[k' v'] c IH]; cbn [cache_lookup]; [discriminate|].
  destruct (str_eqb k' k) eqn:E.
  - intros [= ->]. apply str_eqb_eq in E. subst. left; reflexivity.
  - intros H. right. auto.
Qed.

Lemma consistent_same_cache (s s' : JsonFixer) :
  parse_cache s' = parse_cache s -> cache_consistent s -> cache_consistent s'.
Proof. unfold cache_consistent. intros -> H. exact H. Qed.

Lemma cached_parse_outcome (w : pystr) (s : JsonFixer) :
  cache_consistent s ->
  value_of (_cached_parse w s) = value_of (parse (parse_fuel w) (at_start s w))
  /\ raised_of (_cached_parse w s) = raised_of (parse (parse_fuel w) (at_start s w)).
Proof.
  intros Hc. unfold _cached_parse.
  destruct (cache_lookup (parse_cache s) w) as [v|] eqn:E.
  - apply cache_lookup_in in E. specialize (Hc _ _ E s).
    destruct (parse (parse_fuel w) (at_start s w)); cbn in *; try discriminate.
    split; [congruence | reflexivity].
  - unfold at_start. destruct (parse (parse_fuel w) (set_index (set_json_str s w) 0));
      split; reflexivity.
Qed.

Lemma cached_parse_consistent (w : pystr) (s : JsonFixer) :
  cache_consistent s -> leaves cache_consistent (_cached_parse w s).
Proof.
  intros Hc. unfold _cached_parse.
  destruct (cache_lookup (parse_cache s) w) as [v|] eqn:E.
  - cbn [leaves]. intros t v' Hin. cbn [parse_cache set_parse_cache] in Hin.
    apply Hc. destruct Hin as [[= <- <-] | Hin]; [apply cache_lookup_in; exact E|].
    unfold cache_remove in Hin. apply filter_In in Hin as [Hin _]. exact Hin.
  - pose proof (parse_same_frame (parse_fuel w) (set_index (set_json_str s w) 0)) as Hf.
    pose proof (parse_outcome_any_state (parse_fuel w) w s) as Ho.
    unfold at_start in Ho.
    destruct (parse (parse_fuel w) (set_index (set_json_str s w) 0)) as [v s2|e s2|];
      cbn [leaves] in *; [| |exact I].
    + destruct Hf as (_ & _ & Hcache & _). cbn [parse_cache set_index set_json_str] in Hcache.
      intros t v' Hin. cbn [parse_cache set_parse_cache] in Hin.
      unfold cache_store in Hin.
      assert (Hin' : In (t, v') ((w, v) :: parse_cache s2)).
      { rewrite <- (firstn_skipn cache_maxsize ((w, v) :: parse_cache s2)).
        apply in_or_app. left. exact Hin. }
      destruct Hin' as [[= <- <-] | Hin'].
      * intros s'. destruct (Ho s') as [Hv _]. cbn in Hv. symmetry. exact Hv.
      * apply Hc. rewrite Hcache. exact Hin'.
    + destruct Hf as (_ & _ & Hcache & _). cbn [parse_cache set_index set_json_str] in Hcache.
      apply (consistent_same_cache s); [symmetry; exact Hcache | exact Hc].
Qed.

Lemma track_consistent c pos (s : JsonFixer) :
  cache_consistent s -> cache_consistent (_track_error c pos s).
Proof.
  apply consistent_same_cache.
  destruct (track_same_frame s s c pos) as (_ & _ & H & _); [repeat split|].
  symmetry; exact H.
Qed.

Lemma structural_scan_consistent rough (s : JsonFixer) :
  cache_consistent s -> cache_consistent (structural_scan rough s).
Proof.
  intros H. apply (structural_scan_inv (List.length rough) cache_consistent);
    [|reflexivity | exact H].
  intros x c pos _ Hx. apply track_consistent; exact Hx.
Qed.

(** What the end of [_process_chunk] makes of the outcome of
    [_cached_parse]. *)
Lemma process_chunk_finish (window : pystr) (s : JsonFixer) :
  result s <> None ->
  (forall v s', _cached_parse window s = Ok v s' -> result s' <> None) ->
  let out :=
    bind (catch
            (bind (_cached_parse window)
               (fun parsed =>
                  match parsed with
                  | VArr _ | VObj _ => assign_fixed (_standardize_json parsed)
                  | _ => assign_fixed (py_str parsed)
                  end))
            (fun ex =>
               bind (modify (fun f => _save_failure (_track_error (exn_str ex) (-1) f) window))
                    (fun _ => raise (ValueError (py "Failed to parse JSON")))))
         (fun _ => return_result) s in
  fixed_of out = option_map repaired_text (value_of (_cached_parse window s))
  /\ raised_of out
     = option_map (fun _ => ValueError (py "Failed to parse JSON"))
         (raised_of (_cached_parse window s)).
Proof.
  intros Hs Hk out. subst out. unfold bind, catch.
  destruct (_cached_parse window s) as [v s3|ex s3|]; [| |split; reflexivity].
  - specialize (Hk v s3 eq_refl).
    assert (E : match v with
                | VArr _ | VObj _ => assign_fixed (_standardize_json v)
                | _ => assign_fixed (py_str v)
                end s3
                = Ok tt (set_result s3
                           (option_map (fun r => set_fixed r (repaired_text v)) (result s3))))
      by (destruct v; reflexivity).
    rewrite E. unfold return_result. cbn [result set_result].
    destruct (result s3); [|congruence]. split; reflexivity.
  - unfold modify, raise. split; reflexivity.
Qed.

(** [_process_chunk] in one formula: the strict parse of the trimmed
    window, or else the tolerant one. *)
Lemma process_chunk_formula (chunk : pystr) (s : JsonFixer) :
  cache_consistent s ->
  let window := trim_window (strip chunk) in
  let out := _process_chunk chunk s in
  match json_loads window with
  | Decoded v => fixed_of out = Some (json_dumps v) /\ raised_of out = None
  | LoadsError e => fixed_of out = None /\ raised_of out = Some e
  | DecodeError pos =>
      match nth_error window pos with
      | None =>
          fixed_of out = None
          /\ raised_of out = Some (IndexError (py "string index out of range"))
      | Some _ =>
          let tolerant := parse (parse_fuel window) (at_start s window) in
          fixed_of out = option_map repaired_text (value_of tolerant)
          /\ raised_of out
             = option_map (fun _ => ValueError (py "Failed to parse JSON"))
                 (raised_of tolerant)
      end
  end.
Proof.
  intros Hs window out. subst out window. unfold _process_chunk.
  set (rough := strip chunk). set (window := trim_window rough).
  set (N := Z.of_nat (List.length rough)).
  assert (Ht : tracked N chunk rough
                 (structural_scan rough (set_result s (Some (mkResults chunk rough []))))).
  { apply structural_scan_tracked; [subst N; lia|].
    eexists. repeat split. constructor. }
  assert (Hc : cache_consistent
                 (structural_scan rough (set_result s (Some (mkResults chunk rough [])))))
    by (apply structural_scan_consistent; exact Hs).
  set (s1 := structural_scan rough (set_result s (Some (mkResults chunk rough [])))) in *.
  destruct (json_loads window) as [parsed|pos|e]; [| |split; reflexivity].
  { unfold bind, assign_fixed, modify, return_result. cbn [result set_result].
    destruct Ht as (r & -> & _). split; reflexivity. }
  destruct (nth_error window pos) as [c|] eqn:Ec; [|split; reflexivity].
  assert (Hwin : (Z.of_nat (List.length window) <= N)%Z).
  { subst N window. pose proof (trim_window_length_le rough). lia. }
  assert (H2 : tracked N chunk rough (track c pos s1)).
  { apply track_tracked; [|exact Ht]. apply nth_error_in_range in Ec. lia. }
  cbv zeta.
  destruct (process_chunk_finish window (track c pos s1)) as [-> ->].
  - destruct H2 as (r & -> & _); discriminate.
  - intros v s' E. pose proof (cached_parse_tracked N chunk rough window _ Hwin H2) as H3.
    rewrite E in H3. destruct H3 as (r & -> & _). discriminate.
  - destruct (cached_parse_outcome window (track c pos s1)) as [-> ->];
      [apply track_consistent, Hc|].
    destruct (parse_outcome_any_state (parse_fuel window) window (track c pos s1) s)
      as [-> ->].
    split; reflexivity.
Qed.

Lemma process_chunk_same (chunk : pystr) (a b : JsonFixer) :
  cache_consistent a -> cache_consistent b ->
  fixed_of (_process_chunk chunk a) = fixed_of (_process_chunk chunk b)
  /\ raised_of (_process_chunk chunk a) = raised_of (_process_chunk chunk b).
Proof.
  intros Ha Hb.
  pose proof (process_chunk_formula chunk a Ha) as Fa.
  pose proof (process_chunk_formula chunk b Hb) as Fb.
  cbv zeta in Fa, Fb.
  destruct (json_loads (trim_window (strip chunk))) as [v|pos|e].
  { destruct Fa as [-> ->], Fb as [-> ->]. split; reflexivity. }
  2:{ destruct Fa as [-> ->], Fb as [-> ->]. split; reflexivity. }
  destruct (nth_error (trim_window (strip chunk)) pos).
  2:{ destruct Fa as [-> ->], Fb as [-> ->]. split; reflexivity. }
  destruct Fa as [-> ->], Fb as [-> ->].
  destruct (parse_outcome_any_state (parse_fuel (trim_window (strip chunk)))
              (trim_window (strip chunk)) a b) as [-> ->].
  split; reflexivity.
Qed.

Lemma process_chunk_consistent (chunk : pystr) (s : JsonFixer) :
  cache_consistent s -> leaves cache_consistent (_process_chunk chunk s).
Proof.
  intros Hs. unfold _process_chunk.
  set (rough := strip chunk). set (window := trim_window rough).
  assert (H1 : cache_consistent
                 (structural_scan rough (set_result s (Some (mkResults chunk rough [])))))
    by (apply structural_scan_consistent; exact Hs).
  set (s1 := structural_scan rough (set_result s (Some (mkResults chunk rough [])))) in *.
  destruct (json_loads window) as [parsed|pos|e]; [| |exact H1].
  { unfold bind, assign_fixed, modify, return_result. cbn [result set_result].
    destruct (result s1); cbn [option_map leaves]; exact H1. }
  destruct (nth_error window pos) as [c|]; [|exact H1].
  pose proof (cached_parse_consistent window (track c pos s1) (track_consistent _ _ _ H1)) as H3.
  unfold bind at 1. unfold catch. unfold bind at 1.
  destruct (_cached_parse window (track c pos s1)) as [v s3|ex s3|]; cbn [leaves] in H3.
  - destruct (assign_as_one v s3) as (u & ->).
    unfold return_result. cbn [result set_result].
    destruct (result s3); cbn [option_map leaves]; exact H3.
  - unfold bind, modify, raise. cbn [leaves].
    apply (consistent_same_cache (_track_error (exn_str ex) (-1) s3)); [reflexivity|].
    apply track_consistent, H3.
  - exact I.
Qed.

(** X14.  Call a cache sound when each entry holds what the tolerant
    parser returns for its text (a new fixer has none).  Then the fixed
    text [load_json] returns, or the exception it raises, is the same for
    any two fixers with sound caches, whatever they parsed, logged or
    recorded before; and [load_json] leaves the cache sound. *)
Theorem load_json_outcome_ignores_history (text : pystr) (a b : JsonFixer) :
  cache_consistent a -> cache_consistent b ->
  fixed_of (load_json text a) = fixed_of (load_json text b)
  /\ raised_of (load_json text a) = raised_of (load_json text b)
  /\ cache_consistent (state_of (load_json text a) a).
Proof.
  intros Ha Hb. unfold load_json.
  destruct (10000 <? Z.of_nat (List.length text))%Z.
  - destruct (pool_map _ _); cbn; auto.
    destruct (merge_chunks _ _); cbn; auto.
  - destruct (process_chunk_same text a b Ha Hb) as [-> ->].
    split; [reflexivity|]. split; [reflexivity|].
    pose proof (process_chunk_consistent text a Ha) as H.
    destruct (_process_chunk text a); cbn in *; auto.
Qed.

End History.

Lemma load_json_outcome_ignores_history_witness :
  let first := pyq "{`speed`: 50,}" in
  let text := py "{a: 'b], c: 1" in
  let used := state_of (load_json text (state_of (load_json first (new_fixer true)) fresh))
                       fresh in
  fixed_of (load_json text used) = Some (pyq "{`a`:`b], c: 1`}")
  /\ fixed_of (load_json text used) = fixed_of (load_json text fresh)
  /\ raised_of (load_json text used) = raised_of (load_json text fresh)
  /\ cache_consistent (state_of (load_json text used) used).
Proof.
  assert (H0 : forall lg, cache_consistent (new_fixer lg)) by (intros lg t v []).
  assert (H1 := @load_json_outcome_ignores_history ref_lib
                  (pyq "{`speed`: 50,}") (new_fixer true) fresh (H0 true) (H0 false)).
  destruct H1 as (_ & _ & H1).
  assert (H2 := @load_json_outcome_ignores_history ref_lib
                  (py "{a: 'b], c: 1")
                  (state_of (load_json (pyq "{`speed`: 50,}") (new_fixer true)) fresh)
                  fresh).
  destruct H2 as (_ & _ & H2).
  - intros t v Hin. apply H1.
    replace (parse_cache (state_of (load_json (pyq "{`speed`: 50,}") (new_fixer true))
                                   (new_fixer true)))
      with (parse_cache (state_of (load_json (pyq "{`speed`: 50,}") (new_fixer true)) fresh))
      by (vm_compute; reflexivity).
    exact Hin.
  - exact (H0 false).
  - split; [vm_compute; reflexivity|].
    apply (@load_json_outcome_ignores_history ref_lib); [|exact (H0 false)].
    intros t v Hin. apply H2.
    replace (parse_cache
               (state_of (load_json (py "{a: 'b], c: 1")
                            (state_of (load_json (pyq "{`speed`: 50,}") (new_fixer true)) fresh))
                         (state_of (load_json (pyq "{`speed`: 50,}") (new_fixer true)) fresh)))
      with (parse_cache
              (state_of (load_json (py "{a: 'b], c: 1")
                           (state_of (load_json (pyq "{`speed`: 50,}") (new_fixer true)) fresh))
                        fresh))
      by (vm_compute; reflexivity).
    exact Hin.
Defined.

(** ** The parser always ends *)

Section Ends.

Context {L : PyLib}.

(** X15.  Provided no letter is one of the separators [,:]}] (as in
    Python), the tolerant parser ends on every text within a budget of
    three steps per character and one more, and so do [_cached_parse] and
    [load_json]: each returns or raises. *)
Theorem tolerant_parse_always_ends (text : pystr) (self : JsonFixer) :
  (forall c, isalpha c = true -> char_in c ",:]}" = false) ->
  parse (parse_fuel text) (at_start self text) <> NoFuel
  /\ _cached_parse text self <> NoFuel
  /\ load_json text self <> NoFuel.
Proof.
  intros Ha. split; [|split].
  - destruct (parse_total Ha (parse_fuel text)) as (Tp & _ & _).
    apply Tp. unfold parse_fuel, remaining, at_start.
    cbn [json_str index set_index set_json_str]. lia.
  - apply cached_parse_total; exact Ha.
  - apply load_json_total; exact Ha.
Qed.

End Ends.

Lemma tolerant_parse_always_ends_witness :
  let text := py "{a: [1, {b: 'c" in
  parse (parse_fuel text) (at_start fresh text) <> NoFuel
  /\ _cached_parse text fresh <> NoFuel
  /\ load_json text fresh <> NoFuel.
Proof.
  apply (@tolerant_parse_always_ends ref_lib (py "{a: [1, {b: 'c") fresh).
  intros c H. unfold char_in. cbn [py list_ascii_of_string map existsb].
  change (@isalpha ref_lib c) with (ref_isalpha c) in H. unfold ref_isalpha in H.
  repeat match goal with
         | |- context [N.eqb ?a ?b] => destruct (N.eqb_spec a b); try subst
         end; try reflexivity; vm_compute in H; discriminate.
Defined.

(** ** The keys of repaired objects *)

Section Keys.

Context {L : PyLib}.

#[local] Abbreviation value := (Value pyfloat).
#[local] Abbreviation key := (Key pyfloat).

Lemma parse_string_kind (self : JsonFixer) v self' :
  parse_string self = Ok v self' ->
  match v with VStr _ | VInt _ | VFloat _ => True | _ => False end.
Proof.
  unfold parse_string.
  destruct (nth_error (json_str self) (index self)) as [c0|]; [|intros [= <- _]; exact I].
  destruct (string_loop _ _ _ _ _ _) as [[string stop] found_end].
  match goal with
  | |- context [match ?n with Some _ => _ | None => _ end] => destruct n as [w|] eqn:En
  end.
  - intros [= <- _].
    destruct (in_delimiters c0); [discriminate|].
    destruct (existsb _ _);
      [destruct (float_of_str _) | destruct (int_of_str _)];
      cbn in En; inversion En; exact I.
  - unfold _cleanup_string, ret. destruct (strip string); cbn [truthy negb];
      intros [= <- _]; exact I.
Qed.

Lemma cleanup_key_ok (v : value) (s : JsonFixer) k s' :
  match v with VStr _ | VInt _ | VFloat _ => True | _ => False end ->
  _cleanup_string v true s = Ok k s' ->
  exists k', to_key k = Some k' /\ key_ok k' = true.
Proof.
  unfold _cleanup_string, ret, raise. intros Hv.
  destruct v as [|b|z|f|str|xs|kvs]; try contradiction; cbn [truthy].
  - destruct (Z.eqb z 0) eqn:E; cbn [negb]; [|discriminate].
    intros [= <- _]. eexists; split; [reflexivity | exact E].
  - destruct (float_is_zero f) eqn:E; cbn [negb]; [|discriminate].
    intros [= <- _]. eexists; split; [reflexivity | exact E].
  - destruct str as [|x xs]; cbn [negb]; intros [= <- _];
      (eexists; split; [reflexivity|]); [reflexivity|].
    cbn [key_ok]. rewrite remove_char_absent.
    rewrite remove_char_keeps_absent by apply remove_char_absent. reflexivity.
Qed.

Lemma dict_set_clean (obj : list (key * value)) k v :
  clean_keys (VObj obj) = true -> key_ok k = true -> clean_keys v = true ->
  clean_keys (VObj (dict_set obj k v)) = true.
Proof.
  cbn [clean_keys]. intros Ho Hk Hv.
  induction obj as [|[k0 v0] obj IH]; cbn [dict_set forallb fst snd] in *.
  - rewrite Hk, Hv. reflexivity.
  - apply andb_true_iff in Ho as [H1 H2].
    destruct (key_eqb k0 k); cbn [forallb fst snd].
    + apply andb_true_iff in H1 as [H1 _]. rewrite H1, Hv, H2. reflexivity.
    + rewrite H1, (IH H2). reflexivity.
Qed.

Lemma parse_clean fuel :
  (forall (self : JsonFixer) v self',
      parse fuel self = Ok v self' -> clean_keys v = true)
  /\ (forall obj ek ck (self : JsonFixer) v self',
        clean_keys (VObj obj) = true ->
        (forall k, ck = Some k -> exists k', to_key k = Some k' /\ key_ok k' = true) ->
        parse_object_loop fuel obj ek ck self = Ok v self' -> clean_keys v = true)
  /\ (forall arr (self : JsonFixer) v self',
        clean_keys (VArr arr) = true ->
        parse_array_loop fuel arr self = Ok v self' -> clean_keys v = true).
Proof.
  induction fuel as [|fuel (IHp & IHo & IHa)]; [repeat split; discriminate|].
  split; [|split].
  - intros self v self'. rewrite parse_eq.
    destruct (nth_error (json_str self) (index self)) as [c|]; [|intros [= <- _]; reflexivity].
    destruct (isspace c); [apply IHp|].
    destruct (is_chr c "{");
      [apply IHo; [reflexivity | intros k; discriminate]|].
    destruct (is_chr c "["); [apply IHa; reflexivity|].
    destruct (in_delimiters c || isalpha c)%bool.
    { intros H. apply parse_string_kind in H. destruct v; try contradiction; reflexivity. }
    destruct (isdigit c || char_in c ".-")%bool; [|apply IHp].
    intros H. destruct (parse_number_ok self) as (v0 & s0 & H0 & _ & _ & Hc & _).
    rewrite H0 in H. injection H as <- _. destruct v0; try discriminate; reflexivity.
  - intros obj ek ck self v self' Ho Hck. rewrite parse_object_loop_eq.
    destruct (nth_error (json_str self) (index self)) as [c|]; [|intros [= <- _]; exact Ho].
    destruct (isspace c || is_chr c ",")%bool; [apply IHo; assumption|].
    destruct (is_chr c "}"); [intros [= <- _]; exact Ho|].
    destruct ek.
    + unfold bind. destruct (parse_string self) as [w s1|e s1|] eqn:Es; try discriminate.
      destruct (_cleanup_string w true s1) as [k s2|e s2|] eqn:Ek; try discriminate.
      apply IHo; [exact Ho|]. intros k0 [= <-].
      apply (cleanup_key_ok w s1 k s2); [|exact Ek].
      apply (parse_string_kind _ _ _ Es).
    + destruct (is_chr c ":"); [apply IHo; assumption|].
      destruct (parse fuel self) as [w s1|e s1|] eqn:Ep; try discriminate.
      pose proof (IHp _ _ _ Ep) as Hw.
      destruct ck as [k|]; [|apply IHo; [exact Ho | intros k; discriminate]].
      destruct (is_none w); [apply IHo; [exact Ho | intros k0; discriminate]|].
      destruct (Hck k eq_refl) as (k' & -> & Hk').
      apply IHo; [apply dict_set_clean; assumption | intros k0; discriminate].
  - intros arr self v self' Harr. rewrite parse_array_loop_eq.
    destruct (nth_error (json_str self) (index self)) as [c0|];
      [|intros [= <- _]; exact Harr].
    cbv zeta.
    destruct (nth_error (json_str (skip_while isspace self))
                        (index (skip_while isspace self))) as [c|];
      [|intros [= <- _]; exact Harr].
    destruct (is_chr c "]"); [intros [= <- _]; exact Harr|].
    destruct (parse fuel (skip_while isspace self)) as [w s1|e s1|] eqn:Ep; try discriminate.
    pose proof (IHp _ _ _ Ep) as Hw.
    apply IHa. destruct (is_none w); [exact Harr|].
    cbn [clean_keys] in *. rewrite forallb_app, Harr. cbn [forallb]. rewrite Hw. reflexivity.
Qed.

(** X16.  In whatever the tolerant parser returns, every key of every
    object is a string without colon and semicolon (both are deleted from
    keys, quoted or not) or a number equal to zero.  A key that reads as
    any other number makes the parser raise instead: where the object
    loop expects a key and [parse_string] returns a truthy value that is
    no string, the loop raises AttributeError. *)
Theorem tolerant_parser_cleans_keys fuel (self : JsonFixer) :
  (forall v : value, value_of (parse fuel self) = Some v -> clean_keys v = true)
  /\ (forall obj ck c (k : value),
        nth_error (json_str self) (index self) = Some c ->
        (isspace c || is_chr c ",")%bool = false -> is_chr c "}" = false ->
        value_of (parse_string self) = Some k ->
        truthy k = true -> (forall s, k <> VStr s) ->
        exists m,
          raised_of (parse_object_loop (S fuel) obj true ck self) = Some (AttributeError m)).
Proof.
  split.
  - destruct (parse_clean fuel) as (Hp & _ & _).
    intros v. destruct (parse fuel self) as [w s'|e s'|] eqn:E; cbn; try discriminate.
    intros [= <-]. apply (Hp _ _ _ E).
  - intros obj ck c k Hc Hsp Hcl Hk Ht Hn.
    rewrite parse_object_loop_eq, Hc, Hsp, Hcl. unfold bind.
    destruct (parse_string self) as [w s1|e s1|]; cbn in Hk; try discriminate.
    injection Hk as ->.
    unfold _cleanup_string, ret, raise. rewrite Ht. cbn [negb].
    destruct k; try (eexists; reflexivity). exfalso. exact (Hn _ eq_refl).
Qed.

End Keys.

Lemma tolerant_parser_cleans_keys_witness :
  let text := pyq "{`a:b`: 1, c;d: {0: [x, {e: 2}]}}" in
  let v := VObj [(KStr (py "ab"), VInt 1);
                 (KStr (py "cd"),
                  VObj [(KInt 0, VArr [VStr (py "x"); VObj [(KStr (py "e"), VInt 2)]])])] in
  let at_key := set_index (at_start fresh (py "{a: 1, 12: 2}")) 7 in
  value_of (parse (parse_fuel text) (at_start fresh text)) = Some v
  /\ clean_keys v = true
  /\ exists m,
       raised_of (parse_object_loop 5 [(KStr (py "a"), VInt 1)] true None at_key)
       = Some (AttributeError m).
Proof.
  assert (E : value_of (parse (parse_fuel (pyq "{`a:b`: 1, c;d: {0: [x, {e: 2}]}}"))
                         (at_start fresh (pyq "{`a:b`: 1, c;d: {0: [x, {e: 2}]}}")))
              = Some (VObj [(KStr (py "ab"), VInt 1);
                            (KStr (py "cd"),
                             VObj [(KInt 0, VArr [VStr (py "x");
                                                  VObj [(KStr (py "e"), VInt 2)]])])]))
    by (vm_compute; reflexivity).
  split; [exact E|]. split.
  - exact (proj1 (@tolerant_parser_cleans_keys ref_lib _ _) _ E).
  - apply (proj2 (@tolerant_parser_cleans_keys ref_lib 4
                    (set_index (at_start fresh (py "{a: 1, 12: 2}")) 7))
                 [(KStr (py "a"), VInt 1)] None (chr "1") (VInt 12));
      try reflexivity.
    intros s. discriminate.
Defined.

(** ** [load_json] in one formula *)

Section Formula.

Context {L : PyLib}.

#[local] Abbreviation value := (Value pyfloat).

(** X17.  For a text of at most 10000 characters whose trimmed window
    opens at most 400 brackets, and a fixer with a sound cache,
    [load_json] is decided by the trimmed window of the stripped text
    alone.  If the strict parser accepts the window, the fixed text
    is the compact serialization of its value.  If it raises an exception
    that is no [JSONDecodeError], that exception leaves [load_json].  If
    it rejects the window at its end, IndexError is raised.  Otherwise
    the tolerant parser reads the window from its start: the fixed text
    is the serialization of the container it returns, or the [str] of the
    scalar; and if it raises, [load_json] raises ValueError. *)
Theorem load_json_is_strict_else_tolerant (text : pystr) (self : JsonFixer) :
  (Z.of_nat (List.length text) <= 10000)%Z ->
  brackets_opened (trim_window (strip text)) <= shallow ->
  cache_consistent self ->
  let window := trim_window (strip text) in
  let out := load_json text self in
  match json_loads window with
  | Decoded v => fixed_of out = Some (json_dumps v) /\ raised_of out = None
  | LoadsError e => fixed_of out = None /\ raised_of out = Some e
  | DecodeError pos =>
      match nth_error window pos with
      | None =>
          fixed_of out = None
          /\ raised_of out = Some (IndexError (py "string index out of range"))
      | Some _ =>
          let tolerant := parse (parse_fuel window) (at_start self window) in
          fixed_of out = option_map repaired_text (value_of tolerant)
          /\ raised_of out
             = option_map (fun _ => ValueError (py "Failed to parse JSON"))
                 (raised_of tolerant)
      end
  end.
Proof.
  intros Hshort _ Hc window out. subst out. unfold load_json.
  destruct (Z.ltb_spec 10000 (Z.of_nat (List.length text))); [lia|].
  apply process_chunk_formula. exact Hc.
Qed.

Lemma skippable_cases c :
  skippable c = true ->
  isspace c = true
  \/ (isspace c = false /\ is_chr c "{" = false /\ is_chr c "[" = false
      /\ (in_delimiters c || isalpha c)%bool = false
      /\ (isdigit c || char_in c ".-")%bool = false).
Proof.
  unfold skippable. destruct (isspace c); [left; reflexivity|]. right.
  destruct (is_chr c "{"), (is_chr c "["), (in_delimiters c), (isalpha c),
           (isdigit c), (char_in c ".-"); cbn in *; try discriminate; repeat split.
Qed.

Lemma parse_skips fuel : forall self : JsonFixer,
  forallb skippable (skipn (index self) (json_str self)) = true ->
  index self <= List.length (json_str self) ->
  List.length (json_str self) - index self < fuel ->
  parse fuel self = Ok VNull (set_index self (List.length (json_str self))).
Proof.
  induction fuel as [|fuel IH]; intros self Hall Hle Hf; [lia|].
  rewrite parse_eq.
  destruct (nth_error (json_str self) (index self)) as [c|] eqn:E.
  - pose proof (nth_error_in_range _ _ _ E) as Hlt.
    rewrite (nth_error_skipn _ _ _ E) in Hall. cbn [forallb] in Hall.
    apply andb_true_iff in Hall as [Hc Hrest].
    assert (Hnext : parse fuel (advance self)
                    = Ok VNull (set_index self (List.length (json_str self)))).
    { rewrite IH; cbn [advance set_index json_str index]; try lia; [reflexivity|].
      rewrite Nat.add_1_r. exact Hrest. }
    destruct (skippable_cases c Hc) as [-> | (-> & -> & -> & -> & ->)]; exact Hnext.
  - apply nth_error_None in E. f_equal.
    destruct self; cbn in *. unfold set_index; cbn. f_equal. lia.
Qed.

(** X18.  A text in which nothing opens a value (no brace, bracket,
    quote, letter, digit, dot or minus) gives the parser nothing to
    return: [parse] steps over every character, answers None at the end
    and tracks no error.  When the strict parser rejects such a window
    inside it, [load_json] returns the word None as the fixed text. *)
Theorem text_without_values_is_fixed_as_None (text : pystr) (self : JsonFixer) pos :
  (Z.of_nat (List.length text) <= 10000)%Z ->
  cache_consistent self ->
  let window := trim_window (strip text) in
  forallb skippable window = true ->
  json_loads window = DecodeError pos -> pos < List.length window ->
  parse (parse_fuel window) (at_start self window)
  = Ok VNull (set_index (at_start self window) (List.length window))
  /\ fixed_of (load_json text self) = Some (py "None").
Proof.
  intros Hshort Hc window Hall Hl Hpos.
  assert (Hp : parse (parse_fuel window) (at_start self window)
               = Ok VNull (set_index (at_start self window) (List.length window))).
  { apply (parse_skips (parse_fuel window) (at_start self window)).
    - exact Hall.
    - cbn. lia.
    - unfold parse_fuel. cbn [at_start json_str index set_index set_json_str]. lia. }
  split; [exact Hp|].
  unfold load_json. destruct (Z.ltb_spec 10000 (Z.of_nat (List.length text))); [lia|].
  pose proof (process_chunk_formula text self Hc) as F. cbv zeta in F.
  fold window in F. rewrite Hl in F.
  destruct (nth_error window pos) eqn:E; [|apply nth_error_None in E; lia].
  destruct F as [-> _]. rewrite Hp. reflexivity.
Qed.

End Formula.

Lemma load_json_is_strict_else_tolerant_witness :
  let text := py " {a: 'b], c: 1 " in
  let window := trim_window (strip text) in
  let out := load_json text fresh in
  json_loads window = DecodeError 1
  /\ nth_error window 1 = Some (chr "a")
  /\ fixed_of out = Some (pyq "{`a`:`b], c: 1`}")
  /\ match json_loads window with
     | Decoded v => fixed_of out = Some (json_dumps v) /\ raised_of out = None
     | LoadsError e => fixed_of out = None /\ raised_of out = Some e
     | DecodeError pos =>
         match nth_error window pos with
         | None =>
             fixed_of out = None
             /\ raised_of out = Some (IndexError (py "string index out of range"))
         | Some _ =>
             let tolerant := parse (parse_fuel window) (at_start fresh window) in
             fixed_of out = option_map repaired_text (value_of tolerant)
             /\ raised_of out
                = option_map (fun _ => ValueError (py "Failed to parse JSON"))
                    (raised_of tolerant)
         end
     end.
Proof.
  split; [vm_compute; reflexivity|].
  split; [vm_compute; reflexivity|].
  split; [vm_compute; reflexivity|].
  apply (@load_json_is_strict_else_tolerant ref_lib (py " {a: 'b], c: 1 ") fresh).
  - vm_compute. discriminate.
  - vm_compute. lia.
  - intros t v [].
Defined.

Lemma text_without_values_is_fixed_as_None_witness :
  let text := py " ?? = !! " in
  let window := trim_window (strip text) in
  parse (parse_fuel window) (at_start fresh window)
  = Ok VNull (set_index (at_start fresh window) (List.length window))
  /\ fixed_of (load_json text fresh) = Some (py "None").
Proof.
  apply (@text_without_values_is_fixed_as_None ref_lib (py " ?? = !! ") fresh 0).
  - vm_compute. discriminate.
  - intros t v [].
  - vm_compute. reflexivity.
  - vm_compute. reflexivity.
  - vm_compute. lia.
Defined.

(** ** Bare tokens *)

Section BareTokens.

Context {L : PyLib}.

#[local] Abbreviation value := (Value pyfloat).

Lemma string_loop_token q (body : pystr) tail : forall i acc,
  forallb token_char body = true ->
  string_loop false q (body ++ tail) i false acc
  = string_loop false q tail (i + List.length body) false (acc ++ body).
Proof.
  induction body as [|c body IH]; intros i acc Hb.
  - cbn [app List.length]. rewrite app_nil_r, Nat.add_0_r. reflexivity.
  - cbn [forallb] in Hb. apply andb_true_iff in Hb as [Hc Hb].
    unfold token_char in Hc.
    apply andb_true_iff in Hc as [Hc Hs]. apply andb_true_iff in Hc as [Hbs Hsep].
    apply negb_true_iff in Hbs, Hsep, Hs.
    cbn [app string_loop List.length]. rewrite Hbs, Hsep, Hs. cbn [andb negb].
    rewrite (IH _ _ Hb), <- app_assoc. cbn [app]. f_equal. lia.
Qed.

Lemma strip_no_blank (s : pystr) :
  forallb (fun c => negb (isspace c)) s = true -> strip s = s.
Proof.
  intros H. unfold strip, strip_with.
  assert (Hd : forall t : pystr,
             forallb (fun c => negb (isspace c)) t = true -> dropwhile isspace t = t).
  { intros t Ht. apply dropwhile_stays. intros c Hc.
    destruct t as [|x t]; [discriminate|]. injection Hc as ->.
    cbn [forallb] in Ht. apply andb_true_iff in Ht as [Ht _].
    apply negb_true_iff in Ht. exact Ht. }
  rewrite (Hd s H). rewrite Hd; [apply rev_involutive|].
  rewrite forallb_forall in *. intros x Hx. apply H, in_rev. exact Hx.
Qed.

Lemma token_no_blank (s : pystr) :
  forallb token_char s = true -> forallb (fun c => negb (isspace c)) s = true.
Proof.
  rewrite !forallb_forall. intros H x Hx. specialize (H x Hx).
  unfold token_char in H. apply andb_true_iff in H as [_ H]. exact H.
Qed.

Lemma blank_is_space (s : pystr) :
  forallb token_blank s = true -> forallb isspace s = true.
Proof.
  rewrite !forallb_forall. intros H x Hx. specialize (H x Hx).
  unfold token_blank in H. apply andb_true_iff in H as [H _].
  apply andb_true_iff in H as [H _]. exact H.
Qed.

Lemma dropwhile_lead p (lead s : pystr) :
  forallb p lead = true -> dropwhile p (lead ++ s) = dropwhile p s.
Proof.
  induction lead as [|c lead IH]; cbn [forallb app dropwhile]; [reflexivity|].
  intros H. apply andb_true_iff in H as [-> H]. apply IH, H.
Qed.

Lemma strip_lead (lead s : pystr) :
  forallb isspace lead = true -> strip (lead ++ s) = strip s.
Proof.
  intros H. unfold strip, strip_with. rewrite (dropwhile_lead _ _ _ H). reflexivity.
Qed.

Lemma string_loop_lead q (lead : pystr) rest : forall i acc,
  forallb token_blank lead = true -> forallb isspace acc = true ->
  string_loop false q (lead ++ rest) i false acc
  = string_loop false q rest (i + List.length lead) false (acc ++ lead).
Proof.
  induction lead as [|c lead IH]; intros i acc Hl Ha.
  - cbn [app List.length]. rewrite app_nil_r, Nat.add_0_r. reflexivity.
  - cbn [forallb] in Hl. apply andb_true_iff in Hl as [Hc Hl].
    unfold token_blank in Hc.
    apply andb_true_iff in Hc as [Hc Hsep]. apply andb_true_iff in Hc as [Hsp Hbs].
    apply negb_true_iff in Hbs, Hsep.
    assert (Hempty : strip acc = []).
    { rewrite <- (app_nil_r acc), (strip_lead acc [] Ha). reflexivity. }
    cbn [app string_loop List.length]. rewrite Hbs, Hsep, Hsp, Hempty. cbn [andb negb nonempty].
    rewrite IH; [|exact Hl|].
    + rewrite <- app_assoc. cbn [app]. f_equal. lia.
    + rewrite forallb_app, Ha. cbn [forallb]. rewrite Hsp. reflexivity.
Qed.

(** X19.  At a character that is no quote, [parse_string] reads a bare
    token.  When the text from the cursor on is blanks, then characters
    that are neither a backslash, a separator [,:]}] nor a blank, then a
    separator, a blank or the end of the text (a blank ends a token only
    after its first character), it leaves the cursor on that stop
    character and tracks no error.  It returns the token, without the
    blanks before it, as a float when it holds a dot and converts, as an
    int when it holds none and converts, and otherwise as a string
    without the quotes and backslashes at its ends: the empty string
    when the cursor stands on a separator. *)
Theorem parse_string_reads_a_bare_token (self : JsonFixer) c0 lead token tail :
  nth_error (json_str self) (index self) = Some c0 ->
  in_delimiters c0 = false ->
  skipn (index self) (json_str self) = lead ++ token ++ tail ->
  forallb token_blank lead = true ->
  forallb token_char token = true ->
  (forall c, hd_error tail = Some c ->
             token_stop c = true /\ (token = [] -> char_in c ",:]}" = true)) ->
  parse_string self
  = Ok (match (if existsb (N.eqb (chr ".")) token
               then option_map (fun f => VFloat f) (float_of_str token)
               else option_map (fun z => VInt z) (int_of_str token)) with
        | Some v => v
        | None => VStr (strip_with quote_or_backslash token)
        end)
       (set_index self (index self + List.length lead + List.length token)).
Proof.
  intros E0 Hd Hs Hl Hb Ht. unfold parse_string.
  rewrite E0, Hd, Hs.
  rewrite (string_loop_lead c0 lead (token ++ tail) _ [] Hl eq_refl). cbn [app].
  rewrite (string_loop_token c0 token tail _ _ Hb).
  assert (Hstrip : strip (lead ++ token) = token).
  { rewrite (strip_lead _ _ (blank_is_space _ Hl)).
    apply strip_no_blank, token_no_blank, Hb. }
  assert (Hstop : string_loop false c0 tail
                    (index self + List.length lead + List.length token) false
                    (lead ++ token)
                  = (lead ++ token,
                     index self + List.length lead + List.length token, false)).
  { destruct tail as [|c tail]; [reflexivity|].
    destruct (Ht c eq_refl) as [Hc Hsep]. unfold token_stop in Hc.
    apply andb_true_iff in Hc as [Hbs Hc]. apply negb_true_iff in Hbs.
    cbn [string_loop]. rewrite Hbs. cbn [andb negb].
    destruct (char_in c ",:]}") eqn:Esep; [reflexivity|]. cbn [orb] in Hc.
    rewrite Hc, Hstrip.
    destruct token as [|t more]; [|reflexivity].
    specialize (Hsep eq_refl). discriminate. }
  rewrite Hstop. cbn [andb]. rewrite Hstrip.
  destruct (if existsb (N.eqb (chr ".")) token
            then option_map (fun f => VFloat f) (float_of_str token)
            else option_map (fun z => VInt z) (int_of_str token)); [reflexivity|].
  unfold _cleanup_string, ret.
  destruct token as [|t more] eqn:Et; [reflexivity|]. cbn [truthy negb].
  rewrite <- Et in *. rewrite (strip_no_blank token (token_no_blank _ Hb)). reflexivity.
Qed.

End BareTokens.

Lemma parse_string_reads_a_bare_token_witness :
  let text := py "[true, 12, 1.5, 'x', {: 1}]" in
  let at_word := set_index (at_start fresh text) 1 in
  let at_int := set_index (at_start fresh text) 7 in
  let at_blank := set_index (at_start fresh text) 10 in
  let at_colon := set_index (at_start fresh text) 22 in
  parse_string at_word = Ok (VStr (py "true")) (set_index at_word 5)
  /\ parse_string at_int = Ok (VInt 12) (set_index at_int 9)
  /\ parse_string at_blank = Ok (VFloat (DFin false 15 (-1))) (set_index at_blank 14)
  /\ parse_string at_colon = Ok (VStr []) (set_index at_colon 22).
Proof.
  split; [|split; [|split]].
  - apply (@parse_string_reads_a_bare_token ref_lib
             (set_index (at_start fresh (py "[true, 12, 1.5, 'x', {: 1}]")) 1)
             (chr "t") [] (py "true") (py ", 12, 1.5, 'x', {: 1}]"));
      try reflexivity.
    intros c H. simpl in H. injection H as <-. split; [reflexivity | discriminate].
  - apply (@parse_string_reads_a_bare_token ref_lib
             (set_index (at_start fresh (py "[true, 12, 1.5, 'x', {: 1}]")) 7)
             (chr "1") [] (py "12") (py ", 1.5, 'x', {: 1}]"));
      try reflexivity.
    intros c H. simpl in H. injection H as <-. split; [reflexivity | discriminate].
  - apply (@parse_string_reads_a_bare_token ref_lib
             (set_index (at_start fresh (py "[true, 12, 1.5, 'x', {: 1}]")) 10)
             (chr " ") (py " ") (py "1.5") (py ", 'x', {: 1}]"));
      try reflexivity.
    intros c H. simpl in H. injection H as <-. split; [reflexivity | discriminate].
  - apply (@parse_string_reads_a_bare_token ref_lib
             (set_index (at_start fresh (py "[true, 12, 1.5, 'x', {: 1}]")) 22)
             (chr ":") [] [] (py ": 1}]"));
      try reflexivity.
    intros c H. simpl in H. injection H as <-. split; reflexivity.
Defined.

(** ** Long texts *)

Section LongTexts.

Context {L : PyLib}.

#[local] Abbreviation value := (Value pyfloat).
#[local] Abbreviation key := (Key pyfloat).

Lemma merge_chunks_stops (chunks : list value) : forall (merged : list (key * value)) k w,
  nth_error chunks k = Some w -> not_iterable w = true ->
  exists e, merge_chunks merged chunks = inl e.
Proof.
  induction chunks as [|chunk rest IH]; intros merged k w Hk Hw.
  - destruct k; discriminate.
  - cbn [merge_chunks].
    destruct (dict_update merged chunk) as [e|merged'] eqn:E; [eexists; reflexivity|].
    destruct k as [|k].
    + injection Hk as ->. destruct w; try discriminate; cbn in E; discriminate.
    + apply (IH merged' k w Hk Hw).
Qed.

Lemma pool_map_nth {A B : Type} (f : A -> exn + B) (xs : list A) : forall ys k x,
  pool_map f xs = inr ys -> nth_error xs k = Some x ->
  exists y, f x = inr y /\ nth_error ys k = Some y.
Proof.
  induction xs as [|x0 xs IH]; intros ys k x Hm Hk; [destruct k; discriminate|].
  cbn [pool_map] in Hm.
  destruct (f x0) as [e|y0] eqn:E0; [discriminate|].
  destruct (pool_map f xs) as [e|ys0] eqn:Er; [discriminate|].
  injection Hm as <-. destruct k as [|k].
  - injection Hk as <-. exists y0. split; [exact E0 | reflexivity].
  - apply (IH ys0 k x eq_refl Hk).
Qed.

(** X20.  A text of more than 10000 characters is repaired only when
    every window of 5000 characters can be merged: when some window reads,
    strictly, as a number, a boolean or null, [load_json] raises, returns
    no result, and leaves the fixer as it was. *)
Theorem long_text_with_a_scalar_window_raises
  (text : pystr) (self : JsonFixer) k w (v : value) :
  (10000 < Z.of_nat (List.length text))%Z ->
  nth_error (_split_into_chunks text 5000) k = Some w ->
  _process_json_chunk w = inr v ->
  not_iterable v = true ->
  exists e, load_json text self = Raised e self.
Proof.
  intros Hlen Hk Hv Hw. unfold load_json.
  destruct (Z.ltb_spec 10000 (Z.of_nat (List.length text))); [|lia].
  destruct (pool_map _process_json_chunk (_split_into_chunks text 5000))
    as [e|parsed] eqn:Ep; [exists e; reflexivity|].
  destruct (pool_map_nth _ _ _ _ _ Ep Hk) as (y & Hy & Hn).
  rewrite Hv in Hy. injection Hy as <-.
  destruct (merge_chunks_stops parsed [] k v Hn Hw) as (e & ->).
  exists e. reflexivity.
Qed.

End LongTexts.

Lemma long_text_with_a_scalar_window_raises_witness :
  let text := pad_to 10001 (pyq "{`a`: 1}") ++ py "7" in
  raised_of (load_json text fresh) = Some (TypeError (py "'int' object is not iterable"))
  /\ exists e, load_json text fresh = Raised e fresh.
Proof.
  split; [vm_compute; reflexivity|].
  apply (@long_text_with_a_scalar_window_raises ref_lib
           (pad_to 10001 (pyq "{`a`: 1}") ++ py "7") fresh 2 (py " 7") (VInt 7)).
  - vm_compute. reflexivity.
  - vm_compute. reflexivity.
  - vm_compute. reflexivity.
  - reflexivity.
Defined.

(** ** What [fixed] holds *)

Section FixedText.

Context {L : PyLib}.

#[local] Abbreviation value := (Value pyfloat).

(** C1, as the code has it.  Whenever [load_json] returns, [fixed] is one
    of four texts.  For a text of more than 10,000 characters: the compact
    serialization of the merged mapping.  Otherwise: the compact
    serialization of the value the strict parser reads from the trimmed
    window; or, when the strict parser rejects the window, what the
    tolerant parser returns for the window (the cached value, when the
    cache holds one for the window) decides: the compact serialization of
    that object or array, or the [str] text of that scalar.  A compact
    serialization is a valid JSON document provided the floats in the
    value are finite; the [str] text of a scalar need not be JSON. *)
Theorem fixed_is_serialization_or_scalar_text
  (text : pystr) (self : JsonFixer) (r : JsonResults) (self' : JsonFixer) :
  load_json text self = Ok r self' ->
  let window := trim_window (strip text) in
  let chunks := _split_into_chunks text 5000 in
  let tolerant := parse (parse_fuel window) (at_start self window) in
  let serialized (v : value) :=
    fixed r = json_dumps v
    /\ (Forall json_float (floats_of v) -> json_text (fixed r)) in
  ((10000 < Z.of_nat (List.length text))%Z
   /\ exists parsed merged,
        pool_map _process_json_chunk chunks = inr parsed
        /\ merge_chunks [] parsed = inr merged
        /\ serialized (VObj merged))
  \/ ((Z.of_nat (List.length text) <= 10000)%Z
      /\ exists v, json_loads window = Decoded v /\ serialized v)
  \/ ((Z.of_nat (List.length text) <= 10000)%Z
      /\ exists pos v,
           json_loads window = DecodeError pos /\ pos < List.length window
           /\ match cache_lookup (parse_cache self) window with
              | Some cached => v = cached
              | None => value_of tolerant = Some v
              end
           /\ (cache_consistent self -> value_of tolerant = Some v)
           /\ (if is_container v then serialized v else fixed r = py_str v)).
Proof.
  intros Hload window chunks tolerant serialized.
  assert (Hser : forall v : value, fixed r = json_dumps v -> serialized v).
  { intros v Hv. split; [exact Hv|].
    intros Hf. rewrite Hv. apply json_value_text, json_dumps_value, Hf. }
  unfold load_json in Hload.
  destruct (Z.ltb_spec 10000 (Z.of_nat (List.length text))) as [Hlong|Hshort].
  { left. split; [exact Hlong|]. fold chunks in Hload.
    destruct (pool_map _process_json_chunk chunks) as [e|parsed] eqn:Ep; [discriminate|].
    destruct (merge_chunks [] parsed) as [e|merged] eqn:Em; [discriminate|].
    exists parsed, merged.
    split; [reflexivity|]. split; [exact Em|]. apply Hser.
    injection Hload as Hr _. rewrite <- Hr. reflexivity. }
  right. unfold _process_chunk in Hload. fold window in Hload.
  set (s0 := set_result self (Some (mkResults text (strip text) []))) in *.
  assert (Hframe : same_frame self (structural_scan (strip text) s0))
    by (apply structural_scan_same_frame; repeat split).
  assert (Hcons : cache_consistent self ->
                  cache_consistent (structural_scan (strip text) s0)).
  { intros Hc. apply structural_scan_consistent.
    apply (consistent_same_cache self); [reflexivity | exact Hc]. }
  set (s1 := structural_scan (strip text) s0) in *.
  destruct (json_loads window) as [parsed|pos|e] eqn:El; [| |discriminate].
  { left. split; [exact Hshort|]. exists parsed. split; [reflexivity|].
    apply Hser. apply assign_then_return in Hload. exact Hload. }
  right. split; [exact Hshort|].
  destruct (nth_error window pos) as [c|] eqn:Ec; [|discriminate].
  set (s2 := track c pos s1) in *.
  assert (Hcache : parse_cache s2 = parse_cache self).
  { destruct (track_same_frame self s1 [c] (Z.of_nat pos) Hframe) as (_ & _ & H & _).
    symmetry. exact H. }
  unfold bind at 1 in Hload. unfold catch in Hload. unfold bind at 1 in Hload.
  destruct (_cached_parse window s2) as [v s3|ex s3|] eqn:Ecp;
    [| unfold bind, modify, raise in Hload; discriminate | discriminate].
  exists pos, v. split; [reflexivity|].
  split; [apply (nth_error_in_range _ _ _ Ec)|].
  assert (Hany : forall x : JsonFixer,
             value_of (parse (parse_fuel window) (at_start x window)) = Some v ->
             value_of tolerant = Some v).
  { intros x Hx. subst tolerant.
    destruct (parse_outcome_any_state (parse_fuel window) window self x) as [-> _].
    exact Hx. }
  split; [|split].
  - unfold _cached_parse in Ecp. rewrite Hcache in Ecp.
    destruct (cache_lookup (parse_cache self) window) as [cached|].
    + injection Ecp as <- _. reflexivity.
    + apply (Hany s2). unfold at_start.
      destruct (parse (parse_fuel window) (set_index (set_json_str s2 window) 0));
        try discriminate.
      injection Ecp as <- _. reflexivity.
  - intros Hc. apply (Hany s2).
    destruct (cached_parse_outcome window s2) as [<- _].
    + apply track_consistent, Hcons, Hc.
    + rewrite Ecp. reflexivity.
  - assert (Hfix : fixed r = repaired_text v).
    { assert (E : match v with
                  | VArr _ | VObj _ => assign_fixed (_standardize_json v)
                  | _ => assign_fixed (py_str v)
                  end s3
                  = assign_fixed (repaired_text v) s3) by (destruct v; reflexivity).
      rewrite E in Hload. exact (assign_then_return _ _ _ _ Hload). }
    destruct v; cbn [is_container]; try exact Hfix; apply Hser; exact Hfix.
Qed.

End FixedText.

Lemma fixed_is_serialization_or_scalar_text_witness :
  let text := py "{direction: left, tags: [a, 2]}" in
  let out := load_json text fresh in
  let r := result_of out in
  let window := trim_window (strip text) in
  let chunks := _split_into_chunks text 5000 in
  let tolerant := parse (parse_fuel window) (at_start fresh window) in
  let serialized (v : Value dfloat) :=
    fixed r = json_dumps v
    /\ (Forall json_float (floats_of v) -> json_text (fixed r)) in
  out = Ok r (state_of out fresh)
  /\ fixed r = pyq "{`direction`:`left`,`tags`:[`a`,2]}"
  /\ (((10000 < Z.of_nat (List.length text))%Z
       /\ exists parsed merged,
            pool_map _process_json_chunk chunks = inr parsed
            /\ merge_chunks [] parsed = inr merged
            /\ serialized (VObj merged))
      \/ ((Z.of_nat (List.length text) <= 10000)%Z
          /\ exists v, json_loads window = Decoded v /\ serialized v)
      \/ ((Z.of_nat (List.length text) <= 10000)%Z
          /\ exists pos v,
               json_loads window = DecodeError pos /\ pos < List.length window
               /\ match cache_lookup (parse_cache fresh) window with
                  | Some cached => v = cached
                  | None => value_of tolerant = Some v
                  end
               /\ (cache_consistent fresh -> value_of tolerant = Some v)
               /\ (if is_container v then serialized v else fixed r = py_str v))).
Proof.
  assert (E : load_json (py "{direction: left, tags: [a, 2]}") fresh
              = Ok (result_of (load_json (py "{direction: left, tags: [a, 2]}") fresh))
                   (state_of (load_json (py "{direction: left, tags: [a, 2]}") fresh) fresh))
    by (apply returned_by_parts; vm_compute; discriminate).
  split; [exact E|]. split; [vm_compute; reflexivity|].
  exact (@fixed_is_serialization_or_scalar_text ref_lib _ _ _ _ E).
Defined.
